(** * TaskTrove icon generator: a model of [scripts/generate-icons.py]

    The script regenerates every icon asset of the repository from one
    square PNG.  It is glue code over the Pillow imaging library: it
    allocates images, resizes, pastes through masks, and saves PNG, ICO
    and SVG files.  This development embeds the script as a state-passing
    program over

    - a store of mutable image objects (Pillow images are mutated in place
      by [paste] and by [ImageDraw]),
    - a disk (path to content) and the standard output,
    - Python exceptions as outcomes,
    - binary64 floats for the radius and scale fractions.

    What Pillow computes inside its codecs and filters (the Lanczos kernel,
    the PNG byte stream, the rasterisation of a rounded rectangle) is not
    code of this repository, and neither is the memory the machine has for
    images; both are kept abstract in the class [Pillow], whose laws state
    only what the script relies on. *)

From Stdlib Require Import ZArith Lia Bool Ascii String DecimalString DecimalZ DecimalPos.
From Stdlib Require Import Floats.SpecFloat.
From stdpp Require Import base option list list_numbers gmap strings.

#[local] Open Scope Z_scope.

(** ** Python floats (IEEE 754 binary64) *)

Module PyFloat.

Definition prec : Z := 53.
Definition emax : Z := 1024.

Abbreviation float := spec_float.

(** [float(n)] for a Python int: the nearest binary64, ties to even. *)
Definition of_int (n : Z) : float := binary_normalize prec emax n 0 false.

Definition mul : float -> float -> float := SFmul prec emax.
Definition div : float -> float -> float := SFdiv prec emax.
Definition ltb : float -> float -> bool := SFltb.
Definition leb : float -> float -> bool := SFleb.

Definition is_finite (x : float) : bool :=
  match x with
  | S754_zero _ | S754_finite _ _ _ => true
  | _ => false
  end.

(** [int(x)]: truncation towards zero; [None] on infinities and NaN,
    where Python raises. *)
Definition trunc (x : float) : option Z :=
  match x with
  | S754_zero _ => Some 0
  | S754_finite s m e =>
      let a := match e with
               | Zneg p => Z.shiftr (Zpos m) (Zpos p)
               | _ => Z.shiftl (Zpos m) e
               end in
      Some (if s then - a else a)
  | S754_infinity _ | S754_nan => None
  end.

Definition zero : float := S754_zero false.
Definition one : float := of_int 1.
Definition half : float := div (of_int 1) (of_int 2).

(** A fraction in (0, 1]: a well-formed binary64 [f] with [0 < f <= 1]. *)
Definition unit_fraction (f : float) : bool :=
  valid_binary prec emax f && ltb zero f && leb f one.

(** A radius fraction in (0, 0.5]. *)
Definition radius_fraction (f : float) : bool :=
  valid_binary prec emax f && ltb zero f && leb f half.

End PyFloat.

Abbreviation float := PyFloat.float.

(** ** Images *)

Record rgba : Type := RGBA { red : Z; green : Z; blue : Z; alpha : Z }.

Definition transparent : rgba := RGBA 0 0 0 0.

#[global] Instance rgba_inhabited : Inhabited rgba := populate transparent.

#[global] Instance rgba_eq_dec : EqDecision rgba.
Proof. solve_decision. Defined.

(** An image of [width] x [height] pixels, stored row by row. *)
Record Img (P : Type) : Type := mkImg { width : Z; height : Z; rows : list (list P) }.
Arguments mkImg {P} _ _ _.
Arguments width {P} _.
Arguments height {P} _.
Arguments rows {P} _.

Definition size {P} (im : Img P) : Z * Z := (width im, height im).

(** The pixel at column [x], row [y]; the type's default off the image. *)
Definition px {P} `{Inhabited P} (im : Img P) (x y : Z) : P :=
  if (0 <=? x) && (0 <=? y)
  then default inhabitant (rows im !! Z.to_nat y ≫= λ row, row !! Z.to_nat x)
  else inhabitant.

(** The [w] x [h] image whose pixel at [(x, y)] is [f x y]. *)
Definition tabulate {P} (w h : Z) (f : Z -> Z -> P) : Img P :=
  mkImg w h ((λ y, (λ x, f x y) <$> seqZ 0 w) <$> seqZ 0 h).

Definition wf_img {P} (im : Img P) : Prop :=
  0 <= width im ∧ 0 <= height im ∧
  length (rows im) = Z.to_nat (height im) ∧
  Forall (λ row, length row = Z.to_nat (width im)) (rows im).

Definition size_eqb (a b : Z * Z) : bool := (a.1 =? b.1) && (a.2 =? b.2).

(** ** Exceptions and outcomes *)

Inductive exn : Type :=
  | SystemExit (msg : string)
  | ValueError (msg : string)
  | OverflowError (msg : string)
  | IndexError (msg : string)
  | TypeError (msg : string)
  | OSError (msg : string)
  | MemoryError
  | UnidentifiedImageError (path : string).

Inductive outcome (A : Type) : Type :=
  | Ret (a : A)
  | Raise (e : exn).
Arguments Ret {A} _.
Arguments Raise {A} _.

(** ** The Pillow interface *)

Inductive Resampling : Type := NEAREST | BILINEAR | BICUBIC | LANCZOS.

(** What the script takes from Pillow without this repository defining it.
    - [fits]: whether the machine has room for a new image of a given width
      and height, made by [Image.new] or by a resize.  Every machine has
      room for the sizes up to 512 x 512 this program asks for, and none
      for a line of more than [INT_MAX / 4 - 1] pixels, which Pillow's
      storage refuses;
    - [resample]: the resize kernel for a target of at least 1 x 1;
    - [blend]: how [paste] composites one pixel through a mask value
      (0 keeps the destination, 255 takes the source);
    - [rr_inked]: the pixels [ImageDraw.rounded_rectangle] inks for the box
      [(x0, y0, x1, y1)] and a corner radius.  The corners are pie slices
      whose rasterisation stays with Pillow; between them ImageDraw fills
      rectangles: the columns strictly between the corner boxes over the
      full height, and the rows strictly between the corner boxes on the
      left and on the right.  With a radius of 2 or more that fits the box,
      the pie slice leaves the corner pixel of the box blank;
    - [png_encode], [ico_container]: the codecs;
    - [ico_refused]: the bytes the ICO writer has put in the file when it
      refuses to go on;
    - [save_as]: the encoder [Image.save] picks for a file extension other
      than [.png] (lower-cased, with its dot): [None] when no format is
      registered for it, otherwise the bytes the encoder writes and the
      error it ends with, if any;
    - [image_open]: decoding a file and converting it to RGBA. *)
Class Pillow : Type := {
  fits : Z -> Z -> bool;
  fits_small : ∀ w h, 0 <= w <= 512 -> 0 <= h <= 512 -> fits w h = true;
  fits_limit : ∀ w h, fits w h = true -> w <= 536870910;
  resample : Resampling -> Img rgba -> Z -> Z -> Img rgba;
  resample_size : ∀ f im w h, 1 <= w -> 1 <= h -> size (resample f im w h) = (w, h);
  blend : Z -> rgba -> rgba -> rgba;
  blend_0 : ∀ out src, blend 0 out src = out;
  blend_255 : ∀ out src, blend 255 out src = src;
  rr_inked : Z * Z * Z * Z -> Z -> Z -> Z -> bool;
  rr_inked_sides : ∀ x0 y0 x1 y1 r x y,
    0 <= r -> x0 <= x <= x1 -> y0 + r < y < y1 - r ->
    x <= x0 + r ∨ x1 - r <= x ->
    rr_inked (x0, y0, x1, y1) r x y = true;
  rr_inked_middle : ∀ x0 y0 x1 y1 r x y,
    0 <= r -> x0 + r + 1 < x1 - r - 1 ->
    x0 + r < x < x1 - r -> y0 <= y <= y1 ->
    rr_inked (x0, y0, x1, y1) r x y = true;
  rr_inked_corner : ∀ x0 y0 x1 y1 r,
    2 <= r -> 2 * r <= x1 - x0 -> 2 * r <= y1 - y0 ->
    rr_inked (x0, y0, x1, y1) r x0 y0 = false;
  png_encode : Img rgba -> string;
  ico_container : list (Img rgba) -> string;
  ico_refused : string;
  save_as : string -> Img rgba -> option (string * option exn);
  image_open : string -> option (Img rgba)
}.

(** ** The world: image store, disk, standard output *)

Inductive obj : Type :=
  | ORGBA (im : Img rgba)   (* mode "RGBA" *)
  | OL (im : Img Z).        (* mode "L" *)

Definition ref : Type := nat.

Record World : Type := mkWorld {
  heap : list obj;
  disk : gmap string string;
  stdout : list string
}.

Definition M (A : Type) : Type := World -> outcome A * World.

Definition ret {A} (a : A) : M A := λ w, (Ret a, w).
Definition raise {A} (e : exn) : M A := λ w, (Raise e, w).
Definition bind {A B} (m : M A) (k : A -> M B) : M B :=
  λ w, match m w with
       | (Ret a, w') => k a w'
       | (Raise e, w') => (Raise e, w')
       end.

Declare Scope prog_scope.
Delimit Scope prog_scope with prog.
Notation "x <- m ;; k" := (bind m (λ x, k))
  (at level 100, m at next level, right associativity) : prog_scope.
Notation "m ;;; k" := (bind m (λ _, k))
  (at level 100, right associativity) : prog_scope.
#[local] Open Scope prog_scope.

(** [for x in xs: body x] *)
Fixpoint for_each {A} (xs : list A) (body : A -> M unit) : M unit :=
  match xs with
  | [] => ret tt
  | x :: xs' => body x ;;; for_each xs' body
  end.

(** [[f x for x in xs]] *)
Fixpoint list_comp {A B} (xs : list A) (f : A -> M B) : M (list B) :=
  match xs with
  | [] => ret []
  | x :: xs' => y <- f x ;; ys <- list_comp xs' f ;; ret (y :: ys)
  end.

(** The process exit status an outcome of [main] gives. *)
Definition exit_status {A} (o : outcome A) : Z :=
  match o with
  | Ret _ => 0
  | Raise _ => 1
  end.

(** *** Store and output primitives *)

Definition alloc (o : obj) : M ref :=
  λ w, (Ret (length (heap w)), mkWorld (heap w ++ [o]) (disk w) (stdout w)).

Definition load (r : ref) : M obj :=
  λ w, match heap w !! r with
       | Some o => (Ret o, w)
       | None => (Raise (TypeError "not an image"), w)
       end.

Definition load_rgba (r : ref) : M (Img rgba) :=
  o <- load r ;;
  match o with
  | ORGBA im => ret im
  | OL _ => raise (TypeError "not an RGBA image")
  end.

Definition load_L (r : ref) : M (Img Z) :=
  o <- load r ;;
  match o with
  | OL im => ret im
  | ORGBA _ => raise (TypeError "not an L image")
  end.

Definition store (r : ref) (o : obj) : M unit :=
  λ w, (Ret tt, mkWorld (<[r := o]> (heap w)) (disk w) (stdout w)).

Definition print (line : string) : M unit :=
  λ w, (Ret tt, mkWorld (heap w) (disk w) (stdout w ++ [line])).

Definition write_file (path content : string) : M unit :=
  λ w, (Ret tt, mkWorld (heap w) (<[path := content]> (disk w)) (stdout w)).

Definition path_exists (path : string) : M bool :=
  λ w, (Ret (bool_decide (is_Some (disk w !! path))), w).

Definition read_file (path : string) : M (option string) :=
  λ w, (Ret (disk w !! path), w).

(** *** Python numbers *)

Definition str_int (n : Z) : string := NilZero.string_of_int (Z.to_int n).

(** [n * f] for an int [n] and a float [f]. *)
Definition int_times_float (n : Z) (f : float) : M float :=
  let x := PyFloat.of_int n in
  if PyFloat.is_finite x then ret (PyFloat.mul x f)
  else raise (OverflowError "int too large to convert to float").

(** [int(x)] *)
Definition py_int (x : float) : M Z :=
  match PyFloat.trunc x with
  | Some n => ret n
  | None =>
      match x with
      | S754_nan => raise (ValueError "cannot convert float NaN to integer")
      | _ => raise (OverflowError "cannot convert float infinity to integer")
      end
  end.

(** [xs[-1]] *)
Definition py_last {A} (xs : list A) : M A :=
  match last xs with
  | Some x => ret x
  | None => raise (IndexError "list index out of range")
  end.

(** ** Pillow operations on the store *)

Section Program.
Context `{Pillow}.

(** The bounds of a C [int] and of a C [long] (64 bits): Pillow passes
    sizes to C as [int]s. *)
Definition INT_MAX : Z := 2147483647.
Definition INT_MIN : Z := -2147483648.
Definition LONG_MAX : Z := 9223372036854775807.
Definition LONG_MIN : Z := -9223372036854775808.

(** What converting a Python int to a C [int] argument raises, if
    anything. *)
Definition c_int (n : Z) : option exn :=
  if (n <? LONG_MIN) || (LONG_MAX <? n)
  then Some (OverflowError "Python int too large to convert to C long")
  else if INT_MAX <? n
  then Some (OverflowError "signed integer is greater than maximum")
  else if n <? INT_MIN
  then Some (OverflowError "signed integer is less than minimum")
  else None.

Definition obj_size (o : obj) : Z * Z :=
  match o with
  | ORGBA im => size im
  | OL im => size im
  end.

(** Whether the store holds an image of this size. *)
Definition holds_size (h : list obj) (sz : Z * Z) : bool :=
  existsb (λ o, size_eqb (obj_size o) sz) h.

(** Whether a new image of this size can be allocated: the machine has room
    for it.  The images of the store are in memory, so a size the store
    already holds is taken to fit once more. *)
Definition allocates (w : World) (sz : Z * Z) : bool :=
  fits sz.1 sz.2 || holds_size (heap w) sz.

(** [Image.new(mode, size, color)] up to the pixel type: the size is checked
    in Python, converted to C [int]s, and the storage is allocated. *)
Definition Image_new (sz : Z * Z) (o : obj) : M ref :=
  if (sz.1 <? 0) || (sz.2 <? 0)
  then raise (ValueError "Width and height must be >= 0")
  else match c_int sz.1, c_int sz.2 with
       | Some e, _ | None, Some e => raise e
       | None, None =>
           λ w, if allocates w sz then alloc o w else raise MemoryError w
       end.

(** [Image.new("RGBA", size, color)] *)
Definition Image_new_RGBA (sz : Z * Z) (color : rgba) : M ref :=
  Image_new sz (ORGBA (tabulate sz.1 sz.2 (λ _ _, color))).

(** [Image.new("L", size, color)] *)
Definition Image_new_L (sz : Z * Z) (color : Z) : M ref :=
  Image_new sz (OL (tabulate sz.1 sz.2 (λ _ _, color))).

(** The image [im.resize(size, filter)] returns: a copy when the size is
    already [size]; otherwise the size is converted to C [int]s, refused
    below 1 x 1, and the filter's output is allocated. *)
Definition resized (im : Img rgba) (sz : Z * Z) (f : Resampling) : outcome (Img rgba) :=
  if size_eqb (size im) sz then Ret im
  else match c_int sz.1, c_int sz.2 with
       | Some e, _ | None, Some e => Raise e
       | None, None =>
           if (sz.1 <? 1) || (sz.2 <? 1)
           then Raise (ValueError "height and width must be > 0")
           else if fits sz.1 sz.2 then Ret (resample f im sz.1 sz.2)
           else Raise MemoryError
       end.

(** [img.resize(size, filter)]: always a new image object. *)
Definition Image_resize (img : ref) (sz : Z * Z) (f : Resampling) : M ref :=
  im <- load_rgba img ;;
  match resized im sz f with
  | Ret im' => alloc (ORGBA im')
  | Raise e => raise e
  end.

(** The mask value an image gives at a pixel: the alpha band of an RGBA
    image, the value of an L image. *)
Definition mask_value (o : obj) (x y : Z) : Z :=
  match o with
  | ORGBA im => alpha (px im x y)
  | OL im => px im x y
  end.

(** One axis of the region [paste] writes: a source of extent [n] placed at
    [d] on a destination of extent [lim], clipped to the destination.
    Returns the first source index, the first destination index and the
    clipped extent. *)
Definition clip (d n lim : Z) : Z * Z * Z :=
  let '(s0, d0, n) := if d <? 0 then (- d, 0, n + d) else (0, d, n) in
  let n := if lim <? d0 + n then lim - d0 else n in
  (s0, d0, n).

(** The pixels of [dst] after [dst.paste(src, box, mask)]. *)
Definition pasted (dst src : Img rgba) (mask : Z -> Z -> Z) (box : Z * Z) : Img rgba :=
  let '(sx0, dx0, xsize) := clip box.1 (width src) (width dst) in
  let '(sy0, dy0, ysize) := clip box.2 (height src) (height dst) in
  if (xsize <=? 0) || (ysize <=? 0) then dst
  else tabulate (width dst) (height dst) (λ x y,
         if (dx0 <=? x) && (x <? dx0 + xsize) && (dy0 <=? y) && (y <? dy0 + ysize)
         then blend (mask (x - dx0 + sx0) (y - dy0 + sy0))
                    (px dst x y)
                    (px src (x - dx0 + sx0) (y - dy0 + sy0))
         else px dst x y).

(** [dst.paste(src, box, mask)]: mutates [dst] in place. *)
Definition Image_paste (dst src : ref) (box : Z * Z) (mask : ref) : M unit :=
  d <- load_rgba dst ;;
  s <- load_rgba src ;;
  m <- load mask ;;
  if size_eqb (obj_size m) (size s)
  then store dst (ORGBA (pasted d s (mask_value m) box))
  else raise (ValueError "images do not match").

(** [ImageDraw.Draw(mask).rounded_rectangle(box, radius=r, fill=ink)] on an
    L image: every inked pixel takes the value [ink], no anti-aliasing.  A
    negative radius makes a rectangle between the corners whose right edge
    is left of its left edge, which ImageDraw refuses. *)
Definition ImageDraw_rounded_rectangle (mask : ref) (box : Z * Z * Z * Z) (r : Z) (ink : Z) : M unit :=
  m <- load_L mask ;;
  if r <? 0 then raise (ValueError "x1 must be greater than or equal to x0")
  else store mask (OL (tabulate (width m) (height m) (λ x y,
                         if rr_inked box r x y then ink else px m x y))).

(** *** Saving *)

(** [os.path.splitext(path)[1]]: the extension starts at the last dot of
    the last path component, unless only dots precede it there. *)
Fixpoint splitext_from (seen_other : bool) (s : list ascii) : list ascii :=
  match s with
  | [] => []
  | c :: rest =>
      if bool_decide (c = "/"%char) then splitext_from false rest
      else if bool_decide (c = "."%char) then
        match splitext_from seen_other rest with
        | [] => if seen_other && forallb (λ d, negb (bool_decide (d = "/"%char))) rest
                then s else []
        | ext => ext
        end
      else splitext_from true rest
  end.

(** [c.lower()] on one character. *)
Definition lower (c : ascii) : ascii :=
  let n := N_of_ascii c in
  if (65 <=? n)%N && (n <=? 90)%N then ascii_of_N (n + 32) else c.

(** [os.path.splitext(path)[1].lower()] *)
Definition extension (path : string) : string :=
  string_of_list_ascii (lower <$> splitext_from false (list_ascii_of_string path)).

(** What a save that fails after opening its file leaves on disk: [save]
    removes the file when it had created it, and an existing file keeps
    what had been written over it. *)
Definition failed_save (dest partial : string) : M unit :=
  λ w, match disk w !! dest with
       | Some _ => write_file dest partial w
       | None => (Ret tt, w)
       end.

(** [img.save(dest)]: the encoder follows the file extension, and a name
    without extension, or with one no format is registered for, is refused
    before the file is opened.  Only the PNG extension occurs in this
    program. *)
Definition Image_save (img : ref) (dest : string) : M unit :=
  im <- load_rgba img ;;
  let ext := extension dest in
  if String.eqb ext ".png" then write_file dest (png_encode im)
  else if String.eqb ext "" then raise (ValueError "unknown file extension: ")
  else match save_as ext im with
       | None => raise (ValueError ("unknown file extension: " +:+ ext))
       | Some (content, None) => write_file dest content
       | Some (partial, Some e) => failed_save dest partial ;;; raise e
       end.

(** Lexicographic order on sizes, as Python orders tuples. *)
Definition size_ltb (a b : Z * Z) : bool :=
  (a.1 <? b.1) || ((a.1 =? b.1) && (a.2 <? b.2)).

Fixpoint insert_size (a : Z * Z) (l : list (Z * Z)) : list (Z * Z) :=
  match l with
  | [] => [a]
  | b :: l' =>
      if size_eqb a b then l
      else if size_ltb a b then a :: l
      else b :: insert_size a l'
  end.

(** [sorted(set(sizes))] *)
Definition sorted_set (sizes : list (Z * Z)) : list (Z * Z) :=
  foldr insert_size [] sizes.

Definition ceil_div (a b : Z) : Z := - ((- a) / b).

(** The size [im.thumbnail(size, ...)] settles on, [None] when the image
    already fits: the requested box shrunk on one side to the image's
    aspect ratio, that side being the floor or the ceiling of the exact
    quotient, whichever gives the nearer aspect (the floor on a tie), and
    at least 1.  Pillow computes the aspect in floats; the two agree on
    the square images and boxes this program passes. *)
Definition thumbnail_size (im : Img rgba) (sz : Z * Z) : option (Z * Z) :=
  let '(x, y) := sz in
  let w := width im in
  let h := height im in
  if (w <=? x) && (h <=? y) then None
  else if w * y <=? x * h
  then
    let fl := (y * w) / h in
    let ce := ceil_div (y * w) h in
    let x' := if Z.abs (w * y - fl * h) <=? Z.abs (w * y - ce * h) then fl else ce in
    Some (Z.max x' 1, y)
  else
    let fl := (x * h) / w in
    let ce := ceil_div (x * h) w in
    let y' := if fl =? 0 then fl
              else if Z.abs (w * fl - x * h) * ce <=? Z.abs (w * ce - x * h) * fl
              then fl else ce in
    Some (x, Z.max y' 1).

(** The image a copy of [im] holds after
    [thumbnail(size, LANCZOS, reducing_gap=None)]. *)
Definition thumbnail (im : Img rgba) (sz : Z * Z) : outcome (Img rgba) :=
  match thumbnail_size im sz with
  | None => Ret im
  | Some final => resized im final LANCZOS
  end.

(** The frames Pillow's ICO writer embeds for [im.save(format="ICO",
    sizes=sizes)] with no [append_images]: for each requested size in
    order, skipped when larger than [im] or than 256, [im] itself at its
    own size, and otherwise a thumbnail of [im]. *)
Fixpoint ico_frames_of (im : Img rgba) (sizes : list (Z * Z)) : outcome (list (Img rgba)) :=
  match sizes with
  | [] => Ret []
  | sz :: rest =>
      if (width im <? sz.1) || (height im <? sz.2) || (256 <? sz.1) || (256 <? sz.2)
      then ico_frames_of im rest
      else
        match (if size_eqb (size im) sz then Ret im else thumbnail im sz) with
        | Raise e => Raise e
        | Ret frame =>
            match ico_frames_of im rest with
            | Raise e => Raise e
            | Ret frames => Ret (frame :: frames)
            end
        end
  end.

(** The frames of the bundle; the writer refuses to write none at all. *)
Definition ico_frames (im : Img rgba) (sizes : list (Z * Z)) : outcome (list (Img rgba)) :=
  match ico_frames_of im (sorted_set sizes) with
  | Ret [] => Raise (ValueError "All sizes too large for image")
  | frames => frames
  end.

(** [img.save(dest, format="ICO", sizes=sizes)]: the file is opened before
    the frames are made. *)
Definition Image_save_ico (img : ref) (dest : string) (sizes : list (Z * Z)) : M unit :=
  im <- load_rgba img ;;
  match ico_frames im sizes with
  | Ret frames => write_file dest (ico_container frames)
  | Raise e => failed_save dest ico_refused ;;; raise e
  end.

(** [Image.open(path).convert("RGBA")] *)
Definition Image_open_RGBA (path : string) : M ref :=
  content <- read_file path ;;
  match content ≫= image_open with
  | Some im => alloc (ORGBA im)
  | None => raise (UnidentifiedImageError path)
  end.

End Program.

(** ** Base64 (RFC 4648), as [base64.b64encode] *)

Module Base64.

(** The character of a 6-bit value. *)
Definition char_of (i : N) : ascii :=
  if (i <? 26)%N then ascii_of_N (65 + i)
  else if (i <? 52)%N then ascii_of_N (97 + (i - 26))
  else if (i <? 62)%N then ascii_of_N (48 + (i - 52))
  else if (i =? 62)%N then "+"%char
  else "/"%char.

(** The 6-bit value of a character of the alphabet. *)
Definition index_of (c : ascii) : option N :=
  let n := N_of_ascii c in
  if (65 <=? n)%N && (n <=? 90)%N then Some (n - 65)%N
  else if (97 <=? n)%N && (n <=? 122)%N then Some (n - 97 + 26)%N
  else if (48 <=? n)%N && (n <=? 57)%N then Some (n - 48 + 52)%N
  else if (n =? 43)%N then Some 62%N
  else if (n =? 47)%N then Some 63%N
  else None.

Definition pad : ascii := "="%char.

Fixpoint encode (s : string) : string :=
  match s with
  | EmptyString => EmptyString
  | String a EmptyString =>
      let n := (N_of_ascii a * 16)%N in
      String (char_of (n / 64)) (String (char_of (n mod 64)) (String pad (String pad EmptyString)))
  | String a (String b EmptyString) =>
      let n := ((N_of_ascii a * 256 + N_of_ascii b) * 4)%N in
      String (char_of (n / 4096)) (String (char_of ((n / 64) mod 64))
        (String (char_of (n mod 64)) (String pad EmptyString)))
  | String a (String b (String c rest)) =>
      let n := (N_of_ascii a * 65536 + N_of_ascii b * 256 + N_of_ascii c)%N in
      String (char_of (n / 262144)) (String (char_of ((n / 4096) mod 64))
        (String (char_of ((n / 64) mod 64)) (String (char_of (n mod 64)) (encode rest))))
  end.

Fixpoint decode (s : string) : option string :=
  match s with
  | EmptyString => Some EmptyString
  | String c0 (String c1 (String c2 (String c3 rest))) =>
      i0 ← index_of c0;
      i1 ← index_of c1;
      if bool_decide (c2 = pad) then
        if bool_decide (c3 = pad) && bool_decide (rest = EmptyString)
        then Some (String (ascii_of_N ((i0 * 64 + i1) / 16)) EmptyString)
        else None
      else
        i2 ← index_of c2;
        if bool_decide (c3 = pad) then
          if bool_decide (rest = EmptyString)
          then
            let n := (((i0 * 64 + i1) * 64 + i2) / 4)%N in
            Some (String (ascii_of_N (n / 256)) (String (ascii_of_N (n mod 256)) EmptyString))
          else None
        else
          i3 ← index_of c3;
          tail ← decode rest;
          let n := (((i0 * 64 + i1) * 64 + i2) * 64 + i3)%N in
          Some (String (ascii_of_N (n / 65536))
                  (String (ascii_of_N ((n / 256) mod 256))
                     (String (ascii_of_N (n mod 256)) tail)))
  | _ => None
  end.

End Base64.

(** ** Reading an SVG document back *)

Fixpoint strip_prefix (pat s : string) {struct s} : option string :=
  match pat with
  | EmptyString => Some s
  | String c pat' =>
      match s with
      | String d s' => if Ascii.eqb c d then strip_prefix pat' s' else None
      | EmptyString => None
      end
  end.

(** The text that follows the first occurrence of [pat] in [s]. *)
Fixpoint after (pat s : string) : option string :=
  match strip_prefix pat s with
  | Some rest => Some rest
  | None =>
      match s with
      | EmptyString => None
      | String _ s' => after pat s'
      end
  end.

(** The text of [s] up to the first [stop]. *)
Fixpoint until (stop : ascii) (s : string) : string :=
  match s with
  | EmptyString => EmptyString
  | String c s' => if Ascii.eqb c stop then EmptyString else String c (until stop s')
  end.

(** The value of the first attribute [name='...'] of a document. *)
Definition attribute (name doc : string) : option string :=
  until "'" <$> after (" " +:+ name +:+ "='") doc.

Definition int_of_str (s : string) : option Z := Z.of_int <$> NilZero.int_of_string s.

Fixpoint all_chars (P : ascii -> bool) (s : string) : bool :=
  match s with
  | EmptyString => true
  | String c s' => P c && all_chars P s'
  end.

Definition numeric (c : ascii) : bool :=
  let n := N_of_ascii c in ((48 <=? n)%N && (n <=? 57)%N) || (n =? 45)%N.

Definition base64_char (c : ascii) : bool :=
  bool_decide (is_Some (Base64.index_of c)) || Ascii.eqb c Base64.pad.


(** ** The script *)

(** The parsed command line: [args.source] (resolved) and [args.radius]. *)
Record Namespace : Type := { source : string; radius : float }.

Section Script.
Context `{Pillow}.

(** [ROOT = Path(__file__).resolve().parents[1]] *)
Variable ROOT : string.

(** [ROOT / rel] *)
Definition under_root (rel : string) : string := ROOT +:+ "/" +:+ rel.

(** [path.parent.mkdir(parents=True, exist_ok=True)]: the disk of this
    model maps paths to contents and keeps no directories. *)
Definition ensure_parent (path : string) : M unit := ret tt.

Definition save_png (img : ref) (dest : string) : M unit :=
  ensure_parent dest ;;;
  Image_save img dest ;;;
  print ("png -> " +:+ dest).

Definition save_ico (base : ref) (dest : string) (sizes : list Z) : M unit :=
  ensure_parent dest ;;;
  imgs <- list_comp sizes (λ s, Image_resize base (s, s) LANCZOS) ;;
  largest <- py_last imgs ;;
  Image_save_ico largest dest ((λ s, (s, s)) <$> sizes) ;;;
  print ("ico -> " +:+ dest).

Definition default_ico_sizes : list Z := [16; 32; 48; 64].

(** The document [save_svg_from_png] writes for a [w] x [h] image whose
    PNG bytes encode to [b64]. *)
Definition svg_text (w h : Z) (b64 : string) : string :=
  "<svg xmlns='http://www.w3.org/2000/svg' width='" +:+ str_int w +:+
  "' height='" +:+ str_int h +:+
  "' viewBox='0 0 " +:+ str_int w +:+ " " +:+ str_int h +:+ "'>" +:+
  "<image href='data:image/png;base64," +:+ b64 +:+
  "' width='" +:+ str_int w +:+ "' height='" +:+ str_int h +:+ "'/>" +:+
  "<style>@media (prefers-color-scheme: light){:root{filter:none;}}@media (prefers-color-scheme: dark){:root{filter:none;}}</style>" +:+
  "</svg>".

Definition save_svg_from_png (img : ref) (dest : string) : M unit :=
  ensure_parent dest ;;;
  im <- load_rgba img ;;
  let buf := png_encode im in
  let b64 := Base64.encode buf in
  let svg := svg_text (width im) (height im) b64 in
  write_file dest svg ;;;
  print ("svg -> " +:+ dest).

Definition rounded (img : ref) (radius_frac : float) : M ref :=
  im <- load_rgba img ;;
  let '(w, h) := size im in
  x <- int_times_float (Z.min w h) radius_frac ;;
  r <- py_int x ;;
  mask <- Image_new_L (w, h) 0 ;;
  ImageDraw_rounded_rectangle mask (0, 0, w, h) r 255 ;;;
  out <- Image_new_RGBA (size im) transparent ;;
  Image_paste out img (0, 0) mask ;;;
  ret out.

Definition padded (img : ref) (canvas_size : Z) (scale : float) : M ref :=
  canvas <- Image_new_RGBA (canvas_size, canvas_size) transparent ;;
  x <- int_times_float canvas_size scale ;;
  inner <- py_int x ;;
  resized <- Image_resize img (inner, inner) LANCZOS ;;
  let offset := ((canvas_size - inner) / 2, (canvas_size - inner) / 2) in
  Image_paste canvas resized offset resized ;;;
  ret canvas.

(** [2 / 3] *)
Definition two_thirds : float := PyFloat.div (PyFloat.of_int 2) (PyFloat.of_int 3).

Definition tasktrove_icon_copies : list string :=
  [ under_root "apps/import.pro/public/tasktrove-icon.svg";
    under_root "apps/docs.pro/docs/public/tasktrove-icon.svg" ].

Definition icon0_targets : list string :=
  [ under_root "apps/web/app/icon0.svg";
    under_root "apps/web.pro/app/icon0.svg";
    under_root "apps/mobile.pro/app/icon0.svg" ].

Definition icon_rounded_targets : list string :=
  [ under_root "apps/web/app/icon-rounded.svg";
    under_root "apps/web.pro/app/icon-rounded.svg";
    under_root "apps/mobile.pro/app/icon-rounded.svg";
    under_root "apps/web/public/icon-rounded.svg";
    under_root "apps/web.pro/public/icon-rounded.svg";
    under_root "apps/mobile.pro/public/icon-rounded.svg" ].

Definition png_sizes : list (string * Z) :=
  [ (under_root "apps/web/app/icon1.png", 96);
    (under_root "apps/mobile.pro/app/icon1.png", 96);
    (under_root "apps/mobile.pro/app/icon.png", 96);
    (under_root "apps/web/app/apple-icon.png", 180);
    (under_root "apps/mobile.pro/app/apple-icon.png", 180) ].

Definition favicon_targets : list string :=
  [ under_root "apps/web/app/favicon.ico";
    under_root "apps/import.pro/app/favicon.ico";
    under_root "apps/mobile.pro/app/favicon.ico" ].

Definition classic : list (string * Z) :=
  [ ("mipmap-mdpi", 48); ("mipmap-hdpi", 72); ("mipmap-xhdpi", 96);
    ("mipmap-xxhdpi", 144); ("mipmap-xxxhdpi", 192) ].

Definition foreground : list (string * Z) :=
  [ ("mipmap-mdpi", 108); ("mipmap-hdpi", 162); ("mipmap-xhdpi", 216);
    ("mipmap-xxhdpi", 324); ("mipmap-xxxhdpi", 432) ].

Definition res_root : string := under_root "apps/mobile.pro/android/app/src/main/res".

Definition newline : string := String (ascii_of_N 10) EmptyString.
Definition dq : string := String (ascii_of_N 34) EmptyString.

Definition fg_xml_content : string :=
  "<bitmap xmlns:android=" +:+ dq +:+ "http://schemas.android.com/apk/res/android" +:+ dq +:+ newline +:+
  "    android:src=" +:+ dq +:+ "@mipmap/ic_launcher_foreground" +:+ dq +:+ newline +:+
  "    android:gravity=" +:+ dq +:+ "center" +:+ dq +:+ " />".

Definition bg_xml_content : string :=
  "<?xml version=" +:+ dq +:+ "1.0" +:+ dq +:+ " encoding=" +:+ dq +:+ "utf-8" +:+ dq +:+ "?>" +:+ newline +:+
  "<vector xmlns:android=" +:+ dq +:+ "http://schemas.android.com/apk/res/android" +:+ dq +:+ newline +:+
  "    android:width=" +:+ dq +:+ "108dp" +:+ dq +:+ newline +:+
  "    android:height=" +:+ dq +:+ "108dp" +:+ dq +:+ newline +:+
  "    android:viewportHeight=" +:+ dq +:+ "108" +:+ dq +:+ newline +:+
  "    android:viewportWidth=" +:+ dq +:+ "108" +:+ dq +:+ ">" +:+ newline +:+
  "    <path android:fillColor=" +:+ dq +:+ "#FFFFFFFF" +:+ dq +:+
  " android:pathData=" +:+ dq +:+ "M0,0h108v108h-108z" +:+ dq +:+ " />" +:+ newline +:+
  "</vector>".

(** Step 8 of [main]: the notification small icon, built in line. *)
Definition notification_icon (base : ref) : M ref :=
  let notif_canvas := 96 in
  let notif_inner := 96 in
  notif <- Image_new_RGBA (notif_canvas, notif_canvas) transparent ;;
  glyph <- Image_resize base (notif_inner, notif_inner) LANCZOS ;;
  let off := ((notif_canvas - notif_inner) / 2, (notif_canvas - notif_inner) / 2) in
  Image_paste notif glyph off glyph ;;;
  ret notif.

Definition main (args : Namespace) : M unit :=
  let src := source args in
  found <- path_exists src ;;
  if negb found then raise (SystemExit ("Source not found: " +:+ src)) else
  base <- Image_open_RGBA src ;;
  rounded_img <- rounded base (radius args) ;;
  (* 1) Branding sources *)
  save_png base (under_root "packages/branding/icons/tasktrove-icon.png") ;;;
  save_svg_from_png base (under_root "packages/branding/icons/tasktrove-icon.svg") ;;;
  (* 2) Public tasktrove-icon copies *)
  for_each tasktrove_icon_copies (λ dest, save_svg_from_png base dest) ;;;
  (* 3) App icon0 (square) and icon-rounded *)
  for_each icon0_targets (λ dest, save_svg_from_png base dest) ;;;
  for_each icon_rounded_targets (λ dest, save_svg_from_png rounded_img dest) ;;;
  (* 4) PNG sizes (96 avatar, 180 apple) *)
  for_each png_sizes (λ '(dest, sz),
    img <- Image_resize base (sz, sz) LANCZOS ;; save_png img dest) ;;;
  (* 5) Favicons (ico) *)
  for_each favicon_targets (λ dest, save_ico base dest default_ico_sizes) ;;;
  (* 6) Android launcher bitmaps (padded to 2/3 canvas) *)
  for_each classic (λ '(folder, sz),
    icon <- padded base sz two_thirds ;;
    for_each ["ic_launcher.png"; "ic_launcher_round.png"] (λ name,
      save_png icon (res_root +:+ "/" +:+ folder +:+ "/" +:+ name))) ;;;
  for_each foreground (λ '(folder, sz),
    icon <- padded base sz two_thirds ;;
    save_png icon (res_root +:+ "/" +:+ folder +:+ "/" +:+ "ic_launcher_foreground.png")) ;;;
  (* 7) Adaptive icon XML helpers *)
  let fg_xml := res_root +:+ "/" +:+ "drawable-v24/ic_launcher_foreground.xml" in
  ensure_parent fg_xml ;;;
  write_file fg_xml fg_xml_content ;;;
  print ("xml -> " +:+ fg_xml) ;;;
  let bg_xml := res_root +:+ "/" +:+ "drawable/ic_launcher_background.xml" in
  ensure_parent bg_xml ;;;
  write_file bg_xml bg_xml_content ;;;
  print ("xml -> " +:+ bg_xml) ;;;
  (* 8) Notification small icon *)
  notif <- notification_icon base ;;
  save_png notif (res_root +:+ "/" +:+ "drawable/ic_stat_tasktrove.png") ;;;
  print "done".

End Script.

(** ** What the script computes

    Closed forms of the values the helpers return and of the files a run
    writes; the properties below relate them to the programs above. *)

(** [int(n * f)]: the side of the square [padded] pastes, and the corner
    radius [rounded] draws. *)
Definition int_product (canvas_size : Z) (scale : float) : option Z :=
  PyFloat.trunc (PyFloat.mul (PyFloat.of_int canvas_size) scale).

(** One artifact written and reported. *)
Definition emit (kind path content : string) (w : World) : World :=
  mkWorld (heap w) (<[path := content]> (disk w)) (stdout w ++ [kind +:+ " -> " +:+ path]).

(** New image objects allocated. *)
Definition grow (new : list obj) (w : World) : World :=
  mkWorld (heap w ++ new) (disk w) (stdout w).

(** The disk after a list of artifacts is written, in order. *)
Definition write_all (arts : list (string * string * string))
    (d : gmap string string) : gmap string string :=
  foldl (λ d '(_, path, content), <[path := content]> d) d arts.

(** The lines a list of artifacts prints, in order. *)
Definition progress (arts : list (string * string * string)) : list string :=
  (λ '(kind, path, _), kind +:+ " -> " +:+ path) <$> arts.

(** The content the last write to [path] left, if [path] was written. *)
Definition final_write (path : string) (arts : list (string * string * string)) : option string :=
  foldl (λ acc '(_, q, c), if String.eqb q path then Some c else acc) None arts.

(** The first option when it holds a value, the second otherwise. *)
Definition or_else {A} (x y : option A) : option A :=
  match x with Some _ => x | None => y end.

(** Artifacts listed relative to a root, and the same under the root. *)
Definition rooted (root : string) (arts : list (string * string * string)) :
    list (string * string * string) :=
  (λ '(k, q, c), (k, root +:+ q, c)) <$> arts.

Section Results.
Context `{Pillow}.
Variable ROOT : string.

(** The canvas [padded] returns, given the resized image it pastes. *)
Definition padded_image (glyph : Img rgba) (canvas_size inner : Z) : Img rgba :=
  pasted (tabulate canvas_size canvas_size (λ _ _, transparent)) glyph
         (mask_value (ORGBA glyph))
         ((canvas_size - inner) / 2, (canvas_size - inner) / 2).

(** The mask [rounded] draws: 255 where the rounded rectangle is inked. *)
Definition rounded_mask (w h r : Z) : Img Z :=
  tabulate w h (λ x y, if rr_inked (0, 0, w, h) r x y then 255
                       else px (tabulate w h (λ _ _, 0)) x y).

(** The image [rounded] returns for corner radius [r]. *)
Definition rounded_image (im : Img rgba) (r : Z) : Img rgba :=
  pasted (tabulate (width im) (height im) (λ _ _, transparent)) im
         (mask_value (OL (rounded_mask (width im) (height im) r))) (0, 0).


(** What [im.resize((s, s), LANCZOS)] returns for a side [s >= 1] the
    machine has room for. *)
Definition lanczos_square (im : Img rgba) (s : Z) : Img rgba :=
  if size_eqb (size im) (s, s) then im else resample LANCZOS im s s.

(** The document [save_svg_from_png] writes for an image. *)
Definition svg_of (im : Img rgba) : string :=
  svg_text (width im) (height im) (Base64.encode (png_encode im)).

(** The frames of the favicon bundle: the 64 x 64 resize of the base, and
    the smaller sizes resampled from that 64 x 64 image. *)
Definition favicon_frames (im : Img rgba) : list (Img rgba) :=
  let largest := lanczos_square im 64 in
  [ resample LANCZOS largest 16 16;
    resample LANCZOS largest 32 32;
    resample LANCZOS largest 48 48;
    largest ].

(** The launcher bitmap for a canvas size and its inner square. *)
Definition launcher_icon (base : Img rgba) (sz inner : Z) : Img rgba :=
  padded_image (lanczos_square base inner) sz inner.

(** A file of the Android resource tree. *)
Definition launcher_path (folder name : string) : string :=
  res_root ROOT +:+ "/" +:+ folder +:+ "/" +:+ name.

(** Every artifact of a run, in the order written: kind, destination and
    content, as a function of the decoded source and the corner radius. *)
Definition artifacts (base : Img rgba) (r : Z) : list (string * string * string) :=
  [ ("png", under_root ROOT "packages/branding/icons/tasktrove-icon.png", png_encode base);
    ("svg", under_root ROOT "packages/branding/icons/tasktrove-icon.svg", svg_of base) ]
  ++ ((λ dest, ("svg", dest, svg_of base)) <$> tasktrove_icon_copies ROOT)
  ++ ((λ dest, ("svg", dest, svg_of base)) <$> icon0_targets ROOT)
  ++ ((λ dest, ("svg", dest, svg_of (rounded_image base r))) <$> icon_rounded_targets ROOT)
  ++ ((λ '(dest, sz), ("png", dest, png_encode (lanczos_square base sz))) <$> png_sizes ROOT)
  ++ ((λ dest, ("ico", dest, ico_container (favicon_frames base))) <$> favicon_targets ROOT)
  ++ (classic ≫= λ '(folder, sz),
        (λ name, ("png", launcher_path folder name,
                  png_encode (launcher_icon base sz (sz * 2 / 3))))
          <$> ["ic_launcher.png"; "ic_launcher_round.png"])
  ++ ((λ '(folder, sz),
        ("png", launcher_path folder "ic_launcher_foreground.png",
         png_encode (launcher_icon base sz (sz * 2 / 3)))) <$> foreground)
  ++ [ ("xml", res_root ROOT +:+ "/" +:+ "drawable-v24/ic_launcher_foreground.xml",
        fg_xml_content);
       ("xml", res_root ROOT +:+ "/" +:+ "drawable/ic_launcher_background.xml",
        bg_xml_content);
       ("png", res_root ROOT +:+ "/" +:+ "drawable/ic_stat_tasktrove.png",
        png_encode (launcher_icon base 96 96)) ].

(** A source the run can use: the file exists, decodes to [im], whose
    dimensions fit in a C [int]. *)
Definition usable_source (args : Namespace) (im : Img rgba) (w : World) : Prop :=
  (∃ content, disk w !! source args = Some content ∧ image_open content = Some im) ∧
  0 <= width im <= INT_MAX ∧ 0 <= height im <= INT_MAX.

End Results.

(** ** Closed forms for any input

    What the helpers produce outside the inputs [main] gives them. *)

Section MoreResults.
Context `{Pillow}.

(** The frames of the bundle [save_ico] writes for any list of sizes, [L]
    being the last of them and [largest] the base resized to [L] x [L]:
    the distinct sizes in increasing order, without those above [L] or
    above 256, each resampled from [largest]. *)
Definition ico_bundle (largest : Img rgba) (L : Z) (sizes : list Z) : list (Img rgba) :=
  (λ sz : Z * Z, if sz.1 =? L then largest else resample LANCZOS largest sz.1 sz.2)
    <$> filter (λ sz : Z * Z, sz.1 <= L ∧ sz.1 <= 256) (sorted_set ((λ s, (s, s)) <$> sizes)).

End MoreResults.

(** The exception [int(n * radius_frac)] raises for a radius fraction that
    is not finite: [n * nan] and [0 * inf] are NaN, [n * inf] is infinite. *)
Definition rounded_failure (n : Z) (radius_frac : float) : exn :=
  match radius_frac with
  | S754_infinity _ =>
      if n =? 0 then ValueError "cannot convert float NaN to integer"
      else OverflowError "cannot convert float infinity to integer"
  | _ => ValueError "cannot convert float NaN to integer"
  end.

(** The destination of an artifact. *)
Definition artifact_path (a : string * string * string) : string := a.1.2.

Section Destinations.
Variable ROOT : string.

(** The destinations [main] writes, in the order it writes them. *)
Definition destinations : list string :=
  [ under_root ROOT "packages/branding/icons/tasktrove-icon.png";
    under_root ROOT "packages/branding/icons/tasktrove-icon.svg" ]
  ++ tasktrove_icon_copies ROOT
  ++ icon0_targets ROOT
  ++ icon_rounded_targets ROOT
  ++ (fst <$> png_sizes ROOT)
  ++ favicon_targets ROOT
  ++ (classic ≫= λ '(folder, _),
        (λ name, res_root ROOT +:+ "/" +:+ folder +:+ "/" +:+ name)
          <$> ["ic_launcher.png"; "ic_launcher_round.png"])
  ++ ((λ '(folder, _), res_root ROOT +:+ "/" +:+ folder +:+ "/" +:+ "ic_launcher_foreground.png")
        <$> foreground)
  ++ [ res_root ROOT +:+ "/" +:+ "drawable-v24/ic_launcher_foreground.xml";
       res_root ROOT +:+ "/" +:+ "drawable/ic_launcher_background.xml";
       res_root ROOT +:+ "/" +:+ "drawable/ic_stat_tasktrove.png" ].

End Destinations.

(** ** Specifications of programs *)

(** From every store satisfying [P], the program returns and establishes [Q]. *)
Definition returns {A} (P : World -> Prop) (m : M A) (Q : A -> World -> Prop) : Prop :=
  ∀ w, P w -> ∃ a w', m w = (Ret a, w') ∧ Q a w'.

(** The store at a stage of [main]: the source [im] and its rounded version
    [rim] are where they were loaded, the store has only grown since [w0],
    and the artifacts [written] so far are on disk and reported. *)
Definition at_stage (w0 : World) (base rounded_img : ref) (im rim : Img rgba)
    (written : list (string * string * string)) (w : World) : Prop :=
  heap w !! base = Some (ORGBA im) ∧
  heap w !! rounded_img = Some (ORGBA rim) ∧
  (∃ new, heap w = heap w0 ++ new) ∧
  disk w = write_all written (disk w0) ∧
  stdout w = stdout w0 ++ progress written.

(** ** Vocabulary for binary64 rounding *)

(** A shifted mantissa that lost no bit: round and sticky bits are clear. *)
Definition exact (mrs : shr_record) : Prop := shr_r mrs = false /\ shr_s mrs = false.

(** [T] bounds the value [m * 2^e] from above, for [e <= 0]. *)
Definition below (m e T : Z) : Prop := e <= 0 /\ 0 <= m <= T * 2 ^ (- e).

(** ** A small executable instance of the Pillow interface

    It runs the model on concrete inputs.  Nearest-neighbour sampling (the
    source pixel under the centre of each target pixel) stands in for every
    filter, the codecs write the pixels out in text, and the
    decoder reads nothing: every theorem below holds for any instance. *)

Module Toy.

Definition nearest (im : Img rgba) (w h : Z) : Img rgba :=
  tabulate w h (λ x y, px im ((2 * x + 1) * width im / (2 * w))
                          ((2 * y + 1) * height im / (2 * h))).

Definition mix (m a b : Z) : Z := (a * (255 - m) + b * m + 127) / 255.

Definition blend (m : Z) (out src : rgba) : rgba :=
  if m =? 0 then out
  else if m =? 255 then src
  else RGBA (mix m (red out) (red src)) (mix m (green out) (green src))
            (mix m (blue out) (blue src)) (mix m (alpha out) (alpha src)).

(** Inside the box: everything when the radius is 0; otherwise the rows and
    the columns between the corner boxes and, in a corner box, the disc of
    diameter [2 r + 1] around the centre of the corner circle. *)
Definition rr_inked (box : Z * Z * Z * Z) (r x y : Z) : bool :=
  let '(x0, y0, x1, y1) := box in
  let cx := if x <=? x0 + r then x0 + r else x1 - r in
  let cy := if y <=? y0 + r then y0 + r else y1 - r in
  (x0 <=? x) && (x <=? x1) && (y0 <=? y) && (y <=? y1) &&
  ((r =? 0)
   || ((y0 + r <? y) && (y <? y1 - r))
   || ((x0 + r <? x) && (x <? x1 - r))
   || (4 * ((x - cx) * (x - cx) + (y - cy) * (y - cy)) <=? 4 * r * r + 4 * r - 1)).

(** A machine with room for images of up to [2 ^ 26] pixels. *)
Definition fits (w h : Z) : bool :=
  (0 <=? w) && (0 <=? h) && (w <=? 536870910) && (w * h <=? 67108864).

(** No format other than PNG is registered. *)
Definition save_as (ext : string) (im : Img rgba) : option (string * option exn) := None.

Definition channel (c : Z) : string := str_int c +:+ ",".

Definition pixel_text (p : rgba) : string :=
  channel (red p) +:+ channel (green p) +:+ channel (blue p) +:+ channel (alpha p).

Definition png_encode (im : Img rgba) : string :=
  "PNG " +:+ str_int (width im) +:+ "x" +:+ str_int (height im) +:+ ":" +:+
  String.concat "" (pixel_text <$> concat (rows im)).

Definition ico_container (frames : list (Img rgba)) : string :=
  "ICO " +:+ str_int (Z.of_nat (length frames)) +:+ ":" +:+
  String.concat ";" (png_encode <$> frames).

(** An opaque red 2 x 2 image. *)
Definition red_square : Img rgba := tabulate 2 2 (λ _ _, RGBA 255 0 0 255).

(** An empty file is no image; every other file decodes to [red_square]. *)
Definition image_open (content : string) : option (Img rgba) :=
  match content with
  | EmptyString => None
  | _ => Some red_square
  end.

Lemma toy_blend_0 (out src : rgba) : blend 0 out src = out.
Proof. done. Qed.

Lemma toy_blend_255 (out src : rgba) : blend 255 out src = src.
Proof. done. Qed.

Lemma nearest_size (f : Resampling) (im : Img rgba) (w h : Z) :
  1 <= w -> 1 <= h -> size (nearest im w h) = (w, h).
Proof. done. Qed.

Lemma toy_fits_small (w h : Z) :
  0 <= w <= 512 -> 0 <= h <= 512 -> fits w h = true.
Proof.
  intros Hw Hh. unfold fits.
  destruct (Z.leb_spec 0 w); [|lia]. destruct (Z.leb_spec 0 h); [|lia].
  destruct (Z.leb_spec w 536870910); [|lia].
  destruct (Z.leb_spec (w * h) 67108864); [done|nia].
Qed.

Lemma toy_fits_limit (w h : Z) : fits w h = true -> w <= 536870910.
Proof.
  unfold fits. intros Hf. destruct (Z.leb_spec w 536870910); [done|].
  by rewrite andb_false_r in Hf.
Qed.

Lemma toy_rr_inked_sides (x0 y0 x1 y1 r x y : Z) :
  0 <= r -> x0 <= x <= x1 -> y0 + r < y < y1 - r ->
  x <= x0 + r ∨ x1 - r <= x ->
  rr_inked (x0, y0, x1, y1) r x y = true.
Proof.
  intros Hr Hx Hy _. unfold rr_inked.
  destruct (Z.leb_spec x0 x); [|lia]. destruct (Z.leb_spec x x1); [|lia].
  destruct (Z.leb_spec y0 y); [|lia]. destruct (Z.leb_spec y y1); [|lia].
  destruct (Z.ltb_spec (y0 + r) y); [|lia]. destruct (Z.ltb_spec y (y1 - r)); [|lia].
  simpl. by rewrite orb_true_r.
Qed.

Lemma toy_rr_inked_middle (x0 y0 x1 y1 r x y : Z) :
  0 <= r -> x0 + r + 1 < x1 - r - 1 ->
  x0 + r < x < x1 - r -> y0 <= y <= y1 ->
  rr_inked (x0, y0, x1, y1) r x y = true.
Proof.
  intros Hr _ Hx Hy. unfold rr_inked.
  destruct (Z.leb_spec x0 x); [|lia]. destruct (Z.leb_spec x x1); [|lia].
  destruct (Z.leb_spec y0 y); [|lia]. destruct (Z.leb_spec y y1); [|lia].
  destruct (Z.ltb_spec (x0 + r) x); [|lia]. destruct (Z.ltb_spec x (x1 - r)); [|lia].
  simpl. by rewrite !orb_true_r.
Qed.

Lemma toy_rr_inked_corner (x0 y0 x1 y1 r : Z) :
  2 <= r -> 2 * r <= x1 - x0 -> 2 * r <= y1 - y0 ->
  rr_inked (x0, y0, x1, y1) r x0 y0 = false.
Proof.
  intros Hr Hx Hy. unfold rr_inked.
  destruct (Z.leb_spec x0 (x0 + r)); [|lia]. destruct (Z.leb_spec y0 (y0 + r)); [|lia].
  destruct (Z.eqb_spec r 0); [lia|].
  destruct (Z.ltb_spec (y0 + r) y0); [lia|]. destruct (Z.ltb_spec (x0 + r) x0); [lia|].
  destruct (Z.leb_spec (4 * ((x0 - (x0 + r)) * (x0 - (x0 + r)) + (y0 - (y0 + r)) * (y0 - (y0 + r))))
                       (4 * r * r + 4 * r - 1)); [nia|].
  simpl. by rewrite andb_false_r.
Qed.

Definition pillow : Pillow :=
  Build_Pillow fits toy_fits_small toy_fits_limit
               (λ _, nearest) nearest_size blend toy_blend_0 toy_blend_255
               rr_inked toy_rr_inked_sides toy_rr_inked_middle toy_rr_inked_corner
               png_encode ico_container "ICO" save_as image_open.

(** A store holding [red_square] as object 0, an empty disk. *)
Definition store : World := mkWorld [ORGBA red_square] ∅ [].

(** A 128 x 128 image whose pixel at [(x, y)] records its coordinates. *)
Definition gradient : Img rgba := tabulate 128 128 (λ x y, RGBA x y 0 255).

(** The same on 10 x 10 pixels, and a store holding it as object 0. *)
Definition tile : Img rgba := tabulate 10 10 (λ x y, RGBA x y 0 255).
Definition tile_store : World := mkWorld [ORGBA tile] ∅ [].

(** The default radius fraction, [0.2]. *)
Definition fifth : float := PyFloat.div (PyFloat.of_int 2) (PyFloat.of_int 10).
Definition quarter : float := PyFloat.div (PyFloat.of_int 1) (PyFloat.of_int 4).

Definition args : Namespace := {| source := "/tmp/icon.png"; radius := fifth |}.

(** A machine whose disk holds only the source file. *)
Definition machine : World := mkWorld [] {[ "/tmp/icon.png" := "png bytes" ]} [].

(** The same machine with output already on the terminal. *)
Definition busy_machine : World :=
  mkWorld [] {[ "/tmp/icon.png" := "png bytes" ]} ["earlier output"].

(** A machine without the source file. *)
Definition bare_machine : World := mkWorld [] ∅ [].

(** A machine whose source file is empty. *)
Definition broken_machine : World := mkWorld [] {[ "/tmp/icon.png" := "" ]} [].

(** The command line [--radius nan]. *)
Definition nan_args : Namespace := {| source := "/tmp/icon.png"; radius := S754_nan |}.

(** The scale [2.0]. *)
Definition double : float := PyFloat.of_int 2.

End Toy.

(** * Properties *)

(** ** Rounding of binary64 products

    The product of an integer [0 <= T < 2^53] and a fraction in (0, 1] is
    rounded to nearest-even by [SFmul]; the rounded value never exceeds [T],
    because [T] itself is representable at the precision the rounding uses.
    The lemmas follow the two shifts of [binary_round_aux]. *)

Lemma digits2_pos_bounds (m : positive) :
  2 ^ (Zpos (digits2_pos m) - 1) <= Zpos m < 2 ^ Zpos (digits2_pos m).
Proof.
  induction m as [m IH|m IH|]; simpl digits2_pos; rewrite ?Pos2Z.inj_succ.
  - replace (Z.succ (Z.pos (digits2_pos m)) - 1) with (Z.succ (Z.pos (digits2_pos m) - 1)) by lia.
    rewrite !Z.pow_succ_r by lia. lia.
  - replace (Z.succ (Z.pos (digits2_pos m)) - 1) with (Z.succ (Z.pos (digits2_pos m) - 1)) by lia.
    rewrite !Z.pow_succ_r by lia. lia.
  - simpl. lia.
Qed.

Lemma digits2_pos_le (m : positive) (j : Z) :
  Zpos m < 2 ^ j -> Zpos (digits2_pos m) <= j.
Proof.
  intros Hm. destruct (digits2_pos_bounds m) as [Hlo _].
  destruct (Z_lt_le_dec j (Zpos (digits2_pos m))) as [Hlt|]; [|done].
  exfalso. assert (2 ^ j <= 2 ^ (Zpos (digits2_pos m) - 1)); [|lia].
  destruct (Z_lt_le_dec j 0) as [Hj|Hj].
  - rewrite (Z.pow_neg_r 2 j) by done. apply Z.pow_nonneg; lia.
  - apply Z.pow_le_mono_r; lia.
Qed.

Lemma shr_1_spec (mrs : shr_record) :
  0 <= shr_m mrs ->
  shr_m (shr_1 mrs) = shr_m mrs / 2 /\
  (shr_m mrs mod 2 = 0 -> exact mrs -> exact (shr_1 mrs)).
Proof.
  destruct mrs as [m r s]; simpl. intros Hm. unfold exact; simpl.
  destruct m as [|[p|p|]|p]; simpl; try lia.
  - split; [done|]. by intros _ [-> ->].
  - rewrite Pos2Z.inj_xI. split. { apply Z.div_unique with 1; lia. }
    intros Hmod. exfalso.
    rewrite Z.add_comm, Z.mul_comm, Z.mod_add in Hmod by lia. done.
  - rewrite Pos2Z.inj_xO. split. { apply Z.div_unique with 0; lia. }
    by intros _ [-> ->].
  - split; [done|]. intros Hmod. done.
Qed.

Lemma shr_m_nonneg_1 (mrs : shr_record) : 0 <= shr_m mrs -> 0 <= shr_m (shr_1 mrs).
Proof. intros Hm. destruct (shr_1_spec mrs Hm) as [-> _]. by apply Z.div_pos. Qed.

Lemma shr_iter_spec (p : positive) (mrs : shr_record) :
  0 <= shr_m mrs ->
  shr_m (SpecFloat.iter_pos shr_1 p mrs) = shr_m mrs / 2 ^ Zpos p /\
  (shr_m mrs mod 2 ^ Zpos p = 0 -> exact mrs -> exact (SpecFloat.iter_pos shr_1 p mrs)).
Proof.
  revert mrs. induction p as [p IH|p IH|]; intros mrs Hm.
  - simpl SpecFloat.iter_pos.
    destruct (shr_1_spec mrs Hm) as [E1 X1].
    assert (H1 : 0 <= shr_m (shr_1 mrs)) by by apply shr_m_nonneg_1.
    destruct (IH _ H1) as [E2 X2].
    assert (H2 : 0 <= shr_m (SpecFloat.iter_pos shr_1 p (shr_1 mrs))).
    { rewrite E2. apply Z.div_pos; [done|]. apply Z.pow_pos_nonneg; lia. }
    destruct (IH _ H2) as [E3 X3].
    assert (Hp : 0 < 2 ^ Zpos p) by (apply Z.pow_pos_nonneg; lia).
    assert (Hpow : 2 ^ Zpos p~1 = 2 * (2 ^ Zpos p * 2 ^ Zpos p)).
    { rewrite Pos2Z.inj_xI, Z.add_comm, Z.pow_add_r, Z.pow_1_r by lia.
      rewrite (Z.mul_comm 2 (Zpos p)), Z.pow_mul_r, Z.pow_2_r by lia. done. }
    split.
    + rewrite E3, E2, E1, Hpow, !Z.div_div by lia. done.
    + intros Hmod Hx. rewrite Hpow in Hmod.
      apply Z.mod_divide in Hmod; [|lia]. destruct Hmod as [q Hq].
      apply X3.
      * rewrite E2, E1, Hq.
        replace (q * (2 * (2 ^ Z.pos p * 2 ^ Z.pos p))) with ((q * 2 ^ Z.pos p * 2 ^ Z.pos p) * 2) by lia.
        rewrite Z.div_mul by lia. rewrite Z.div_mul by lia. apply Z.mod_mul. lia.
      * apply X2.
        -- rewrite E1, Hq.
           replace (q * (2 * (2 ^ Z.pos p * 2 ^ Z.pos p))) with ((q * 2 ^ Z.pos p * 2 ^ Z.pos p) * 2) by lia.
           rewrite Z.div_mul by lia. apply Z.mod_mul. lia.
        -- apply X1; [|done]. rewrite Hq.
           replace (q * (2 * (2 ^ Z.pos p * 2 ^ Z.pos p))) with ((q * 2 ^ Z.pos p * 2 ^ Z.pos p) * 2) by lia.
           apply Z.mod_mul. lia.
  - simpl SpecFloat.iter_pos.
    destruct (IH _ Hm) as [E2 X2].
    assert (Hp : 0 < 2 ^ Zpos p) by (apply Z.pow_pos_nonneg; lia).
    assert (H2 : 0 <= shr_m (SpecFloat.iter_pos shr_1 p mrs)).
    { rewrite E2. apply Z.div_pos; [done|]. lia. }
    destruct (IH _ H2) as [E3 X3].
    assert (Hpow : 2 ^ Zpos p~0 = 2 ^ Zpos p * 2 ^ Zpos p).
    { rewrite (Pos2Z.inj_xO p), (Z.mul_comm 2 (Zpos p)), Z.pow_mul_r, Z.pow_2_r by lia. done. }
    split.
    + rewrite E3, E2, Hpow, !Z.div_div by lia. done.
    + intros Hmod Hx. rewrite Hpow in Hmod.
      apply Z.mod_divide in Hmod; [|lia]. destruct Hmod as [q Hq].
      apply X3.
      * rewrite E2, Hq.
        replace (q * (2 ^ Z.pos p * 2 ^ Z.pos p)) with ((q * 2 ^ Z.pos p) * 2 ^ Z.pos p) by lia.
        rewrite Z.div_mul by lia. apply Z.mod_mul. lia.
      * apply X2; [|done]. rewrite Hq.
        replace (q * (2 ^ Z.pos p * 2 ^ Z.pos p)) with ((q * 2 ^ Z.pos p) * 2 ^ Z.pos p) by lia.
        apply Z.mod_mul. lia.
  - simpl SpecFloat.iter_pos. rewrite Z.pow_1_r. by apply shr_1_spec.
Qed.

Lemma fexp_nonpos (m : positive) (e T : Z) :
  T < 2 ^ 53 -> below (Zpos m) e T ->
  fexp PyFloat.prec PyFloat.emax (Zpos (digits2_pos m) + e) <= 0.
Proof.
  intros HT (He & _ & Hm).
  assert (Hd : Zpos (digits2_pos m) <= 53 - e).
  { apply digits2_pos_le. replace (53 - e) with (53 + - e) by lia.
    rewrite Z.pow_add_r by lia.
    assert (0 < 2 ^ (- e)) by (apply Z.pow_pos_nonneg; lia). nia. }
  unfold fexp, SpecFloat.emin, PyFloat.prec, PyFloat.emax. lia.
Qed.

Lemma trunc_finite_below (m : positive) (e T : Z) :
  below (Zpos m) e T ->
  ∃ n, PyFloat.trunc (S754_finite false m e) = Some n ∧ 0 <= n <= T.
Proof.
  intros (He & _ & Hm). unfold PyFloat.trunc.
  destruct e as [|q|q]; [| lia |].
  - eexists; split; [done|]. rewrite Z.shiftl_0_r. change (2 ^ (- 0)) with 1 in Hm. lia.
  - eexists; split; [done|]. rewrite Z.shiftr_div_pow2 by lia.
    assert (0 < 2 ^ Zpos q) by (apply Z.pow_pos_nonneg; lia).
    split; [apply Z.div_pos; lia|].
    apply Z.div_le_upper_bound; [done|]. change (- Z.neg q) with (Z.pos q) in Hm. lia.
Qed.

Lemma shr_below (mr e T : Z) (mrs : shr_record) (e' : Z) :
  T < 2 ^ 53 -> below mr e T ->
  shr_fexp PyFloat.prec PyFloat.emax mr e loc_Exact = (mrs, e') ->
  below (shr_m mrs) e' T /\
  (e' = e /\ shr_m mrs = mr /\ exact mrs \/
   ∃ p, e' = e + Zpos p /\ shr_m mrs = mr / 2 ^ Zpos p /\
        (mr mod 2 ^ Zpos p = 0 -> exact mrs)).
Proof.
  intros HT Hb. unfold shr_fexp, shr. simpl shr_record_of_loc.
  destruct (fexp PyFloat.prec PyFloat.emax (Zdigits2 mr + e) - e) as [|p|p] eqn:En;
    intros [= <- <-]; simpl shr_m; try (split; [done|left; done]).
  assert (Hmr : 0 <= mr) by (destruct Hb; lia).
  destruct (shr_iter_spec p (Build_shr_record mr false false) Hmr) as [E X].
  simpl shr_m in E, X.
  assert (Hg : e + Zpos p <= 0).
  { destruct mr as [|m|m]; [| |lia].
    - simpl Zdigits2 in En. unfold fexp, SpecFloat.emin, PyFloat.prec, PyFloat.emax in En. destruct Hb. lia.
    - pose proof (fexp_nonpos m e T HT Hb). simpl Zdigits2 in En. lia. }
  split.
  - destruct Hb as (He & Hm0 & Hm). split; [done|]. rewrite E.
    assert (Hp : 0 < 2 ^ Zpos p) by (apply Z.pow_pos_nonneg; lia).
    split; [apply Z.div_pos; lia|].
    apply Z.div_le_upper_bound; [done|].
    replace (- e) with (Zpos p + - (e + Zpos p)) in Hm by lia.
    rewrite Z.pow_add_r in Hm by lia. lia.
  - right. exists p. split; [done|]. split; [done|]. intros Hmod. by apply X.
Qed.

Lemma round_nearest_even_below (mr e T : Z) (mrs : shr_record) (p : positive) (m : Z) :
  0 <= m -> e + Zpos p <= 0 -> m <= T * 2 ^ (- e) ->
  shr_m mrs = m / 2 ^ Zpos p ->
  (m mod 2 ^ Zpos p = 0 -> exact mrs) ->
  0 <= round_nearest_even (shr_m mrs) (loc_of_shr_record mrs) <= T * 2 ^ (- (e + Zpos p)).
Proof.
  intros Hm0 He Hm E X.
  assert (Hp : 0 < 2 ^ Zpos p) by (apply Z.pow_pos_nonneg; lia).
  replace (- e) with (Zpos p + - (e + Zpos p)) in Hm by lia.
  rewrite Z.pow_add_r in Hm by lia.
  set (B := T * 2 ^ (- (e + Zpos p))) in *.
  assert (Hq : 0 <= m / 2 ^ Zpos p) by (apply Z.div_pos; lia).
  assert (Hle : m / 2 ^ Zpos p <= B).
  { apply Z.div_le_upper_bound; [done|]. lia. }
  destruct (Z.eq_dec (m mod 2 ^ Zpos p) 0) as [Hmod|Hmod].
  - destruct (X Hmod) as [Hr Hs]. destruct mrs as [m' r s]; simpl in *. subst r s m'.
    simpl. lia.
  - assert (m / 2 ^ Zpos p + 1 <= B).
    { pose proof (Z.div_mod m (2 ^ Zpos p) ltac:(lia)).
      pose proof (Z.mod_pos_bound m (2 ^ Zpos p) Hp). nia. }
    destruct mrs as [m' r s]; simpl in *. subst m'.
    destruct r, s; simpl; try lia; destruct (Z.even _); lia.
Qed.

Lemma binary_round_aux_below (m : positive) (e T : Z) :
  T < 2 ^ 53 -> below (Zpos m) e T ->
  ∃ n, PyFloat.trunc (binary_round_aux PyFloat.prec PyFloat.emax false (Zpos m) e loc_Exact) = Some n ∧ 0 <= n <= T.
Proof.
  intros HT Hb. unfold binary_round_aux.
  destruct (shr_fexp PyFloat.prec PyFloat.emax (Zpos m) e loc_Exact) as [mrs1 e1] eqn:E1.
  destruct (shr_below _ _ _ _ _ HT Hb E1) as [Hb1 Hcase].
  assert (Hb2 : below (round_nearest_even (shr_m mrs1) (loc_of_shr_record mrs1)) e1 T).
  { destruct Hcase as [(-> & Hm & Hr & Hs)|(p & -> & Hm & X)].
    - destruct mrs1 as [m1 r s]; simpl in *. subst. simpl. done.
    - destruct Hb as (He & Hm0 & Hle). destruct Hb1 as (He1 & _).
      split; [done|]. by eapply round_nearest_even_below. }
  destruct (shr_fexp PyFloat.prec PyFloat.emax _ e1 loc_Exact) as [mrs2 e2] eqn:E2.
  destruct (shr_below _ _ _ _ _ HT Hb2 E2) as [Hb3 _].
  destruct (shr_m mrs2) as [|m2|m2] eqn:Em2.
  - exists 0. split; [done|]. destruct Hb as (He & _ & Hle).
    assert (0 < 2 ^ (- e)) by (apply Z.pow_pos_nonneg; lia). nia.
  - destruct (Z.leb_spec e2 (PyFloat.emax - PyFloat.prec)) as [_|Hlt].
    + by apply trunc_finite_below.
    + destruct Hb3 as (? & _). unfold PyFloat.emax, PyFloat.prec in Hlt. lia.
  - destruct Hb3 as (_ & ? & _). lia.
Qed.

(** A mantissa that is already in canonical position is kept as it is. *)
Lemma binary_round_aux_canonical (m : positive) (e : Z) :
  fexp PyFloat.prec PyFloat.emax (Zpos (digits2_pos m) + e) = e ->
  e <= PyFloat.emax - PyFloat.prec ->
  binary_round_aux PyFloat.prec PyFloat.emax false (Zpos m) e loc_Exact = S754_finite false m e.
Proof.
  intros Hc He. unfold binary_round_aux, shr_fexp. simpl Zdigits2.
  rewrite Hc, Z.sub_diag. simpl. rewrite Hc, Z.sub_diag. simpl.
  by destruct (Z.leb_spec e (PyFloat.emax - PyFloat.prec)); [|lia].
Qed.

Lemma digits2_pos_shift (m k : positive) :
  Zpos (digits2_pos (Pos.iter xO m k)) = Zpos (digits2_pos m) + Zpos k.
Proof.
  induction k as [|k IH] using Pos.peano_ind.
  - simpl. lia.
  - rewrite Pos.iter_succ. simpl digits2_pos. rewrite Pos2Z.inj_succ, IH. lia.
Qed.

Lemma Zpos_shift (m k : positive) : Zpos (Pos.iter xO m k) = Zpos m * 2 ^ Zpos k.
Proof.
  induction k as [|k IH] using Pos.peano_ind.
  - simpl. rewrite Z.pow_1_r. lia.
  - rewrite Pos.iter_succ, (Pos2Z.inj_xO (Pos.iter xO m k)), IH, Pos2Z.inj_succ, Z.pow_succ_r by lia. lia.
Qed.

(** Integers below [2^53] convert to floats exactly. *)
Lemma of_int_exact (s : positive) :
  Zpos s < 2 ^ 53 ->
  ∃ m e, PyFloat.of_int (Zpos s) = S754_finite false m e ∧ e <= 0 ∧ Zpos m = Zpos s * 2 ^ (- e).
Proof.
  intros Hs. pose proof (digits2_pos_le s 53 Hs) as Hd.
  pose proof (Pos2Z.is_pos (digits2_pos s)) as Hd0.
  unfold PyFloat.of_int, binary_normalize, binary_round, shl_align.
  rewrite Z.add_0_r.
  assert (Hf : fexp PyFloat.prec PyFloat.emax (Zpos (digits2_pos s)) = Zpos (digits2_pos s) - 53).
  { unfold fexp, SpecFloat.emin, PyFloat.prec, PyFloat.emax. lia. }
  rewrite Hf, Z.sub_0_r.
  destruct (Zpos (digits2_pos s) - 53) as [|k|k] eqn:Ek; [| lia |].
  - exists s, 0. split; [|split; [done|change (2 ^ (- 0)) with 1; lia]].
    apply binary_round_aux_canonical; [|unfold PyFloat.emax, PyFloat.prec; lia].
    rewrite Z.add_0_r, Hf. done.
  - exists (Pos.iter xO s k), (Zneg k). split; [|split; [lia|]].
    + apply binary_round_aux_canonical; [|unfold PyFloat.emax, PyFloat.prec; lia].
      rewrite digits2_pos_shift.
      unfold fexp, SpecFloat.emin, PyFloat.prec, PyFloat.emax. lia.
    + change (- Z.neg k) with (Zpos k). apply Zpos_shift.
Qed.

Lemma compare_cont_le (m p : positive) :
  match Pos.compare_cont Eq m p with Gt => false | _ => true end = true -> Zpos m <= Zpos p.
Proof.
  pose proof (Pos.compare_spec m p) as Hc. unfold Pos.compare in Hc.
  destruct Hc; [lia | lia | done].
Qed.

(** A positive fraction at most 1 has the shape [m * 2^e] with [m <= 2^(-e)]. *)
Lemma fraction_shape (f : float) (mb : positive) (eb : Z) :
  eb <= -52 -> Zpos mb <= 2 ^ (- eb) ->
  valid_binary PyFloat.prec PyFloat.emax f && PyFloat.ltb PyFloat.zero f
    && PyFloat.leb f (S754_finite false mb eb) = true ->
  ∃ m e, f = S754_finite false m e ∧ e <= 0 ∧ Zpos m <= 2 ^ (- e).
Proof.
  intros Heb Hmb Hf. apply andb_prop in Hf as [Hf Hle]. apply andb_prop in Hf as [Hv Hlt].
  destruct f as [s|s| |s m e]; try done.
  { by destruct s. }
  destruct s; [done|]. clear Hlt.
  exists m, e. split; [done|].
  simpl in Hv. apply andb_prop in Hv as [Hc _].
  unfold canonical_mantissa, fexp, SpecFloat.emin, PyFloat.prec, PyFloat.emax in Hc.
  apply Z.eqb_eq in Hc.
  assert (Hd : Zpos (digits2_pos m) <= 53) by lia.
  destruct (digits2_pos_bounds m) as [_ Hm].
  assert (Hm53 : Zpos m < 2 ^ 53).
  { eapply Z.lt_le_trans; [exact Hm|]. apply Z.pow_le_mono_r; lia. }
  unfold PyFloat.leb, SFleb, SFcompare in Hle.
  destruct (Z.compare_spec e eb) as [->|Hlt|Hgt]; [| |done].
  - split; [lia|]. apply compare_cont_le in Hle. lia.
  - split; [lia|]. apply Z.lt_le_incl. eapply Z.lt_le_trans; [exact Hm53|].
    apply Z.pow_le_mono_r; lia.
Qed.

Lemma unit_fraction_shape (f : float) :
  PyFloat.unit_fraction f = true ->
  ∃ m e, f = S754_finite false m e ∧ e <= 0 ∧ Zpos m <= 2 ^ (- e).
Proof. apply (fraction_shape f 4503599627370496 (-52)); [lia|]. by vm_compute. Qed.

Lemma radius_fraction_shape (f : float) :
  PyFloat.radius_fraction f = true ->
  ∃ m e, f = S754_finite false m e ∧ e <= 0 ∧ Zpos m <= 2 ^ (- e).
Proof. apply (fraction_shape f 4503599627370496 (-53)); [lia|]. by vm_compute. Qed.

(** [int(n * f)] for [0 <= n < 2^53] and a fraction [f] of the shape above. *)
Lemma trunc_mul_fraction (n : Z) (m : positive) (e : Z) :
  0 <= n < 2 ^ 53 -> e <= 0 -> Zpos m <= 2 ^ (- e) ->
  PyFloat.is_finite (PyFloat.of_int n) = true ∧
  ∃ k, PyFloat.trunc (PyFloat.mul (PyFloat.of_int n) (S754_finite false m e)) = Some k ∧ 0 <= k <= n.
Proof.
  intros Hn He Hm. destruct n as [|s|s]; [| |lia].
  - split; [done|]. exists 0. by split.
  - destruct (of_int_exact s) as (ms & es & -> & Hes & Hms); [lia|].
    split; [done|]. unfold PyFloat.mul, SFmul. simpl xorb.
    apply binary_round_aux_below; [lia|]. split; [lia|]. split; [lia|].
    rewrite Pos2Z.inj_mul, Hms.
    replace (- (es + e)) with (- es + - e) by lia. rewrite Z.pow_add_r by lia.
    assert (0 < 2 ^ (- es)) by (apply Z.pow_pos_nonneg; lia). nia.
Qed.

(** ** Rounding below one half

    The product of an integer [0 <= T < 2^53] and a fraction in (0, 0.5]
    rounds to at most [T / 2]: the lemmas of the first part, one binary
    place lower. *)

Lemma fexp_below_half (m : positive) (e T : Z) :
  T < 2 ^ 53 -> below (Zpos m) (e + 1) T ->
  fexp PyFloat.prec PyFloat.emax (Zpos (digits2_pos m) + e) + 1 <= 0.
Proof.
  intros HT (He & _ & Hm).
  assert (Hd : Zpos (digits2_pos m) <= 53 - (e + 1)).
  { apply digits2_pos_le. replace (53 - (e + 1)) with (53 + - (e + 1)) by lia.
    rewrite Z.pow_add_r by lia.
    assert (0 < 2 ^ (- (e + 1))) by (apply Z.pow_pos_nonneg; lia). nia. }
  unfold fexp, SpecFloat.emin, PyFloat.prec, PyFloat.emax. lia.
Qed.

Lemma shr_below_half (mr e T : Z) (mrs : shr_record) (e' : Z) :
  T < 2 ^ 53 -> below mr (e + 1) T ->
  shr_fexp PyFloat.prec PyFloat.emax mr e loc_Exact = (mrs, e') ->
  below (shr_m mrs) (e' + 1) T /\
  (e' = e /\ shr_m mrs = mr /\ exact mrs \/
   ∃ p, e' = e + Zpos p /\ shr_m mrs = mr / 2 ^ Zpos p /\
        (mr mod 2 ^ Zpos p = 0 -> exact mrs)).
Proof.
  intros HT Hb. unfold shr_fexp, shr. simpl shr_record_of_loc.
  destruct (fexp PyFloat.prec PyFloat.emax (Zdigits2 mr + e) - e) as [|p|p] eqn:En;
    intros [= <- <-]; simpl shr_m; try (split; [done|left; done]).
  assert (Hmr : 0 <= mr) by (destruct Hb; lia).
  destruct (shr_iter_spec p (Build_shr_record mr false false) Hmr) as [E X].
  simpl shr_m in E, X.
  assert (Hg : e + Zpos p + 1 <= 0).
  { destruct mr as [|m|m]; [| |lia].
    - simpl Zdigits2 in En.
      unfold fexp, SpecFloat.emin, PyFloat.prec, PyFloat.emax in En. destruct Hb. lia.
    - pose proof (fexp_below_half m e T HT Hb). simpl Zdigits2 in En. lia. }
  split.
  - destruct Hb as (He & Hm0 & Hm). split; [done|]. rewrite E.
    assert (Hp : 0 < 2 ^ Zpos p) by (apply Z.pow_pos_nonneg; lia).
    split; [apply Z.div_pos; lia|].
    apply Z.div_le_upper_bound; [done|].
    replace (- (e + 1)) with (Zpos p + - (e + Zpos p + 1)) in Hm by lia.
    rewrite Z.pow_add_r in Hm by lia. lia.
  - right. exists p. split; [done|]. split; [done|]. intros Hmod. by apply X.
Qed.

Lemma trunc_finite_below_half (m : positive) (e T : Z) :
  below (Zpos m) (e + 1) T ->
  ∃ n, PyFloat.trunc (S754_finite false m e) = Some n ∧ 0 <= 2 * n <= T.
Proof.
  intros (He & _ & Hm). unfold PyFloat.trunc.
  destruct e as [|q|q]; [lia | lia |].
  eexists; split; [done|]. rewrite Z.shiftr_div_pow2 by lia.
  assert (Hq : 0 < 2 ^ (Zpos q - 1)) by (apply Z.pow_pos_nonneg; lia).
  assert (E : 2 ^ Zpos q = 2 * 2 ^ (Zpos q - 1)).
  { rewrite <- Z.pow_succ_r by lia. f_equal. lia. }
  replace (- (Z.neg q + 1)) with (Zpos q - 1) in Hm by lia.
  rewrite E.
  assert (Hdiv : Zpos m / (2 * 2 ^ (Zpos q - 1)) * (2 * 2 ^ (Zpos q - 1)) <= Zpos m)
    by (rewrite Z.mul_comm; apply Z.mul_div_le; lia).
  assert (0 <= Zpos m / (2 * 2 ^ (Zpos q - 1))) by (apply Z.div_pos; lia).
  split; [lia|]. nia.
Qed.

Lemma binary_round_aux_below_half (m : positive) (e T : Z) :
  T < 2 ^ 53 -> below (Zpos m) (e + 1) T ->
  ∃ n, PyFloat.trunc (binary_round_aux PyFloat.prec PyFloat.emax false (Zpos m) e loc_Exact)
         = Some n
       ∧ 0 <= 2 * n <= T.
Proof.
  intros HT Hb. unfold binary_round_aux.
  destruct (shr_fexp PyFloat.prec PyFloat.emax (Zpos m) e loc_Exact) as [mrs1 e1] eqn:E1.
  destruct (shr_below_half _ _ _ _ _ HT Hb E1) as [Hb1 Hcase].
  assert (Hb2 : below (round_nearest_even (shr_m mrs1) (loc_of_shr_record mrs1)) (e1 + 1) T).
  { destruct Hcase as [(-> & Hm & Hr & Hs)|(p & -> & Hm & X)].
    - destruct mrs1 as [m1 r s]; simpl in *. subst. simpl. done.
    - destruct Hb as (He & Hm0 & Hle). destruct Hb1 as (He1 & _).
      split; [done|].
      replace (e + Zpos p + 1) with ((e + 1) + Zpos p) by lia.
      eapply (round_nearest_even_below (Zpos m) (e + 1) T mrs1 p (Zpos m)); try done; lia. }
  destruct (shr_fexp PyFloat.prec PyFloat.emax _ e1 loc_Exact) as [mrs2 e2] eqn:E2.
  destruct (shr_below_half _ _ _ _ _ HT Hb2 E2) as [Hb3 _].
  destruct (shr_m mrs2) as [|m2|m2] eqn:Em2.
  - exists 0. split; [done|]. destruct Hb as (He & _ & Hle).
    assert (0 < 2 ^ (- (e + 1))) by (apply Z.pow_pos_nonneg; lia). nia.
  - destruct (Z.leb_spec e2 (PyFloat.emax - PyFloat.prec)) as [_|Hlt].
    + by apply trunc_finite_below_half.
    + destruct Hb3 as (? & _). unfold PyFloat.emax, PyFloat.prec in Hlt. lia.
  - destruct Hb3 as (_ & ? & _). lia.
Qed.

(** A positive fraction at most one half has the shape [m * 2^e] with
    [m <= 2^(-e-1)]. *)
Lemma radius_fraction_half_shape (f : float) :
  PyFloat.radius_fraction f = true ->
  ∃ m e, f = S754_finite false m e ∧ e + 1 <= 0 ∧ Zpos m <= 2 ^ (- (e + 1)).
Proof.
  intros Hf. unfold PyFloat.radius_fraction in Hf.
  apply andb_prop in Hf as [Hf Hle]. apply andb_prop in Hf as [Hv Hlt].
  destruct f as [s|s| |s m e]; try done.
  { by destruct s. }
  destruct s; [done|]. clear Hlt.
  exists m, e. split; [done|].
  simpl in Hv. apply andb_prop in Hv as [Hc _].
  unfold canonical_mantissa, fexp, SpecFloat.emin, PyFloat.prec, PyFloat.emax in Hc.
  apply Z.eqb_eq in Hc.
  assert (Hd : Zpos (digits2_pos m) <= 53) by lia.
  destruct (digits2_pos_bounds m) as [_ Hm].
  assert (Hm53 : Zpos m < 2 ^ 53).
  { eapply Z.lt_le_trans; [exact Hm|]. apply Z.pow_le_mono_r; lia. }
  assert (Hhalf : PyFloat.half = S754_finite false 4503599627370496 (-53)) by (by vm_compute).
  rewrite Hhalf in Hle.
  unfold PyFloat.leb, SFleb, SFcompare in Hle.
  destruct (Z.compare_spec e (-53)) as [->|Hlt|Hgt]; [| |done].
  - split; [lia|]. apply compare_cont_le in Hle.
    change (2 ^ (- (-53 + 1))) with 4503599627370496. lia.
  - split; [lia|]. apply Z.lt_le_incl. eapply Z.lt_le_trans; [exact Hm53|].
    apply Z.pow_le_mono_r; lia.
Qed.

(** [int(n * f)] for [0 <= n < 2^53] and a fraction [f] of that shape. *)
Lemma trunc_mul_half (n : Z) (m : positive) (e : Z) :
  0 <= n < 2 ^ 53 -> e + 1 <= 0 -> Zpos m <= 2 ^ (- (e + 1)) ->
  ∃ k, PyFloat.trunc (PyFloat.mul (PyFloat.of_int n) (S754_finite false m e)) = Some k
       ∧ 0 <= 2 * k <= n.
Proof.
  intros Hn He Hm. destruct n as [|s|s]; [| |lia].
  - exists 0. by split.
  - destruct (of_int_exact s) as (ms & es & -> & Hes & Hms); [lia|].
    unfold PyFloat.mul, SFmul. simpl xorb.
    apply binary_round_aux_below_half; [lia|]. split; [lia|]. split; [lia|].
    rewrite Pos2Z.inj_mul, Hms.
    replace (- (es + e + 1)) with (- es + - (e + 1)) by lia. rewrite Z.pow_add_r by lia.
    assert (0 < 2 ^ (- es)) by (apply Z.pow_pos_nonneg; lia). nia.
Qed.

Lemma of_int_finite (n : Z) : 0 <= n < 2 ^ 53 -> PyFloat.is_finite (PyFloat.of_int n) = true.
Proof.
  intros Hn. destruct (trunc_mul_fraction n 1 0 Hn) as [Hfin _]; [lia|done|done].
Qed.

(** ** Running programs *)

Lemma bind_run {A B} (m : M A) (k : A -> M B) (w w' : World) (a : A) :
  m w = (Ret a, w') -> bind m k w = k a w'.
Proof. unfold bind. by intros ->. Qed.

Lemma bind_raise {A B} (m : M A) (k : A -> M B) (w w' : World) (e : exn) :
  m w = (Raise e, w') -> bind m k w = (Raise e, w').
Proof. unfold bind. by intros ->. Qed.

Lemma bind_ext {A B} (m : M A) (k1 k2 : A -> M B) (w : World) :
  (∀ a w', k1 a w' = k2 a w') -> bind m k1 w = bind m k2 w.
Proof. intros Hk. unfold bind. destruct (m w) as [[a|e] w']; [apply Hk|done]. Qed.

Lemma bind_assoc {A B C} (m : M A) (k1 : A -> M B) (k2 : B -> M C) (w : World) :
  bind (bind m k1) k2 w = bind m (λ a, bind (k1 a) k2) w.
Proof. unfold bind. by destruct (m w) as [[a|e] w']. Qed.

Lemma load_run (r : ref) (o : obj) (w : World) :
  heap w !! r = Some o -> load r w = (Ret o, w).
Proof. unfold load. by intros ->. Qed.

Lemma load_rgba_run (r : ref) (im : Img rgba) (w : World) :
  heap w !! r = Some (ORGBA im) -> load_rgba r w = (Ret im, w).
Proof. intros Hr. unfold load_rgba. by rewrite (bind_run _ _ _ _ _ (load_run _ _ _ Hr)). Qed.

Lemma load_L_run (r : ref) (im : Img Z) (w : World) :
  heap w !! r = Some (OL im) -> load_L r w = (Ret im, w).
Proof. intros Hr. unfold load_L. by rewrite (bind_run _ _ _ _ _ (load_run _ _ _ Hr)). Qed.

(** An object survives any allocation after it. *)
Lemma lookup_heap_app (h new : list obj) (r : ref) (o : obj) :
  h !! r = Some o -> (h ++ new) !! r = Some o.
Proof. apply lookup_app_l_Some. Qed.

Lemma lookup_heap_new (h new : list obj) (k : nat) :
  (h ++ new) !! (length h + k)%nat = new !! k.
Proof. rewrite lookup_app_r by lia. f_equal. lia. Qed.

Lemma lookup_heap_new0 (h new : list obj) :
  (h ++ new) !! length h = new !! 0%nat.
Proof. rewrite <- (Nat.add_0_r (length h)) at 1. apply lookup_heap_new. Qed.

Lemma insert_heap_new0 (h new : list obj) (o : obj) :
  <[length h := o]> (h ++ new) = h ++ <[0%nat := o]> new.
Proof. rewrite insert_app_r_alt by lia. by rewrite Nat.sub_diag. Qed.

(** ** Pixels of tabulated images *)

Lemma px_tabulate {P} `{Inhabited P} (w h : Z) (f : Z -> Z -> P) (x y : Z) :
  0 <= x < w -> 0 <= y < h -> px (tabulate w h f) x y = f x y.
Proof.
  intros Hx Hy. unfold px, tabulate. simpl rows.
  destruct (Z.leb_spec 0 x); [|lia]. destruct (Z.leb_spec 0 y); [|lia]. simpl.
  rewrite list_lookup_fmap, lookup_seqZ_lt by lia. simpl.
  rewrite list_lookup_fmap, lookup_seqZ_lt by lia. simpl.
  f_equal; lia.
Qed.

Lemma size_tabulate {P} (w h : Z) (f : Z -> Z -> P) : size (tabulate w h f) = (w, h).
Proof. done. Qed.

Lemma size_eqb_refl (a : Z * Z) : size_eqb a a = true.
Proof. unfold size_eqb. by rewrite !Z.eqb_refl. Qed.

Lemma size_eqb_eq (a b : Z * Z) : size_eqb a b = true <-> a = b.
Proof.
  unfold size_eqb. destruct a, b; simpl. rewrite andb_true_iff, !Z.eqb_eq.
  split; [intros [-> ->]|intros [= -> ->]]; done.
Qed.

Section ProgramFacts.
Context `{Pillow}.

Lemma c_int_None (n : Z) : INT_MIN <= n <= INT_MAX -> c_int n = None.
Proof.
  intros Hn. unfold c_int, INT_MIN, INT_MAX, LONG_MIN, LONG_MAX in *.
  destruct (Z.ltb_spec n (-9223372036854775808)); [lia|].
  destruct (Z.ltb_spec 9223372036854775807 n); [lia|].
  destruct (Z.ltb_spec 2147483647 n); [lia|].
  destruct (Z.ltb_spec n (-2147483648)); [lia|]. done.
Qed.

Lemma c_int_above (n : Z) : INT_MAX < n -> ∃ msg, c_int n = Some (OverflowError msg).
Proof.
  intros Hn. unfold c_int, INT_MIN, INT_MAX, LONG_MIN, LONG_MAX in *.
  destruct (_ || _); [by eexists|].
  destruct (Z.ltb_spec 2147483647 n); [by eexists|lia].
Qed.

Lemma c_int_below (n : Z) : n < INT_MIN -> ∃ msg, c_int n = Some (OverflowError msg).
Proof.
  intros Hn. unfold c_int, INT_MIN, INT_MAX, LONG_MIN, LONG_MAX in *.
  destruct (_ || _); [by eexists|].
  destruct (Z.ltb_spec 2147483647 n); [by eexists|].
  destruct (Z.ltb_spec n (-2147483648)); [by eexists|lia].
Qed.

Lemma allocates_fits (w : World) (sz : Z * Z) :
  fits sz.1 sz.2 = true -> allocates w sz = true.
Proof. intros Hf. unfold allocates. by rewrite Hf. Qed.

Lemma allocates_held (w : World) (r : ref) (o : obj) :
  heap w !! r = Some o -> allocates w (obj_size o) = true.
Proof.
  intros Hr. unfold allocates, holds_size. apply orb_true_iff. right.
  apply existsb_exists. exists o. split; [|apply size_eqb_refl].
  apply list_elem_of_In. by eapply list_elem_of_lookup_2.
Qed.

Lemma Image_new_run (sz : Z * Z) (o : obj) (w : World) :
  0 <= sz.1 <= INT_MAX -> 0 <= sz.2 <= INT_MAX -> allocates w sz = true ->
  Image_new sz o w = (Ret (length (heap w)), mkWorld (heap w ++ [o]) (disk w) (stdout w)).
Proof.
  intros H1 H2 Ha. unfold Image_new.
  destruct (Z.ltb_spec sz.1 0); [lia|]. destruct (Z.ltb_spec sz.2 0); [lia|].
  rewrite !c_int_None by (unfold INT_MIN, INT_MAX in *; lia).
  cbn. by rewrite Ha.
Qed.

Lemma Image_new_RGBA_run (sz : Z * Z) (c : rgba) (w : World) :
  0 <= sz.1 <= INT_MAX -> 0 <= sz.2 <= INT_MAX -> allocates w sz = true ->
  Image_new_RGBA sz c w =
    (Ret (length (heap w)),
     mkWorld (heap w ++ [ORGBA (tabulate sz.1 sz.2 (λ _ _, c))]) (disk w) (stdout w)).
Proof. apply Image_new_run. Qed.

Lemma Image_new_L_run (sz : Z * Z) (c : Z) (w : World) :
  0 <= sz.1 <= INT_MAX -> 0 <= sz.2 <= INT_MAX -> allocates w sz = true ->
  Image_new_L sz c w =
    (Ret (length (heap w)),
     mkWorld (heap w ++ [OL (tabulate sz.1 sz.2 (λ _ _, c))]) (disk w) (stdout w)).
Proof. apply Image_new_run. Qed.

(** No machine has room for a line of more than [INT_MAX / 4 - 1] pixels. *)
Lemma Image_new_out_of_memory (sz : Z * Z) (o : obj) (w : World) :
  536870910 < sz.1 <= INT_MAX -> 0 <= sz.2 <= INT_MAX ->
  holds_size (heap w) sz = false ->
  Image_new sz o w = (Raise MemoryError, w).
Proof.
  intros H1 H2 Hh. unfold Image_new.
  destruct (Z.ltb_spec sz.1 0); [lia|]. destruct (Z.ltb_spec sz.2 0); [lia|].
  rewrite !c_int_None by (unfold INT_MIN, INT_MAX in *; lia).
  cbn. unfold allocates. rewrite Hh.
  destruct (fits sz.1 sz.2) eqn:Hf; [|done].
  apply fits_limit in Hf. lia.
Qed.

(** A size the machine has room for is within C's [int]. *)
Lemma fits_int (s : Z) : fits s s = true -> s <= INT_MAX.
Proof. intros Hf. apply fits_limit in Hf. unfold INT_MAX. lia. Qed.

Lemma Image_resize_run (img : ref) (im im' : Img rgba) (sz : Z * Z) (f : Resampling) (w : World) :
  heap w !! img = Some (ORGBA im) ->
  resized im sz f = Ret im' ->
  Image_resize img sz f w =
    (Ret (length (heap w)), mkWorld (heap w ++ [ORGBA im']) (disk w) (stdout w)).
Proof.
  intros Hr Hs. unfold Image_resize.
  rewrite (bind_run _ _ _ _ _ (load_rgba_run _ _ _ Hr)). by rewrite Hs.
Qed.

Lemma Image_resize_raise (img : ref) (im : Img rgba) (sz : Z * Z) (f : Resampling) (e : exn) (w : World) :
  heap w !! img = Some (ORGBA im) ->
  resized im sz f = Raise e ->
  Image_resize img sz f w = (Raise e, w).
Proof.
  intros Hr Hs. unfold Image_resize.
  rewrite (bind_run _ _ _ _ _ (load_rgba_run _ _ _ Hr)). by rewrite Hs.
Qed.

(** Resizing succeeds for every target of at least 1 x 1 the machine has
    room for, and the result has the requested size. *)
Lemma resized_ok (im : Img rgba) (sz : Z * Z) (f : Resampling) :
  1 <= sz.1 <= INT_MAX -> 1 <= sz.2 <= INT_MAX -> fits sz.1 sz.2 = true ->
  ∃ im', resized im sz f = Ret im' ∧ size im' = sz.
Proof.
  intros H1 H2 Hf. unfold resized.
  destruct (size_eqb (size im) sz) eqn:E.
  - apply size_eqb_eq in E. by exists im.
  - rewrite !c_int_None by (unfold INT_MIN, INT_MAX in *; lia). cbv beta iota.
    destruct (Z.ltb_spec sz.1 1); [lia|]. destruct (Z.ltb_spec sz.2 1); [lia|].
    simpl. rewrite Hf. eexists; split; [done|]. destruct sz. by apply resample_size.
Qed.

Lemma int_times_float_run (n : Z) (f : float) (w : World) :
  PyFloat.is_finite (PyFloat.of_int n) = true ->
  int_times_float n f w = (Ret (PyFloat.mul (PyFloat.of_int n) f), w).
Proof. intros Hf. unfold int_times_float. by rewrite Hf. Qed.

Lemma py_int_run (x : float) (n : Z) (w : World) :
  PyFloat.trunc x = Some n -> py_int x w = (Ret n, w).
Proof. intros Hx. unfold py_int. by rewrite Hx. Qed.

(** *** What [paste] writes *)

Lemma clip_spec (d n lim : Z) :
  clip d n lim = (Z.max d 0 - d, Z.max d 0, Z.min (d + n) lim - Z.max d 0).
Proof.
  unfold clip. destruct (Z.ltb_spec d 0).
  - destruct (Z.ltb_spec lim (0 + (n + d))); repeat f_equal; lia.
  - destruct (Z.ltb_spec lim (d + n)); repeat f_equal; lia.
Qed.

Lemma size_pasted (dst src : Img rgba) (mask : Z -> Z -> Z) (box : Z * Z) :
  size (pasted dst src mask box) = size dst.
Proof.
  unfold pasted. rewrite !clip_spec.
  by destruct (_ || _).
Qed.

(** Inside the pasted box and the destination, a pixel is the blend of
    what was there with the source pixel, through the mask. *)
Lemma px_pasted_inside (dst src : Img rgba) (mask : Z -> Z -> Z) (box : Z * Z) (x y : Z) :
  0 <= x < width dst -> 0 <= y < height dst ->
  box.1 <= x < box.1 + width src -> box.2 <= y < box.2 + height src ->
  px (pasted dst src mask box) x y =
    blend (mask (x - box.1) (y - box.2)) (px dst x y) (px src (x - box.1) (y - box.2)).
Proof.
  intros Hx Hy Hbx Hby. unfold pasted. rewrite !clip_spec.
  destruct (Z.leb_spec (Z.min (box.1 + width src) (width dst) - Z.max box.1 0) 0); [lia|].
  destruct (Z.leb_spec (Z.min (box.2 + height src) (height dst) - Z.max box.2 0) 0); [lia|].
  simpl orb. cbv iota. rewrite px_tabulate by done.
  destruct (Z.leb_spec (Z.max box.1 0) x); [|lia].
  destruct (Z.ltb_spec x (Z.max box.1 0 + (Z.min (box.1 + width src) (width dst) - Z.max box.1 0))); [|lia].
  destruct (Z.leb_spec (Z.max box.2 0) y); [|lia].
  destruct (Z.ltb_spec y (Z.max box.2 0 + (Z.min (box.2 + height src) (height dst) - Z.max box.2 0))); [|lia].
  simpl andb. cbv iota.
  replace (x - Z.max box.1 0 + (Z.max box.1 0 - box.1)) with (x - box.1) by lia.
  replace (y - Z.max box.2 0 + (Z.max box.2 0 - box.2)) with (y - box.2) by lia.
  done.
Qed.

(** Outside the pasted box, a pixel of the destination is untouched. *)
Lemma px_pasted_outside (dst src : Img rgba) (mask : Z -> Z -> Z) (box : Z * Z) (x y : Z) :
  0 <= x < width dst -> 0 <= y < height dst ->
  ¬ (box.1 <= x < box.1 + width src ∧ box.2 <= y < box.2 + height src) ->
  px (pasted dst src mask box) x y = px dst x y.
Proof.
  intros Hx Hy Hout. unfold pasted. rewrite !clip_spec.
  destruct (_ || _); [done|]. rewrite px_tabulate by done.
  destruct (Z.leb_spec (Z.max box.1 0) x); [|done].
  destruct (Z.ltb_spec x (Z.max box.1 0 + (Z.min (box.1 + width src) (width dst) - Z.max box.1 0))); [|done].
  destruct (Z.leb_spec (Z.max box.2 0) y); [|done].
  destruct (Z.ltb_spec y (Z.max box.2 0 + (Z.min (box.2 + height src) (height dst) - Z.max box.2 0))); [|done].
  exfalso. apply Hout. lia.
Qed.

Lemma Image_paste_run (dst src mask : ref) (d s : Img rgba) (m : obj) (box : Z * Z) (w : World) :
  heap w !! dst = Some (ORGBA d) ->
  heap w !! src = Some (ORGBA s) ->
  heap w !! mask = Some m ->
  obj_size m = size s ->
  Image_paste dst src box mask w =
    (Ret tt, mkWorld (<[dst := ORGBA (pasted d s (mask_value m) box)]> (heap w)) (disk w) (stdout w)).
Proof.
  intros Hd Hs Hm Hsz. unfold Image_paste.
  rewrite (bind_run _ _ _ _ _ (load_rgba_run _ _ _ Hd)).
  rewrite (bind_run _ _ _ _ _ (load_rgba_run _ _ _ Hs)).
  rewrite (bind_run _ _ _ _ _ (load_run _ _ _ Hm)).
  by rewrite Hsz, size_eqb_refl.
Qed.

(** *** [padded] *)

Lemma padded_run (img : ref) (im glyph : Img rgba)
    (canvas_size inner : Z) (scale : float) (w : World) :
  heap w !! img = Some (ORGBA im) ->
  0 <= canvas_size -> fits canvas_size canvas_size = true ->
  PyFloat.is_finite (PyFloat.of_int canvas_size) = true ->
  PyFloat.trunc (PyFloat.mul (PyFloat.of_int canvas_size) scale) = Some inner ->
  resized im (inner, inner) LANCZOS = Ret glyph ->
  padded img canvas_size scale w =
    (Ret (length (heap w)),
     mkWorld (heap w ++ [ORGBA (padded_image glyph canvas_size inner); ORGBA glyph])
             (disk w) (stdout w)).
Proof.
  intros Himg HS Hfits Hfin Hinner Hres. unfold padded.
  pose proof (fits_int _ Hfits) as Hmax.
  rewrite (bind_run _ _ _ _ _ (Image_new_RGBA_run (canvas_size, canvas_size) _ w
             (conj HS Hmax) (conj HS Hmax) (allocates_fits w (canvas_size, canvas_size) Hfits))).
  rewrite (bind_run _ _ _ _ _ (int_times_float_run _ _ _ Hfin)).
  rewrite (bind_run _ _ _ _ _ (py_int_run _ _ _ Hinner)).
  erewrite bind_run; last first.
  { eapply Image_resize_run; [|exact Hres]. simpl heap. by apply lookup_heap_app. }
  simpl heap. rewrite <- app_assoc. simpl app.
  erewrite bind_run; last first.
  { eapply Image_paste_run with (m := ORGBA glyph); simpl heap.
    - rewrite lookup_heap_new0. done.
    - rewrite length_app. simpl length.
      replace (length (heap w) + 1)%nat with (length (heap w) + 1)%nat by done.
      rewrite lookup_heap_new. done.
    - rewrite length_app. simpl length. rewrite lookup_heap_new. done.
    - done. }
  simpl. rewrite insert_heap_new0. done.
Qed.

Lemma int_product_bounds (canvas_size : Z) (scale : float) :
  0 <= canvas_size <= INT_MAX -> PyFloat.unit_fraction scale = true ->
  PyFloat.is_finite (PyFloat.of_int canvas_size) = true ∧
  ∃ inner, int_product canvas_size scale = Some inner ∧ 0 <= inner <= canvas_size.
Proof.
  intros HS Hf. destruct (unit_fraction_shape _ Hf) as (m & e & -> & He & Hm).
  apply trunc_mul_fraction; [|done|done]. unfold INT_MAX in HS. lia.
Qed.

Lemma offset_bounds (canvas_size inner : Z) :
  0 <= inner <= canvas_size ->
  0 <= (canvas_size - inner) / 2 ∧ (canvas_size - inner) / 2 + inner <= canvas_size.
Proof.
  intros Hi. pose proof (Z.div_pos (canvas_size - inner) 2 ltac:(lia) ltac:(lia)).
  pose proof (Z.mul_div_le (canvas_size - inner) 2 ltac:(lia)). lia.
Qed.

(** *** [rounded] *)

Lemma ImageDraw_rounded_rectangle_run (mask : ref) (m : Img Z) (box : Z * Z * Z * Z) (r ink : Z) (w : World) :
  heap w !! mask = Some (OL m) -> 0 <= r ->
  ImageDraw_rounded_rectangle mask box r ink w =
    (Ret tt,
     mkWorld (<[mask := OL (tabulate (width m) (height m)
                 (λ x y, if rr_inked box r x y then ink else px m x y))]> (heap w))
             (disk w) (stdout w)).
Proof.
  intros Hm Hr. unfold ImageDraw_rounded_rectangle.
  rewrite (bind_run _ _ _ _ _ (load_L_run _ _ _ Hm)).
  by destruct (Z.ltb_spec r 0); [lia|].
Qed.

Lemma rounded_run (img : ref) (im : Img rgba) (radius_frac : float) (r : Z) (w : World) :
  heap w !! img = Some (ORGBA im) ->
  0 <= width im <= INT_MAX -> 0 <= height im <= INT_MAX ->
  PyFloat.is_finite (PyFloat.of_int (Z.min (width im) (height im))) = true ->
  int_product (Z.min (width im) (height im)) radius_frac = Some r ->
  0 <= r ->
  rounded img radius_frac w =
    (Ret (S (length (heap w))),
     mkWorld (heap w ++ [OL (rounded_mask (width im) (height im) r);
                         ORGBA (rounded_image im r)])
             (disk w) (stdout w)).
Proof.
  intros Himg Hw Hh Hfin Hr Hr0. unfold rounded.
  rewrite (bind_run _ _ _ _ _ (load_rgba_run _ _ _ Himg)).
  unfold size at 1.
  rewrite (bind_run _ _ _ _ _ (int_times_float_run _ _ _ Hfin)).
  rewrite (bind_run _ _ _ _ _ (py_int_run _ _ _ Hr)).
  rewrite (bind_run _ _ _ _ _ (Image_new_L_run (width im, height im) _ w Hw Hh
             (allocates_held w img _ Himg))).
  erewrite bind_run; last first.
  { apply ImageDraw_rounded_rectangle_run; [|done]. simpl heap. by rewrite lookup_heap_new0. }
  simpl heap. rewrite insert_heap_new0. simpl.
  erewrite bind_run; last first.
  { apply (Image_new_RGBA_run (size im)); [done|done|].
    apply (allocates_held _ img (ORGBA im)). simpl heap. by apply lookup_heap_app. }
  simpl heap. rewrite <- app_assoc. simpl app.
  erewrite bind_run; last first.
  { eapply Image_paste_run; simpl heap.
    - rewrite length_app. simpl length. rewrite lookup_heap_new. done.
    - by apply lookup_heap_app.
    - rewrite lookup_heap_new0. done.
    - done. }
  simpl. rewrite length_app. simpl length.
  rewrite insert_app_r_alt by lia.
  replace (length (heap w) + 1 - length (heap w))%nat with 1%nat by lia.
  replace (length (heap w) + 1)%nat with (S (length (heap w))) by lia.
  done.
Qed.

(** The pixels of the rounded image: the source where the mask is inked,
    transparent elsewhere. *)
Lemma px_rounded_image (im : Img rgba) (r x y : Z) :
  0 <= x < width im -> 0 <= y < height im ->
  px (rounded_image im r) x y =
    if rr_inked (0, 0, width im, height im) r x y then px im x y else transparent.
Proof.
  intros Hx Hy. unfold rounded_image.
  rewrite px_pasted_inside by (simpl; lia).
  simpl fst. simpl snd. rewrite !Z.sub_0_r.
  unfold mask_value, rounded_mask. rewrite !px_tabulate by done.
  destruct (rr_inked _ r x y); [apply blend_255 | apply blend_0].
Qed.

Lemma rounded_result (img : ref) (im : Img rgba) (radius_frac : float) (w : World) :
  heap w !! img = Some (ORGBA im) ->
  0 <= width im <= INT_MAX -> 0 <= height im <= INT_MAX ->
  PyFloat.radius_fraction radius_frac = true ->
  ∃ r, int_product (Z.min (width im) (height im)) radius_frac = Some r ∧
       0 <= r <= Z.min (width im) (height im) ∧
       rounded img radius_frac w =
         (Ret (S (length (heap w))),
          mkWorld (heap w ++ [OL (rounded_mask (width im) (height im) r);
                              ORGBA (rounded_image im r)])
                  (disk w) (stdout w)).
Proof.
  intros Himg Hw Hh Hf. destruct (radius_fraction_shape _ Hf) as (m & e & -> & He & Hm).
  destruct (trunc_mul_fraction (Z.min (width im) (height im)) m e) as (Hfin & r & Hr & Hb);
    [unfold INT_MAX in *; lia|done|done|].
  exists r. split; [done|]. split; [done|]. apply rounded_run; [done..|lia].
Qed.

(** ** Claims about [padded] *)

(** C2 (amended).  For a canvas size [S > 0] and a scale fraction in
    (0, 1] with [inner = int(S * f) >= 1], the machine having room for an
    [S] x [S] and for an [inner] x [inner] image, [padded] returns a new
    [S] x [S] canvas.  The source is resized with LANCZOS to exactly
    [inner] x [inner] and pasted at offset [(S - inner) // 2] on both axes
    through its own alpha: each pixel of the inner square is the resized
    pixel composited over transparent, the resized pixel itself where it
    is opaque.  Every pixel outside the inner square is fully
    transparent. *)
Theorem padded_layout (img : ref) (im : Img rgba) (canvas_size inner : Z)
    (scale : float) (w : World) :
  heap w !! img = Some (ORGBA im) ->
  0 < canvas_size -> fits canvas_size canvas_size = true ->
  PyFloat.unit_fraction scale = true ->
  int_product canvas_size scale = Some inner ->
  1 <= inner -> fits inner inner = true ->
  ∃ glyph canvas w',
    padded img canvas_size scale w = (Ret (length (heap w)), w') ∧
    heap w' !! length (heap w) = Some (ORGBA canvas) ∧
    resized im (inner, inner) LANCZOS = Ret glyph ∧
    size glyph = (inner, inner) ∧
    size canvas = (canvas_size, canvas_size) ∧
    let off := (canvas_size - inner) / 2 in
    (∀ x y, 0 <= x < inner -> 0 <= y < inner ->
       px canvas (off + x) (off + y)
         = blend (alpha (px glyph x y)) transparent (px glyph x y) ∧
       (alpha (px glyph x y) = 255 -> px canvas (off + x) (off + y) = px glyph x y)) ∧
    (∀ x y, 0 <= x < canvas_size -> 0 <= y < canvas_size ->
       ¬ (off <= x < off + inner ∧ off <= y < off + inner) ->
       px canvas x y = transparent).
Proof.
  intros Himg HS Hfits Hf Hinner H1 Hfi.
  pose proof (fits_int _ Hfits) as Hmax. pose proof (fits_int _ Hfi) as Himax.
  destruct (int_product_bounds canvas_size scale) as (Hfin & inner' & Hinner' & Hb); [lia|done|].
  rewrite Hinner in Hinner'. injection Hinner' as <-.
  destruct (resized_ok im (inner, inner) LANCZOS) as (glyph & Hres & Hsz);
    [simpl; lia|simpl; lia|done|].
  destruct (offset_bounds canvas_size inner Hb) as [Ho1 Ho2].
  injection Hsz as Hgw Hgh.
  exists glyph, (padded_image glyph canvas_size inner). eexists.
  split; [apply (padded_run img im glyph canvas_size inner); [done|lia|done..]|].
  split; [simpl heap; by rewrite lookup_heap_new0|].
  split; [done|]. split; [unfold size; by rewrite Hgw, Hgh|].
  split; [unfold padded_image; by rewrite size_pasted|].
  cbv zeta. split.
  - intros x y Hx Hy.
    assert (E : px (padded_image glyph canvas_size inner)
                  ((canvas_size - inner) / 2 + x) ((canvas_size - inner) / 2 + y)
                = blend (alpha (px glyph x y)) transparent (px glyph x y)).
    { unfold padded_image. rewrite px_pasted_inside by (simpl; lia).
      simpl fst. simpl snd.
      replace ((canvas_size - inner) / 2 + x - (canvas_size - inner) / 2) with x by lia.
      replace ((canvas_size - inner) / 2 + y - (canvas_size - inner) / 2) with y by lia.
      rewrite px_tabulate by lia. done. }
    split; [done|]. intros Ha. rewrite E, Ha. apply blend_255.
  - intros x y Hx Hy Hout. unfold padded_image.
    rewrite px_pasted_outside; [by rewrite px_tabulate| done | done |].
    simpl fst. simpl snd. rewrite Hgw, Hgh. done.
Qed.

(** C10 (amended).  For a canvas size [0 < S <= INT_MAX] and a scale
    fraction in (0, 1], [inner = int(S * f)] is defined and satisfies
    [0 <= inner <= S]; the paste offset [(S - inner) // 2] is non-negative
    and the inner square ends within the canvas on both axes.  When
    [inner >= 1] and the machine has room for an [S] x [S] and for an
    [inner] x [inner] image, [padded] returns: it allocates the canvas and
    the resized image, changes no other object, writes no file and prints
    nothing. *)
Theorem padded_stays_in_canvas (img : ref) (im : Img rgba) (canvas_size : Z)
    (scale : float) (w : World) :
  heap w !! img = Some (ORGBA im) ->
  0 < canvas_size <= INT_MAX ->
  PyFloat.unit_fraction scale = true ->
  ∃ inner,
    int_product canvas_size scale = Some inner ∧
    0 <= inner <= canvas_size ∧
    0 <= (canvas_size - inner) / 2 ∧
    (canvas_size - inner) / 2 + inner <= canvas_size ∧
    (1 <= inner ->
     fits canvas_size canvas_size = true -> fits inner inner = true ->
     ∃ canvas glyph,
       padded img canvas_size scale w =
         (Ret (length (heap w)),
          mkWorld (heap w ++ [ORGBA canvas; ORGBA glyph]) (disk w) (stdout w)) ∧
       size canvas = (canvas_size, canvas_size) ∧
       size glyph = (inner, inner)).
Proof.
  intros Himg HS Hf.
  destruct (int_product_bounds canvas_size scale) as (Hfin & inner & Hinner & Hb); [lia|done|].
  destruct (offset_bounds canvas_size inner Hb) as [Ho1 Ho2].
  exists inner. split; [done|]. split; [done|]. split; [done|]. split; [done|].
  intros H1 Hfits Hfi.
  destruct (resized_ok im (inner, inner) LANCZOS) as (glyph & Hres & Hsz);
    [simpl; lia|simpl; lia|done|].
  exists (padded_image glyph canvas_size inner), glyph.
  split; [apply (padded_run img im glyph canvas_size inner); [done|lia|done..]|].
  split; [unfold padded_image; by rewrite size_pasted|done].
Qed.

(** ** Claims about [rounded] *)



(** C9.  The mask [rounded] draws is binary: with fill 255 on a 0
    background, every pixel of the result is either fully transparent
    (all channels and alpha exactly 0) or exactly the source pixel,
    alpha included. *)
Theorem rounded_is_binary (img : ref) (im : Img rgba) (radius_frac : float) (w : World) :
  heap w !! img = Some (ORGBA im) ->
  0 <= width im <= INT_MAX -> 0 <= height im <= INT_MAX ->
  PyFloat.radius_fraction radius_frac = true ->
  ∃ out_ref mask out w',
    rounded img radius_frac w = (Ret out_ref, w') ∧
    heap w' !! out_ref = Some (ORGBA out) ∧
    heap w' !! length (heap w) = Some (OL mask) ∧
    ∀ x y, 0 <= x < width im -> 0 <= y < height im ->
      (px mask x y = 0 ∧ px out x y = transparent) ∨
      (px mask x y = 255 ∧ px out x y = px im x y).
Proof.
  intros Himg Hw Hh Hf.
  destruct (rounded_result img im radius_frac w Himg Hw Hh Hf) as (r & Hr & Hb & Hrun).
  exists (S (length (heap w))), (rounded_mask (width im) (height im) r), (rounded_image im r).
  eexists. split; [exact Hrun|]. simpl heap.
  split.
  { replace (S (length (heap w))) with (length (heap w) + 1)%nat by lia.
    by rewrite lookup_heap_new. }
  split; [by rewrite lookup_heap_new0|].
  intros x y Hx Hy. rewrite px_rounded_image by done.
  unfold rounded_mask. rewrite !px_tabulate by done.
  destruct (rr_inked _ r x y); [by right | by left].
Qed.

(** ** The notification icon *)

Lemma notification_icon_is_padded_aux (base : ref) (w : World) :
  notification_icon base w = padded base 96 PyFloat.one w.
Proof.
  unfold notification_icon, padded. cbv zeta.
  apply bind_ext. intros canvas w1.
  assert (Hfin : PyFloat.is_finite (PyFloat.of_int 96) = true) by done.
  assert (Ht : PyFloat.trunc (PyFloat.mul (PyFloat.of_int 96) PyFloat.one) = Some 96)
    by (by vm_compute).
  rewrite (bind_run _ _ _ _ _ (int_times_float_run _ PyFloat.one w1 Hfin)).
  rewrite (bind_run _ _ _ _ _ (py_int_run _ _ w1 Ht)).
  done.
Qed.

(** C7.  The notification icon built in line by [main] (a 96 x 96
    transparent canvas, the source resized to 96, pasted at offset (0, 0)
    with itself as mask) is what [padded(base, 96, 1.0)] computes: the two
    programs agree on every store, in result and in effect. *)
Theorem notification_icon_is_padded (base : ref) (w : World) :
  notification_icon base w = padded base 96 PyFloat.one w.
Proof.
  apply notification_icon_is_padded_aux.
Qed.

End ProgramFacts.

(** ** Base64 round trip *)

Lemma three_ind (P : string -> Prop) :
  P EmptyString ->
  (∀ a, P (String a EmptyString)) ->
  (∀ a b, P (String a (String b EmptyString))) ->
  (∀ a b c s, P s -> P (String a (String b (String c s)))) ->
  ∀ s, P s.
Proof.
  intros H0 H1 H2 H3 s.
  assert (P s ∧ (∀ a, P (String a s)) ∧ (∀ a b, P (String a (String b s)))) as [? _]; [|done].
  induction s as [|c s (IH0 & IH1 & IH2)]; [done|].
  split; [apply IH1|]. split; [intros a; apply IH2|]. intros a b. by apply H3.
Qed.

Lemma index_of_char_of (i : N) : (i < 64)%N -> Base64.index_of (Base64.char_of i) = Some i.
Proof.
  intros Hi. rewrite <- (N2Nat.id i). 
  assert (Hk : (N.to_nat i < 64)%nat) by lia. revert Hk. generalize (N.to_nat i). clear.
  intros k Hk. do 64 (destruct k as [|k]; [by vm_compute|]). lia.
Qed.

Lemma char_of_not_pad (i : N) : (i < 64)%N -> Base64.char_of i ≠ Base64.pad.
Proof. intros Hi E. pose proof (index_of_char_of i Hi) as Hx. rewrite E in Hx. done. Qed.

Lemma N_of_ascii_lt (a : ascii) : (N_of_ascii a < 256)%N.
Proof. apply N_ascii_bounded. Qed.

Ltac Zify.zify_post_hook ::= Z.to_euclidean_division_equations.

Lemma decode_encode (s : string) : Base64.decode (Base64.encode s) = Some s.
Proof.
  induction s as [|a|a b|a b c s IH] using three_ind.
  - done.
  - pose proof (N_of_ascii_lt a) as Ha.
    cbn [Base64.encode Base64.decode].
    rewrite ?index_of_char_of by lia. cbn [mbind option_bind].
    rewrite bool_decide_true by done. cbn [andb].
    rewrite !bool_decide_true by done. cbn [andb].
    f_equal. f_equal.
    replace ((N_of_ascii a * 16 / 64 * 64 + N_of_ascii a * 16 mod 64) / 16)%N with (N_of_ascii a) by lia.
    apply ascii_N_embedding.
  - pose proof (N_of_ascii_lt a) as Ha. pose proof (N_of_ascii_lt b) as Hb.
    cbn [Base64.encode Base64.decode].
    rewrite ?index_of_char_of by lia. cbn [mbind option_bind].
    rewrite (bool_decide_false (Base64.char_of _ = Base64.pad)) by (apply char_of_not_pad; lia).
    rewrite ?index_of_char_of by lia. cbn [mbind option_bind].
    rewrite !bool_decide_true by done.
    set (n := ((N_of_ascii a * 256 + N_of_ascii b) * 4)%N).
    replace (((n / 4096 * 64 + n / 64 mod 64) * 64 + n mod 64) / 4)%N
      with (N_of_ascii a * 256 + N_of_ascii b)%N by lia.
    replace ((N_of_ascii a * 256 + N_of_ascii b) / 256)%N with (N_of_ascii a) by lia.
    replace ((N_of_ascii a * 256 + N_of_ascii b) mod 256)%N with (N_of_ascii b) by lia.
    by rewrite !ascii_N_embedding.
  - pose proof (N_of_ascii_lt a) as Ha. pose proof (N_of_ascii_lt b) as Hb.
    pose proof (N_of_ascii_lt c) as Hc.
    cbn [Base64.encode Base64.decode].
    set (n := (N_of_ascii a * 65536 + N_of_ascii b * 256 + N_of_ascii c)%N).
    rewrite ?index_of_char_of by lia. cbn [mbind option_bind].
    rewrite (bool_decide_false (Base64.char_of _ = Base64.pad)) by (apply char_of_not_pad; lia).
    rewrite ?index_of_char_of by lia. cbn [mbind option_bind].
    rewrite (bool_decide_false (Base64.char_of _ = Base64.pad)) by (apply char_of_not_pad; lia).
    rewrite ?index_of_char_of by lia. cbn [mbind option_bind].
    rewrite IH. cbn [mbind option_bind].
    replace (((n / 262144 * 64 + n / 4096 mod 64) * 64 + n / 64 mod 64) * 64 + n mod 64)%N
      with n by lia.
    replace (n / 65536)%N with (N_of_ascii a) by lia.
    replace (n / 256 mod 256)%N with (N_of_ascii b) by lia.
    replace (n mod 256)%N with (N_of_ascii c) by lia.
    by rewrite !ascii_N_embedding.
Qed.

(** ** Reading the SVG back: lemmas *)

Lemma all_chars_app (P : ascii -> bool) (s t : string) :
  all_chars P (s +:+ t) = all_chars P s && all_chars P t.
Proof. induction s as [|c s IH]; simpl; [done|]. by rewrite IH, andb_assoc. Qed.

Lemma string_of_uint_numeric (d : Decimal.uint) :
  all_chars numeric (NilEmpty.string_of_uint d) = true.
Proof. induction d; simpl; try done; by rewrite IHd. Qed.

Lemma str_int_numeric (n : Z) : all_chars numeric (str_int n) = true.
Proof.
  unfold str_int, NilZero.string_of_int, NilZero.string_of_uint.
  destruct (Z.to_int n) as [d|d]; destruct d; try done;
    simpl; by rewrite ?string_of_uint_numeric.
Qed.

Lemma str_int_cons (n : Z) : ∃ c s, str_int n = String c s ∧ numeric c = true.
Proof.
  pose proof (str_int_numeric n) as Hn.
  destruct (str_int n) as [|c s] eqn:E.
  - exfalso. unfold str_int, NilZero.string_of_int, NilZero.string_of_uint in E.
    destruct (Z.to_int n) as [d|d]; destruct d; done.
  - simpl in Hn. apply andb_prop in Hn as [Hc _]. by exists c, s.
Qed.

Lemma int_of_str_int (n : Z) : int_of_str (str_int n) = Some n.
Proof.
  unfold int_of_str, str_int. rewrite NilZero.isi.
  - simpl. by rewrite DecimalZ.of_to.
  - destruct n as [|p|p]; simpl; try done.
    intros [= E]. by apply DecimalPos.Unsigned.to_uint_nonnil in E.
  - destruct n as [|p|p]; simpl; try done.
    intros [= E]. by apply DecimalPos.Unsigned.to_uint_nonnil in E.
Qed.

Lemma after_skip (P : ascii -> bool) (c0 : ascii) (pat s t : string) :
  (∀ c, P c = true -> Ascii.eqb c0 c = false) ->
  all_chars P s = true ->
  after (String c0 pat) (s +:+ t) = after (String c0 pat) t.
Proof.
  intros HP. induction s as [|c s IH]; [done|].
  simpl all_chars. intros Hs. apply andb_prop in Hs as [Hc Hs].
  simpl. rewrite (HP c Hc). by apply IH.
Qed.

Lemma until_skip (P : ascii -> bool) (stop : ascii) (s t : string) :
  (∀ c, P c = true -> Ascii.eqb c stop = false) ->
  all_chars P s = true ->
  until stop (s +:+ t) = s +:+ until stop t.
Proof.
  intros HP. induction s as [|c s IH]; [done|].
  simpl all_chars. intros Hs. apply andb_prop in Hs as [Hc Hs].
  simpl. rewrite (HP c Hc). by rewrite IH.
Qed.

Lemma numeric_not (c0 c : ascii) :
  numeric c0 = false -> numeric c = true -> Ascii.eqb c0 c = false.
Proof. intros H0 Hc. destruct (Ascii.eqb_spec c0 c) as [->|]; [congruence|done]. Qed.

#[local] Arguments String.append _ _ : simpl nomatch.

Lemma quote_not_numeric (c : ascii) : numeric c = true -> Ascii.eqb c "'" = false.
Proof. intros Hc. rewrite Ascii.eqb_sym. by apply numeric_not. Qed.

Lemma space_not_numeric (c : ascii) : numeric c = true -> Ascii.eqb " " c = false.
Proof. by apply numeric_not. Qed.

Lemma append_empty (s : string) : s +:+ "" = s.
Proof. induction s as [|c s IH]; [done|]. cbn. by rewrite IH. Qed.

Lemma strip_prefix_numeric (c : ascii) (p : string) (n : Z) (t : string) :
  numeric c = false -> strip_prefix (String c p) (str_int n +:+ t) = None.
Proof.
  intros Hc. destruct (str_int_cons n) as (d & s & -> & Hd).
  cbn. by rewrite (numeric_not c d).
Qed.

Lemma base64_char_of (i : N) : (i < 64)%N -> base64_char (Base64.char_of i) = true.
Proof. intros Hi. unfold base64_char. by rewrite index_of_char_of. Qed.

Lemma encode_alphabet (s : string) : all_chars base64_char (Base64.encode s) = true.
Proof.
  induction s as [|a|a b|a b c s IH] using three_ind.
  - done.
  - pose proof (N_of_ascii_lt a). cbn [Base64.encode all_chars].
    rewrite !base64_char_of by lia. done.
  - pose proof (N_of_ascii_lt a). pose proof (N_of_ascii_lt b).
    cbn [Base64.encode all_chars].
    rewrite !base64_char_of by lia. done.
  - pose proof (N_of_ascii_lt a). pose proof (N_of_ascii_lt b). pose proof (N_of_ascii_lt c).
    cbn [Base64.encode all_chars].
    rewrite !base64_char_of by lia. by rewrite IH.
Qed.

Lemma quote_not_base64 (c : ascii) : base64_char c = true -> Ascii.eqb c "'" = false.
Proof. intros Hc. destruct (Ascii.eqb_spec c "'") as [->|]; [by vm_compute in Hc|done]. Qed.

Lemma strip_prefix_empty (s : string) : strip_prefix "" s = Some s.
Proof. by destruct s. Qed.

Ltac read_literal :=
  cbn [String.append after strip_prefix until Ascii.eqb Bool.eqb fmap option_fmap option_map];
  rewrite ?strip_prefix_empty;
  cbn [String.append after strip_prefix until Ascii.eqb Bool.eqb fmap option_fmap option_map].
Ltac skip_number :=
  first
    [ rewrite (after_skip numeric) by (apply space_not_numeric || apply str_int_numeric)
    | rewrite (until_skip numeric) by (apply quote_not_numeric || apply str_int_numeric)
    | rewrite strip_prefix_numeric by done ].

Lemma attribute_width (w h : Z) (b64 : string) :
  attribute "width" (svg_text w h b64) = Some (str_int w).
Proof.
  unfold attribute, svg_text. read_literal. skip_number. read_literal.
  by rewrite append_empty.
Qed.

Lemma attribute_height (w h : Z) (b64 : string) :
  attribute "height" (svg_text w h b64) = Some (str_int h).
Proof.
  unfold attribute, svg_text. read_literal. skip_number. read_literal.
  skip_number. read_literal. by rewrite append_empty.
Qed.

Lemma attribute_viewBox (w h : Z) (b64 : string) :
  attribute "viewBox" (svg_text w h b64)
    = Some ("0 0 " +:+ str_int w +:+ " " +:+ str_int h).
Proof.
  unfold attribute, svg_text. read_literal. skip_number. read_literal.
  skip_number. read_literal. skip_number. read_literal. skip_number. read_literal.
  by rewrite append_empty.
Qed.

Lemma attribute_href (w h : Z) (b64 : string) :
  all_chars base64_char b64 = true ->
  attribute "href" (svg_text w h b64) = Some ("data:image/png;base64," +:+ b64).
Proof.
  intros Hb. unfold attribute, svg_text. read_literal. skip_number. read_literal.
  skip_number. read_literal. skip_number. read_literal. skip_number. read_literal.
  skip_number. read_literal. skip_number. read_literal.
  rewrite (until_skip base64_char) by (apply quote_not_base64 || done).
  read_literal. by rewrite append_empty.
Qed.

(** ** Running the script's helpers *)

Lemma list_ascii_of_string_app (r s : string) :
  list_ascii_of_string (r +:+ s) = list_ascii_of_string r ++ list_ascii_of_string s.
Proof. induction r as [|c r IH]; [done|]. cbn. by rewrite IH. Qed.

Lemma splitext_from_under (seen : bool) (r s : list ascii) :
  splitext_from seen (r ++ "/"%char :: s) = splitext_from false s.
Proof.
  revert seen. induction r as [|c r IH]; intros seen; [done|].
  simpl. destruct (bool_decide (c = "/"%char)); [apply IH|].
  destruct (bool_decide (c = "."%char)); [|apply IH].
  rewrite IH. destruct (splitext_from false s) eqn:E; [|done].
  rewrite forallb_app. simpl. by rewrite !andb_false_r.
Qed.

(** The extension of a path is that of its last component. *)
Lemma extension_under (r s : string) : extension (r +:+ "/" +:+ s) = extension s.
Proof.
  unfold extension. rewrite list_ascii_of_string_app.
  change (list_ascii_of_string ("/" +:+ s)) with ("/"%char :: list_ascii_of_string s).
  by rewrite splitext_from_under.
Qed.

Section ScriptFacts.
Context `{Pillow}.

Lemma resized_square_fits (im : Img rgba) (s : Z) :
  1 <= s -> fits s s = true -> resized im (s, s) LANCZOS = Ret (lanczos_square im s).
Proof.
  intros Hs Hf. pose proof (fits_int _ Hf) as Hmax. unfold resized, lanczos_square.
  destruct (size_eqb (size im) (s, s)); [done|]. simpl.
  rewrite !c_int_None by (unfold INT_MIN, INT_MAX in *; lia).
  destruct (Z.ltb_spec s 1); [lia|]. simpl. by rewrite Hf.
Qed.

(** Every machine has room for the sizes this program resizes to. *)
Lemma resized_square (im : Img rgba) (s : Z) :
  1 <= s <= 512 -> resized im (s, s) LANCZOS = Ret (lanczos_square im s).
Proof. intros Hs. apply resized_square_fits; [lia|]. apply fits_small; lia. Qed.

Lemma size_lanczos_square (im : Img rgba) (s : Z) :
  1 <= s -> size (lanczos_square im s) = (s, s).
Proof.
  intros Hs. unfold lanczos_square. destruct (size_eqb (size im) (s, s)) eqn:E.
  - by apply size_eqb_eq in E.
  - by apply resample_size.
Qed.

Lemma save_png_run (img : ref) (im : Img rgba) (dest : string) (w : World) :
  heap w !! img = Some (ORGBA im) ->
  extension dest = ".png" ->
  save_png img dest w = (Ret tt, emit "png" dest (png_encode im) w).
Proof.
  intros Himg Hext. unfold save_png, ensure_parent, Image_save.
  rewrite (bind_run _ _ w w tt) by done.
  erewrite bind_run; last first.
  { rewrite (bind_run _ _ _ _ _ (load_rgba_run _ _ _ Himg)). cbv zeta. by rewrite Hext. }
  done.
Qed.

Lemma save_svg_from_png_run (img : ref) (im : Img rgba) (dest : string) (w : World) :
  heap w !! img = Some (ORGBA im) ->
  save_svg_from_png img dest w = (Ret tt, emit "svg" dest (svg_of im) w).
Proof.
  intros Himg. unfold save_svg_from_png, ensure_parent.
  rewrite (bind_run _ _ w w tt) by done.
  rewrite (bind_run _ _ _ _ _ (load_rgba_run _ _ _ Himg)).
  done.
Qed.

(** C3.  The SVG that [save_svg_from_png] writes for an image declares
    [width], [height] and [viewBox] equal to the image's pixel dimensions,
    and the base64 payload of its data URI decodes to exactly the bytes of
    the image's PNG encoding. *)
Theorem svg_wraps_png (img : ref) (im : Img rgba) (dest : string) (w : World) :
  heap w !! img = Some (ORGBA im) ->
  ∃ svg,
    save_svg_from_png img dest w = (Ret tt, emit "svg" dest svg w) ∧
    (attribute "width" svg ≫= int_of_str) = Some (width im) ∧
    (attribute "height" svg ≫= int_of_str) = Some (height im) ∧
    attribute "viewBox" svg
      = Some ("0 0 " +:+ str_int (width im) +:+ " " +:+ str_int (height im)) ∧
    ((attribute "href" svg ≫= strip_prefix "data:image/png;base64,") ≫= Base64.decode)
      = Some (png_encode im).
Proof.
  intros Himg. exists (svg_of im).
  split; [by apply save_svg_from_png_run|]. unfold svg_of.
  rewrite attribute_width, attribute_height, attribute_viewBox.
  rewrite attribute_href by apply encode_alphabet.
  cbn [mbind option_bind]. rewrite !int_of_str_int.
  split; [done|]. split; [done|]. split; [done|].
  read_literal. cbn [mbind option_bind]. apply decode_encode.
Qed.

(** *** [save_ico] *)

Lemma thumbnail_size_square (im : Img rgba) (L s : Z) :
  size im = (L, L) -> 1 <= s < L -> thumbnail_size im (s, s) = Some (s, s).
Proof.
  intros [= Hw Hh] Hs. unfold thumbnail_size. rewrite Hw, Hh.
  destruct (Z.leb_spec L s); [lia|]. simpl andb.
  destruct (Z.leb_spec (L * s) (s * L)); [|lia].
  assert (E1 : s * L / L = s) by (apply Z.div_mul; lia).
  assert (E2 : ceil_div (s * L) L = s).
  { unfold ceil_div. rewrite <- Z.mul_opp_l, Z.div_mul by lia. lia. }
  rewrite E1, E2. rewrite Z.leb_refl. f_equal. f_equal. lia.
Qed.

(** The frames the ICO writer makes of a square image for square sizes. *)
Lemma ico_frames_of_square (largest : Img rgba) (L : Z) (l : list (Z * Z)) :
  size largest = (L, L) ->
  Forall (λ sz : Z * Z, sz.1 = sz.2 ∧ 1 <= sz.1) l ->
  ico_frames_of largest l =
    Ret ((λ sz : Z * Z, if sz.1 =? L then largest else resample LANCZOS largest sz.1 sz.2)
           <$> filter (λ sz : Z * Z, sz.1 <= L ∧ sz.1 <= 256) l).
Proof.
  intros Hsz Hl. injection Hsz as Hw Hh.
  induction Hl as [|[s s'] l [Hs H1] Hl IH]; [done|].
  simpl in Hs, H1. subst s'.
  cbn [ico_frames_of]. simpl fst. simpl snd. rewrite Hw, Hh. rewrite IH.
  destruct (decide (s <= L ∧ s <= 256)) as [[HsL Hs256]|Hno].
  - rewrite filter_cons_True by done.
    destruct (Z.ltb_spec L s); [lia|]. destruct (Z.ltb_spec 256 s); [lia|]. simpl orb.
    cbn [fmap list_fmap]. simpl fst. simpl snd.
    unfold size_eqb, size. rewrite Hw, Hh. simpl fst. simpl snd.
    destruct (Z.eqb_spec L s) as [->|Hne].
    + simpl. by rewrite Z.eqb_refl.
    + simpl andb. destruct (Z.eqb_spec s L); [lia|].
      unfold thumbnail.
      rewrite (thumbnail_size_square largest L s) by (unfold size; (by rewrite Hw, Hh) || lia).
      unfold resized, size_eqb, size. rewrite Hw, Hh. simpl fst. simpl snd.
      destruct (Z.eqb_spec L s); [lia|]. simpl andb. cbv iota.
      rewrite !c_int_None by (unfold INT_MIN, INT_MAX; lia). cbv iota.
      destruct (Z.ltb_spec s 1); [lia|]. simpl orb. cbv iota.
      by rewrite fits_small by lia.
  - rewrite filter_cons_False by done.
    destruct (Z.ltb_spec L s); [done|]. destruct (Z.ltb_spec 256 s); [|lia].
    by rewrite orb_true_r.
Qed.

Lemma ico_frames_default (largest : Img rgba) :
  size largest = (64, 64) ->
  ico_frames largest ((λ s, (s, s)) <$> default_ico_sizes) =
    Ret [ resample LANCZOS largest 16 16; resample LANCZOS largest 32 32;
          resample LANCZOS largest 48 48; largest ].
Proof.
  intros Hsz. injection Hsz as Hw Hh.
  unfold ico_frames, default_ico_sizes.
  change (sorted_set ((λ s, (s, s)) <$> [16; 32; 48; 64]))
    with [(16, 16); (32, 32); (48, 48); (64, 64)].
  rewrite (ico_frames_of_square largest 64); [by vm_compute|unfold size; by rewrite Hw, Hh|].
  repeat (apply List.Forall_cons; [simpl; lia|]). apply List.Forall_nil.
Qed.

Lemma save_ico_run (base : ref) (im : Img rgba) (dest : string) (w : World) :
  heap w !! base = Some (ORGBA im) ->
  save_ico base dest default_ico_sizes w =
    (Ret tt,
     emit "ico" dest (ico_container (favicon_frames im))
       (grow [ ORGBA (lanczos_square im 16); ORGBA (lanczos_square im 32);
               ORGBA (lanczos_square im 48); ORGBA (lanczos_square im 64) ] w)).
Proof.
  intros Hbase. unfold save_ico, ensure_parent.
  rewrite (bind_run _ _ w w tt) by done.
  unfold default_ico_sizes at 1. cbn [list_comp].
  assert (Hr : ∀ s, 1 <= s <= 64 -> resized im (s, s) LANCZOS = Ret (lanczos_square im s)).
  { intros s Hs. apply resized_square. lia. }
  rewrite !bind_assoc.
  erewrite bind_run; last first.
  { eapply Image_resize_run; [exact Hbase|apply (Hr 16); lia]. }
  rewrite !bind_assoc.
  erewrite bind_run; last first.
  { eapply Image_resize_run; [|apply (Hr 32); lia]. by apply lookup_heap_app. }
  rewrite !bind_assoc.
  erewrite bind_run; last first.
  { eapply Image_resize_run; [|apply (Hr 48); lia].
    simpl heap. by do 2 apply lookup_heap_app. }
  rewrite !bind_assoc.
  erewrite bind_run; last first.
  { eapply Image_resize_run; [|apply (Hr 64); lia].
    simpl heap. by do 3 apply lookup_heap_app. }
  rewrite !bind_assoc.
  do 5 (erewrite (bind_run (ret _)); [|reflexivity]).
  unfold py_last at 1. cbn [last].
  erewrite (bind_run (ret _)); [|reflexivity].
  erewrite bind_run; last first.
  { unfold Image_save_ico. erewrite bind_run; last first.
    { apply load_rgba_run. simpl heap. by rewrite lookup_heap_new0. }
    rewrite ico_frames_default by (apply size_lanczos_square; lia).
    reflexivity. }
  unfold print, write_file, emit, grow, favicon_frames. simpl.
  by rewrite <- !app_assoc.
Qed.

(** C1 (what the code does).  [save_ico] resizes the base to each of the
    four default sizes, keeps those images in the store, and saves only
    the last (64 x 64) one.  The bundle written holds one frame per size,
    but the 16, 32 and 48 frames are resampled by the ICO writer from the
    64 x 64 image, not from the base. *)
Theorem favicon_frames_from_largest (base : ref) (im : Img rgba) (dest : string) (w : World) :
  heap w !! base = Some (ORGBA im) ->
  ∃ r16 r32 r48 largest w',
    resized im (16, 16) LANCZOS = Ret r16 ∧
    resized im (32, 32) LANCZOS = Ret r32 ∧
    resized im (48, 48) LANCZOS = Ret r48 ∧
    resized im (64, 64) LANCZOS = Ret largest ∧
    save_ico base dest default_ico_sizes w = (Ret tt, w') ∧
    heap w' = heap w ++ [ORGBA r16; ORGBA r32; ORGBA r48; ORGBA largest] ∧
    disk w' !! dest =
      Some (ico_container [ resample LANCZOS largest 16 16;
                            resample LANCZOS largest 32 32;
                            resample LANCZOS largest 48 48;
                            largest ]).
Proof.
  intros Hbase.
  exists (lanczos_square im 16), (lanczos_square im 32), (lanczos_square im 48),
         (lanczos_square im 64).
  eexists.
  repeat (split; [apply resized_square; lia|]).
  split; [by apply save_ico_run|].
  split; [done|]. simpl disk. apply lookup_insert_eq.
Qed.

End ScriptFacts.

(** ** The whole run *)

Lemma heap_emit (kind path content : string) (w : World) :
  heap (emit kind path content w) = heap w.
Proof. done. Qed.

Lemma heap_grow (new : list obj) (w : World) : heap (grow new w) = heap w ++ new.
Proof. done. Qed.

Lemma path_exists_run (path content : string) (w : World) :
  disk w !! path = Some content -> path_exists path w = (Ret true, w).
Proof. intros Hp. unfold path_exists. rewrite Hp. by rewrite bool_decide_true. Qed.

Lemma path_missing_run (path : string) (w : World) :
  disk w !! path = None -> path_exists path w = (Ret false, w).
Proof.
  intros Hp. unfold path_exists. rewrite Hp.
  rewrite bool_decide_false; [done|]. by intros [? ?].
Qed.

Section MainFacts.
Context `{Pillow}.
Variable ROOT : string.

Lemma padded_two_thirds (img : ref) (im : Img rgba) (sz : Z) (w : World) :
  heap w !! img = Some (ORGBA im) ->
  sz ∈ [48; 72; 96; 144; 192; 108; 162; 216; 324; 432] ->
  padded img sz two_thirds w =
    (Ret (length (heap w)),
     grow [ORGBA (launcher_icon im sz (sz * 2 / 3));
           ORGBA (lanczos_square im (sz * 2 / 3))] w).
Proof.
  intros Himg Hsz.
  apply (padded_run img im (lanczos_square im (sz * 2 / 3)) sz (sz * 2 / 3)); [done|..];
    repeat (apply elem_of_cons in Hsz as [->|Hsz]); try (by apply elem_of_nil in Hsz);
    first [ by vm_compute | apply fits_small; lia | apply resized_square; by vm_compute ].
Qed.

Lemma notification_icon_run (base : ref) (im : Img rgba) (w : World) :
  heap w !! base = Some (ORGBA im) ->
  notification_icon base w =
    (Ret (length (heap w)),
     grow [ORGBA (launcher_icon im 96 96); ORGBA (lanczos_square im 96)] w).
Proof.
  intros Hbase. rewrite notification_icon_is_padded_aux.
  apply (padded_run base im (lanczos_square im 96) 96 96); [done|..];
    first [ by vm_compute | apply fits_small; lia | apply resized_square; by vm_compute ].
Qed.

Lemma Image_resize_grow (img : ref) (im : Img rgba) (s : Z) (w : World) :
  heap w !! img = Some (ORGBA im) ->
  1 <= s -> fits s s = true ->
  Image_resize img (s, s) LANCZOS w =
    (Ret (length (heap w)), grow [ORGBA (lanczos_square im s)] w).
Proof.
  intros Himg Hs Hf. eapply Image_resize_run; [done|]. by apply resized_square_fits.
Qed.

Lemma png_under_root (rel : string) :
  extension rel = ".png" -> extension (under_root ROOT rel) = ".png".
Proof. intros Hrel. unfold under_root. by rewrite extension_under. Qed.

Lemma png_launcher_path (folder name : string) :
  extension name = ".png" -> extension (launcher_path ROOT folder name) = ".png".
Proof. intros Hn. unfold launcher_path. by rewrite !extension_under. Qed.

(** *** Stages of a run

    After the source is loaded and rounded, every step of [main] keeps the
    two images where they are in the store, only ever allocates, and
    extends the list of artifacts written so far. *)

Variables (w0 : World) (base rounded_img : ref) (im rim : Img rgba).

#[local] Abbreviation stage := (at_stage w0 base rounded_img im rim).

Lemma returns_bind {A B} (P : World -> Prop) (m : M A) (Q : A -> World -> Prop)
    (k : A -> M B) (R : B -> World -> Prop) :
  returns P m Q -> (∀ a, returns (Q a) (k a) R) -> returns P (bind m k) R.
Proof.
  intros Hm Hk w HP. destruct (Hm w HP) as (a & w1 & Em & HQ).
  destruct (Hk a w1 HQ) as (b & w2 & Ek & HR).
  exists b, w2. split; [|done]. by rewrite (bind_run _ _ _ _ _ Em).
Qed.

Lemma returns_ret (P : World -> Prop) : returns P (ret tt) (λ _, P).
Proof. intros w HP. by exists tt, w. Qed.

Lemma returns_weaken {A} (P : World -> Prop) (m : M A) (Q Q' : A -> World -> Prop) :
  returns P m Q' -> (∀ a w, Q' a w -> Q a w) -> returns P m Q.
Proof.
  intros Hm HQ w HP. destruct (Hm w HP) as (a & w1 & Em & HQ').
  exists a, w1. split; [done|]. by apply HQ.
Qed.

Lemma at_stage_emit (written : list (string * string * string))
    (kind path content : string) (w : World) :
  stage written w ->
  stage (written ++ [(kind, path, content)]) (emit kind path content w).
Proof.
  intros (Hb & Hr & Hn & Hd & Ho). unfold at_stage, emit. simpl.
  split; [done|]. split; [done|]. split; [done|].
  unfold write_all, progress. rewrite foldl_app, fmap_app. simpl.
  split; [by rewrite Hd | by rewrite Ho, app_assoc].
Qed.

Lemma at_stage_grow (written : list (string * string * string))
    (new : list obj) (w : World) :
  stage written w -> stage written (grow new w).
Proof.
  intros (Hb & Hr & (old & Hn) & Hd & Ho). unfold at_stage, grow. simpl.
  split; [by apply lookup_heap_app|]. split; [by apply lookup_heap_app|].
  split; [|done]. exists (old ++ new). by rewrite Hn, app_assoc.
Qed.

Lemma stage_svg_base (written : list (string * string * string)) (dest : string) :
  returns (stage written) (save_svg_from_png base dest)
          (λ _, stage (written ++ [("svg", dest, svg_of im)])).
Proof.
  intros w Hs. eexists tt, _. split.
  - apply save_svg_from_png_run. apply Hs.
  - by apply at_stage_emit.
Qed.

Lemma stage_svg_rounded (written : list (string * string * string)) (dest : string) :
  returns (stage written) (save_svg_from_png rounded_img dest)
          (λ _, stage (written ++ [("svg", dest, svg_of rim)])).
Proof.
  intros w Hs. eexists tt, _. split.
  - apply save_svg_from_png_run. apply Hs.
  - by apply at_stage_emit.
Qed.

Lemma stage_png_base (written : list (string * string * string)) (dest : string) :
  extension dest = ".png" ->
  returns (stage written) (save_png base dest)
          (λ _, stage (written ++ [("png", dest, png_encode im)])).
Proof.
  intros Hext w Hs. eexists tt, _. split.
  - apply save_png_run; [apply Hs|done].
  - by apply at_stage_emit.
Qed.

Lemma stage_png_resized (written : list (string * string * string)) (dest : string) (sz : Z) :
  1 <= sz <= 512 -> extension dest = ".png" ->
  returns (stage written)
          (img <- Image_resize base (sz, sz) LANCZOS ;; save_png img dest)
          (λ _, stage (written ++ [("png", dest, png_encode (lanczos_square im sz))])).
Proof.
  intros Hsz Hext w Hs. eexists tt, _. split.
  - erewrite bind_run; [|apply Image_resize_grow; [apply Hs|lia|apply fits_small; lia]].
    apply save_png_run; [|done]. rewrite heap_grow. by rewrite lookup_heap_new0.
  - by apply at_stage_emit, at_stage_grow.
Qed.

Lemma stage_ico (written : list (string * string * string)) (dest : string) :
  returns (stage written) (save_ico base dest default_ico_sizes)
          (λ _, stage (written ++ [("ico", dest, ico_container (favicon_frames im))])).
Proof.
  intros w Hs. eexists tt, _. split.
  - apply save_ico_run. apply Hs.
  - by apply at_stage_emit, at_stage_grow.
Qed.

Lemma stage_classic (written : list (string * string * string)) (folder : string) (sz : Z) :
  sz ∈ [48; 72; 96; 144; 192; 108; 162; 216; 324; 432] ->
  returns (stage written)
          (icon <- padded base sz two_thirds ;;
           for_each ["ic_launcher.png"; "ic_launcher_round.png"] (λ name,
             save_png icon (res_root ROOT +:+ "/" +:+ folder +:+ "/" +:+ name)))
          (λ _, stage
             ((written ++ [("png", launcher_path ROOT folder "ic_launcher.png",
                            png_encode (launcher_icon im sz (sz * 2 / 3)))])
                       ++ [("png", launcher_path ROOT folder "ic_launcher_round.png",
                            png_encode (launcher_icon im sz (sz * 2 / 3)))])).
Proof.
  intros Hsz w Hs. eexists tt, _. split.
  - erewrite bind_run; [|apply padded_two_thirds; [apply Hs|done]].
    cbn [for_each].
    erewrite bind_run; last first.
    { apply save_png_run; [|apply png_launcher_path; by vm_compute].
      rewrite heap_grow. by rewrite lookup_heap_new0. }
    erewrite bind_run; last first.
    { apply save_png_run; [|apply png_launcher_path; by vm_compute].
      rewrite heap_emit, heap_grow. by rewrite lookup_heap_new0. }
    reflexivity.
  - by apply at_stage_emit, at_stage_emit, at_stage_grow.
Qed.

Lemma stage_foreground (written : list (string * string * string)) (folder : string) (sz : Z) :
  sz ∈ [48; 72; 96; 144; 192; 108; 162; 216; 324; 432] ->
  returns (stage written)
          (icon <- padded base sz two_thirds ;;
           save_png icon (res_root ROOT +:+ "/" +:+ folder +:+ "/" +:+ "ic_launcher_foreground.png"))
          (λ _, stage
             (written ++ [("png", launcher_path ROOT folder "ic_launcher_foreground.png",
                           png_encode (launcher_icon im sz (sz * 2 / 3)))])).
Proof.
  intros Hsz w Hs. eexists tt, _. split.
  - erewrite bind_run; [|apply padded_two_thirds; [apply Hs|done]].
    apply save_png_run; [|apply png_launcher_path; by vm_compute].
    rewrite heap_grow. by rewrite lookup_heap_new0.
  - by apply at_stage_emit, at_stage_grow.
Qed.

Lemma stage_ensure_parent (written : list (string * string * string)) (path : string) :
  returns (stage written) (ensure_parent path) (λ _, stage written).
Proof. intros w Hs. by exists tt, w. Qed.

Lemma stage_xml {A} (written : list (string * string * string)) (path content : string)
    (k : M A) (R : A -> World -> Prop) :
  returns (stage (written ++ [("xml", path, content)])) k R ->
  returns (stage written) (write_file path content ;;; print ("xml -> " +:+ path) ;;; k) R.
Proof.
  intros Hk w Hs.
  destruct (Hk (emit "xml" path content w)) as (a & w' & Ek & HR);
    [by apply at_stage_emit|].
  by exists a, w'.
Qed.

Lemma stage_notification (written : list (string * string * string)) :
  returns (stage written)
          (notif <- notification_icon base ;;
           save_png notif (res_root ROOT +:+ "/" +:+ "drawable/ic_stat_tasktrove.png") ;;;
           print "done")
          (λ _ w,
             let all := written ++
               [("png", res_root ROOT +:+ "/" +:+ "drawable/ic_stat_tasktrove.png",
                 png_encode (launcher_icon im 96 96))] in
             (∃ new, heap w = heap w0 ++ new) ∧
             disk w = write_all all (disk w0) ∧
             stdout w = stdout w0 ++ progress all ++ ["done"]).
Proof.
  intros w Hs. eexists tt, _. split.
  - erewrite bind_run; [|apply notification_icon_run; apply Hs].
    erewrite bind_run; last first.
    { apply save_png_run; [|rewrite extension_under; by vm_compute].
      rewrite heap_grow. by rewrite lookup_heap_new0. }
    reflexivity.
  - cbv zeta.
    pose proof (at_stage_emit _ "png"
      (res_root ROOT +:+ "/" +:+ "drawable/ic_stat_tasktrove.png")
      (png_encode (launcher_icon im 96 96)) _
      (at_stage_grow _ [ORGBA (launcher_icon im 96 96); ORGBA (lanczos_square im 96)] _ Hs))
      as (_ & _ & Hn & Hd & Ho).
    split; [exact Hn|]. split; [exact Hd|].
    simpl stdout. simpl stdout in Ho. rewrite Ho. by rewrite <- app_assoc.
Qed.

End MainFacts.

Section MainRun.
Context `{Pillow}.
Variable ROOT : string.

Lemma returns_apply {A} (P : World -> Prop) (m : M A) (Q : A -> World -> Prop) (w : World) :
  returns P m Q -> P w -> ∃ a w', m w = (Ret a, w') ∧ Q a w'.
Proof. intros Hm HP. by apply Hm. Qed.

Ltac side :=
  first [ by vm_compute
        | apply png_under_root; by vm_compute
        | repeat (apply elem_of_cons; first [ by left | right ]) ].

Ltac chain :=
  lazymatch goal with
  | |- returns _ (ret tt) _ => apply returns_ret
  | |- returns _ (bind (write_file _ _) _) _ => apply stage_xml; chain
  | |- returns _ (bind (notification_icon _) _) _ => apply stage_notification
  | |- returns _ (bind (Image_resize _ _ _) _) _ => apply stage_png_resized; side
  | |- returns _ (bind (padded _ _ _) _) _ =>
      first [ apply stage_classic; side | apply stage_foreground; side ]
  | |- returns _ (bind _ _) _ => eapply returns_bind; [ chain | intros ?; chain ]
  | |- returns _ (save_svg_from_png _ _) _ =>
      first [ apply stage_svg_base | apply stage_svg_rounded ]
  | |- returns _ (save_png _ _) _ => apply stage_png_base; side
  | |- returns _ (save_ico _ _ _) _ => apply stage_ico
  | |- returns _ (ensure_parent _) _ => apply stage_ensure_parent
  end.

(** A run on an existing, decodable source with a radius fraction in
    (0, 0.5]: it returns normally, having written exactly [artifacts] and
    printed one line for each, then [done]. *)
Lemma main_run (args : Namespace) (content : string) (im : Img rgba) (w : World) :
  disk w !! source args = Some content ->
  image_open content = Some im ->
  0 <= width im <= INT_MAX -> 0 <= height im <= INT_MAX ->
  PyFloat.radius_fraction (radius args) = true ->
  ∃ r w',
    int_product (Z.min (width im) (height im)) (radius args) = Some r ∧
    main ROOT args w = (Ret tt, w') ∧
    (∃ new, heap w' = heap w ++ new) ∧
    disk w' = write_all (artifacts ROOT im r) (disk w) ∧
    stdout w' = stdout w ++ progress (artifacts ROOT im r) ++ ["done"].
Proof.
  intros Hsrc Hopen Hw Hh Hrad.
  pose (w1 := grow [ORGBA im] w).
  assert (Hb1 : heap w1 !! length (heap w) = Some (ORGBA im)).
  { unfold w1. rewrite heap_grow. by rewrite lookup_heap_new0. }
  destruct (rounded_result _ _ (radius args) w1 Hb1 Hw Hh Hrad) as (r & Hr & _ & Hrun).
  exists r.
  pose (w2 := grow [OL (rounded_mask (width im) (height im) r); ORGBA (rounded_image im r)] w1).
  assert (Hstage : at_stage w (length (heap w)) (S (length (heap w1))) im (rounded_image im r) [] w2).
  { unfold at_stage, w2. rewrite heap_grow. split; [by apply lookup_heap_app|]. split.
    { replace (S (length (heap w1))) with (length (heap w1) + 1)%nat by lia.
      by rewrite lookup_heap_new. }
    split; [|split; [done|simpl; by rewrite app_nil_r]].
    unfold w1. rewrite heap_grow, <- app_assoc. by eexists. }
  assert (Hload : Image_open_RGBA (source args) w = (Ret (length (heap w)), w1)).
  { unfold Image_open_RGBA, read_file. erewrite (bind_run _ _ w w); [|reflexivity].
    rewrite Hsrc. cbn [mbind option_bind]. rewrite Hopen. reflexivity. }
  assert (Hrun' : rounded (length (heap w)) (radius args) w1 = (Ret (S (length (heap w1))), w2))
    by exact Hrun.
  clearbody w2. clear Hrun Hb1. clearbody w1.
  enough (Hgoal : ∃ (a : unit) w', main ROOT args w = (Ret a, w') ∧
            ((∃ new, heap w' = heap w ++ new) ∧
             disk w' = write_all (artifacts ROOT im r) (disk w) ∧
             stdout w' = stdout w ++ progress (artifacts ROOT im r) ++ ["done"])).
  { destruct Hgoal as ([] & w' & Hm & Hq). by exists w'. }
  unfold main.
  rewrite (bind_run _ _ _ _ _ (path_exists_run _ _ _ Hsrc)). cbn [negb].
  rewrite (bind_run _ _ _ _ _ Hload). rewrite (bind_run _ _ _ _ _ Hrun').
  unfold tasktrove_icon_copies, icon0_targets, icon_rounded_targets, png_sizes,
    favicon_targets, classic, foreground.
  cbn [for_each]. cbv zeta.
  eapply returns_apply; [|exact Hstage].
  eapply returns_weaken; [chain|].
  intros u w' Hpost. exact Hpost.
Qed.

End MainRun.

(** ** Reading the disk after a run *)

Lemma write_all_lookup (arts : list (string * string * string)) (d : gmap string string)
    (path : string) :
  write_all arts d !! path = or_else (final_write path arts) (d !! path).
Proof.
  induction arts as [|[[k q] c] arts IH] using rev_ind; [done|].
  unfold write_all, final_write in *. rewrite !foldl_app. simpl.
  destruct (String.eqb_spec q path) as [->|Hne].
  - by rewrite lookup_insert_eq.
  - by rewrite lookup_insert_ne.
Qed.

Lemma eqb_append_l (r a b : string) : String.eqb (r +:+ a) (r +:+ b) = String.eqb a b.
Proof.
  induction r as [|c r IH]; [done|].
  cbn [String.append String.eqb]. by rewrite Ascii.eqb_refl.
Qed.

Lemma final_write_rooted (root path : string) (arts : list (string * string * string)) :
  final_write (root +:+ path) (rooted root arts) = final_write path arts.
Proof.
  unfold final_write, rooted. generalize (@None string) as acc.
  induction arts as [|[[k q] c] arts IH]; intros acc; [done|].
  simpl. rewrite eqb_append_l. apply IH.
Qed.

Section Paths.
Context `{Pillow}.
Variable ROOT : string.

Lemma under_root_rooted (rel : string) : under_root ROOT rel = ROOT +:+ under_root "" rel.
Proof. done. Qed.

Lemma append_assoc (a b c : string) : (a +:+ b) +:+ c = a +:+ (b +:+ c).
Proof. induction a as [|x a IH]; [done|]. cbn [String.append]. by rewrite IH. Qed.

Lemma res_path_rooted (rest : string) :
  res_root ROOT +:+ rest = ROOT +:+ (res_root "" +:+ rest).
Proof. unfold res_root, under_root. by rewrite !append_assoc. Qed.

Lemma launcher_path_rooted (folder name : string) :
  launcher_path ROOT folder name = ROOT +:+ launcher_path "" folder name.
Proof. unfold launcher_path. apply res_path_rooted. Qed.

Lemma artifacts_rooted (im : Img rgba) (r : Z) :
  artifacts ROOT im r = rooted ROOT (artifacts "" im r).
Proof.
  unfold artifacts, rooted, tasktrove_icon_copies, icon0_targets, icon_rounded_targets,
    png_sizes, favicon_targets, classic, foreground.
  cbn [fmap list_fmap app mbind list_bind].
  rewrite !launcher_path_rooted, !res_path_rooted. reflexivity.
Qed.

End Paths.

(** ** Claims about [main] *)

Section MainClaims.
Context `{Pillow}.
Variable ROOT : string.

Lemma main_writes (args : Namespace) (im : Img rgba) (w : World) :
  usable_source args im w ->
  PyFloat.radius_fraction (radius args) = true ->
  ∃ r w',
    int_product (Z.min (width im) (height im)) (radius args) = Some r ∧
    main ROOT args w = (Ret tt, w') ∧
    (∃ new, heap w' = heap w ++ new) ∧
    disk w' = write_all (artifacts ROOT im r) (disk w) ∧
    stdout w' = stdout w ++ progress (artifacts ROOT im r) ++ ["done"].
Proof.
  intros ((content & Hsrc & Hopen) & Hw & Hh) Hrad. by eapply main_run.
Qed.

Lemma lookup_written (arts : list (string * string * string))
    (d1 d2 : gmap string string) (path content : string) :
  final_write path arts = Some content ->
  write_all arts d1 !! path = Some content ∧ write_all arts d2 !! path = Some content.
Proof. intros Hf. by rewrite !write_all_lookup, Hf. Qed.

(** C5.  The run is deterministic: two runs on any two stores whose
    source decodes to the same image, with the same radius fraction,
    write the same list of artifacts (same destinations, byte-identical
    contents, same order) and print the same lines; the list is a function
    of the decoded source and the radius alone.  Every written destination
    holds the same bytes after either run. *)
Theorem main_deterministic (args : Namespace) (im : Img rgba) (w1 w2 : World) :
  usable_source args im w1 ->
  usable_source args im w2 ->
  PyFloat.radius_fraction (radius args) = true ->
  ∃ r w1' w2',
    int_product (Z.min (width im) (height im)) (radius args) = Some r ∧
    main ROOT args w1 = (Ret tt, w1') ∧
    main ROOT args w2 = (Ret tt, w2') ∧
    disk w1' = write_all (artifacts ROOT im r) (disk w1) ∧
    disk w2' = write_all (artifacts ROOT im r) (disk w2) ∧
    stdout w1' = stdout w1 ++ progress (artifacts ROOT im r) ++ ["done"] ∧
    stdout w2' = stdout w2 ++ progress (artifacts ROOT im r) ++ ["done"] ∧
    ∀ path content,
      final_write path (artifacts ROOT im r) = Some content ->
      disk w1' !! path = Some content ∧ disk w2' !! path = Some content.
Proof.
  intros Hs1 Hs2 Hrad.
  destruct (main_writes args im w1 Hs1 Hrad) as (r & w1' & Hr & Hm1 & _ & Hd1 & Ho1).
  destruct (main_writes args im w2 Hs2 Hrad) as (r' & w2' & Hr' & Hm2 & _ & Hd2 & Ho2).
  rewrite Hr in Hr'. injection Hr' as <-.
  exists r, w1', w2'. repeat (split; [done|]).
  intros path content Hf. rewrite Hd1, Hd2. by apply lookup_written.
Qed.

(** C6.  If the source path does not exist, [main] raises [SystemExit]
    with the message "Source not found: <path>" (exit status 1) and leaves
    the store, the disk and the output untouched: no transform has run and
    no artifact is written.  If the source exists and decodes, with a
    radius fraction in (0, 0.5], [main] returns, having printed one
    progress line per artifact written, 39 in all, and then [done]. *)
Theorem main_exit_behaviour (args : Namespace) (w : World) :
  (disk w !! source args = None ->
   main ROOT args w = (Raise (SystemExit ("Source not found: " +:+ source args)), w) ∧
   exit_status (main ROOT args w).1 = 1) ∧
  (∀ im, usable_source args im w ->
         PyFloat.radius_fraction (radius args) = true ->
         ∃ arts w',
           main ROOT args w = (Ret tt, w') ∧
           exit_status (main ROOT args w).1 = 0 ∧
           disk w' = write_all arts (disk w) ∧
           stdout w' = stdout w ++ progress arts ++ ["done"] ∧
           length (progress arts) = length arts ∧
           length arts = 39%nat).
Proof.
  split.
  - intros Hmiss.
    assert (E : main ROOT args w
                = (Raise (SystemExit ("Source not found: " +:+ source args)), w)).
    { unfold main. by rewrite (bind_run _ _ _ _ _ (path_missing_run _ _ Hmiss)). }
    by rewrite E.
  - intros im Hs Hrad.
    destruct (main_writes args im w Hs Hrad) as (r & w' & Hr & Hm & _ & Hd & Ho).
    exists (artifacts ROOT im r), w'. rewrite Hm.
    repeat split; try done.
Qed.

(** C8.  For each of the five classic launcher densities (48, 72, 96,
    144, 192), after a run the standard destination [ic_launcher.png] and
    the round destination [ic_launcher_round.png] hold identical content:
    the PNG encoding of the one image [padded] built for that density at
    scale fraction 2/3. *)
Theorem launcher_round_identical (args : Namespace) (im : Img rgba) (w : World)
    (folder : string) (sz : Z) :
  usable_source args im w ->
  PyFloat.radius_fraction (radius args) = true ->
  (folder, sz) ∈ classic ->
  ∃ w' inner,
    main ROOT args w = (Ret tt, w') ∧
    int_product sz two_thirds = Some inner ∧
    disk w' !! (res_root ROOT +:+ "/" +:+ folder +:+ "/" +:+ "ic_launcher.png")
      = Some (png_encode (padded_image (lanczos_square im inner) sz inner)) ∧
    disk w' !! (res_root ROOT +:+ "/" +:+ folder +:+ "/" +:+ "ic_launcher_round.png")
      = Some (png_encode (padded_image (lanczos_square im inner) sz inner)).
Proof.
  intros Hs Hrad Hin.
  destruct (main_writes args im w Hs Hrad) as (r & w' & Hr & Hm & _ & Hd & Ho).
  exists w', (sz * 2 / 3). split; [done|].
  rewrite Hd, !write_all_lookup, (artifacts_rooted ROOT), !(res_path_rooted ROOT),
    !final_write_rooted.
  unfold classic in Hin.
  repeat (apply elem_of_cons in Hin as [[= -> ->]|Hin]);
    try (by apply elem_of_nil in Hin);
    (split; [by vm_compute|]); split; reflexivity.
Qed.

End MainClaims.

(** * Further properties of the helpers

    The claims above fix the behaviour of the helpers on the inputs of the
    specification.  This part follows the code outside them: how the
    helpers fail, what they leave alone, and how they compose. *)

(** ** Lists of sizes and of artifacts *)

Lemma tabulate_ext {P} (w h : Z) (f g : Z -> Z -> P) :
  (∀ x y, 0 <= x < w -> 0 <= y < h -> f x y = g x y) -> tabulate w h f = tabulate w h g.
Proof.
  intros Hfg. unfold tabulate. f_equal.
  apply list_fmap_ext. intros i y Hy.
  apply lookup_seqZ in Hy as [-> Hi].
  apply list_fmap_ext. intros j x Hx.
  apply lookup_seqZ in Hx as [-> Hj].
  apply Hfg; lia.
Qed.

Lemma elem_of_insert_size (a b : Z * Z) (l : list (Z * Z)) :
  b ∈ insert_size a l <-> b = a ∨ b ∈ l.
Proof.
  induction l as [|c l IH]; simpl.
  - rewrite elem_of_cons. split; (intros [?|?]; [by left|by right]).
  - destruct (size_eqb a c) eqn:E.
    + apply size_eqb_eq in E as ->. rewrite elem_of_cons.
      split; [by right|]. by intros [->|?]; [left|].
    + destruct (size_ltb a c); [by rewrite elem_of_cons|].
      rewrite !elem_of_cons, IH. split; [intros [?|[?|?]]|intros [?|[?|?]]]; auto.
Qed.

(** [sorted(set(sizes))] holds exactly the requested sizes. *)
Lemma elem_of_sorted_set (b : Z * Z) (l : list (Z * Z)) : b ∈ sorted_set l <-> b ∈ l.
Proof.
  unfold sorted_set. induction l as [|a l IH]; simpl; [done|].
  by rewrite elem_of_insert_size, IH, elem_of_cons.
Qed.

Lemma final_write_app (path : string) (arts : list (string * string * string))
    (k q c : string) :
  final_write path (arts ++ [(k, q, c)]) =
    if String.eqb q path then Some c else final_write path arts.
Proof. unfold final_write. by rewrite foldl_app. Qed.

(** A path no artifact names is never written. *)
Lemma final_write_None (path : string) (arts : list (string * string * string)) :
  path ∉ artifact_path <$> arts -> final_write path arts = None.
Proof.
  induction arts as [|[[k q] c] arts IH] using rev_ind; [done|].
  rewrite fmap_app, final_write_app. intros Hnot.
  destruct (String.eqb_spec q path) as [->|Hne].
  - exfalso. apply Hnot. apply elem_of_app. right. by apply list_elem_of_singleton.
  - apply IH. intros Hin. apply Hnot. apply elem_of_app. by left.
Qed.

Lemma final_write_is_Some (path : string) (arts : list (string * string * string)) :
  path ∈ artifact_path <$> arts -> is_Some (final_write path arts).
Proof.
  induction arts as [|[[k q] c] arts IH] using rev_ind; [by intros ?%elem_of_nil|].
  rewrite fmap_app, final_write_app. intros Hin.
  destruct (String.eqb_spec q path) as [->|Hne]; [by eexists|].
  apply IH. apply elem_of_app in Hin as [Hin|Hin]; [done|].
  apply list_elem_of_singleton in Hin. by simplify_eq.
Qed.

(** When no two artifacts share a destination, each one is the last write
    to its path. *)
Lemma final_write_NoDup (arts : list (string * string * string)) (k q c : string) :
  NoDup (artifact_path <$> arts) -> (k, q, c) ∈ arts -> final_write q arts = Some c.
Proof.
  induction arts as [|[[k' q'] c'] arts IH] using rev_ind; [by intros _ ?%elem_of_nil|].
  rewrite fmap_app, final_write_app. intros Hnd Hin.
  apply NoDup_app in Hnd as (Hnd & Hdisj & _).
  destruct (String.eqb_spec q' q) as [->|Hne].
  - apply elem_of_app in Hin as [Hin|Hin].
    + exfalso. apply (Hdisj q).
      * apply list_elem_of_fmap. by exists (k, q, c).
      * by apply list_elem_of_singleton.
    + apply list_elem_of_singleton in Hin. by simplify_eq.
  - apply elem_of_app in Hin as [Hin|Hin]; [by apply IH|].
    apply list_elem_of_singleton in Hin. by simplify_eq.
Qed.

Lemma write_all_idem (arts : list (string * string * string)) (d : gmap string string) :
  write_all arts (write_all arts d) = write_all arts d.
Proof.
  apply map_eq. intros path. rewrite !write_all_lookup.
  by destruct (final_write path arts).
Qed.

Lemma append_inj_l (r a b : string) : r +:+ a = r +:+ b -> a = b.
Proof. induction r as [|c r IH]; [done|]. cbn [String.append]. intros [= E]. by apply IH. Qed.

(** ** The base64 payload *)

(** X5.  [base64.b64encode] writes four characters for every three bytes,
    a last group of one or two bytes included: the payload of the data URI
    is [4 * ceil(n / 3)] characters long for [n] bytes of PNG. *)
Theorem b64encode_length (s : string) :
  Z.of_nat (String.length (Base64.encode s)) = 4 * ((Z.of_nat (String.length s) + 2) / 3).
Proof.
  induction s as [|a|a b|a b c s IH] using three_ind; try done.
  cbn [Base64.encode String.length].
  rewrite !Nat2Z.inj_succ, IH. lia.
Qed.

(** X6.  Every character of the payload is a letter, a digit, [+], [/] or
    the padding [=]: the payload holds no quote, so it cannot end the
    [href='...'] attribute the script wraps it in. *)
Theorem b64encode_alphabet (s : string) (c : ascii) :
  c ∈ list_ascii_of_string (Base64.encode s) ->
  (is_Some (Base64.index_of c) ∨ c = Base64.pad) ∧ c ≠ "'"%char.
Proof.
  pose proof (encode_alphabet s) as Ha. revert Ha.
  generalize (Base64.encode s) as t. intros t. induction t as [|d t IH]; simpl.
  - by intros _ ?%elem_of_nil.
  - intros Hd Hin. apply andb_prop in Hd as [Hd Ht].
    apply elem_of_cons in Hin as [->|Hin]; [|by apply IH].
    split.
    + unfold base64_char in Hd. apply orb_prop in Hd as [Hd|Hd].
      * left. by apply bool_decide_eq_true in Hd.
      * right. by apply Ascii.eqb_eq in Hd.
    + intros ->. by vm_compute in Hd.
Qed.

Section HelperFacts.
Context `{Pillow}.

(** ** [save_png] and [save_svg_from_png] *)

(** X1.  [save_png] on a destination whose extension is [.png], as
    [os.path.splitext] gives it and in lower case, writes the PNG encoding
    of the image there, prints the one line [png -> <dest>], and changes
    nothing else: no image of the store and no other file. *)
Theorem save_png_effect (img : ref) (im : Img rgba) (dest : string) (w : World) :
  heap w !! img = Some (ORGBA im) ->
  extension dest = ".png" ->
  ∃ w',
    save_png img dest w = (Ret tt, w') ∧
    heap w' = heap w ∧
    disk w' !! dest = Some (png_encode im) ∧
    (∀ path, path ≠ dest -> disk w' !! path = disk w !! path) ∧
    stdout w' = stdout w ++ ["png -> " +:+ dest].
Proof.
  intros Himg Hext. eexists. split; [by apply save_png_run|].
  unfold emit. simpl. split; [done|]. split; [apply lookup_insert_eq|].
  split; [|done]. intros path Hne. by apply lookup_insert_ne.
Qed.

(** X7.  [save_svg_from_png] writes its document to any destination,
    whatever its name (the text is written as is, no encoder is chosen
    from the extension), prints the one line [svg -> <dest>], and changes
    no image of the store and no other file. *)
Theorem save_svg_from_png_effect (img : ref) (im : Img rgba) (dest : string) (w : World) :
  heap w !! img = Some (ORGBA im) ->
  ∃ w',
    save_svg_from_png img dest w = (Ret tt, w') ∧
    heap w' = heap w ∧
    disk w' !! dest = Some (svg_text (width im) (height im) (Base64.encode (png_encode im))) ∧
    (∀ path, path ≠ dest -> disk w' !! path = disk w !! path) ∧
    stdout w' = stdout w ++ ["svg -> " +:+ dest].
Proof.
  intros Himg. exists (emit "svg" dest (svg_of im) w).
  split; [by apply save_svg_from_png_run|].
  unfold emit. simpl. split; [done|]. split; [apply lookup_insert_eq|].
  split; [intros path Hne; by apply lookup_insert_ne|done].
Qed.

(** ** [save_ico] on any list of sizes *)

(** A resize that returns gives the one image [lanczos_square]. *)
Lemma resized_Ret (im im' : Img rgba) (s : Z) :
  resized im (s, s) LANCZOS = Ret im' -> im' = lanczos_square im s.
Proof.
  unfold resized, lanczos_square. destruct (size_eqb (size im) (s, s)); [by intros [= <-]|].
  simpl fst. simpl snd. destruct (c_int s); [done|].
  destruct (_ || _); [done|]. destruct (fits s s); [by intros [= <-]|done].
Qed.

Lemma resized_below_one (im : Img rgba) (s : Z) (f : Resampling) :
  1 <= width im -> INT_MIN <= s < 1 ->
  resized im (s, s) f = Raise (ValueError "height and width must be > 0").
Proof.
  intros Hw Hs. unfold resized, size_eqb, size. simpl.
  destruct (Z.eqb_spec (width im) s); [lia|]. simpl.
  rewrite c_int_None by (unfold INT_MAX; lia).
  by destruct (Z.ltb_spec s 1); [|lia].
Qed.

Lemma resized_below_one_raises (im : Img rgba) (s : Z) (f : Resampling) :
  1 <= width im -> s < 1 -> ∃ e, resized im (s, s) f = Raise e.
Proof.
  intros Hw Hs. destruct (Z_lt_le_dec s INT_MIN) as [Hlt|Hge].
  - destruct (c_int_below s Hlt) as (msg & Hc). eexists.
    unfold resized, size_eqb, size. simpl.
    destruct (Z.eqb_spec (width im) s); [lia|]. simpl. by rewrite Hc.
  - eexists. by apply resized_below_one.
Qed.

(** Every resize returns [lanczos_square] or raises. *)
Lemma resized_cases (im : Img rgba) (s : Z) :
  resized im (s, s) LANCZOS = Ret (lanczos_square im s)
  ∨ ∃ e, resized im (s, s) LANCZOS = Raise e.
Proof.
  destruct (resized im (s, s) LANCZOS) as [im'|e] eqn:E; [left|right; by exists e].
  by rewrite (resized_Ret _ _ _ E).
Qed.

(** The list comprehension of [save_ico]: one new image per size, in order. *)
Lemma list_comp_resize (base : ref) (im : Img rgba) (sizes : list Z) (w : World) :
  heap w !! base = Some (ORGBA im) ->
  Forall (λ s, resized im (s, s) LANCZOS = Ret (lanczos_square im s)) sizes ->
  list_comp sizes (λ s, Image_resize base (s, s) LANCZOS) w =
    (Ret (seq (length (heap w)) (length sizes)),
     grow ((λ s, ORGBA (lanczos_square im s)) <$> sizes) w).
Proof.
  intros Hbase Hs. revert w Hbase.
  induction Hs as [|s sizes Hs _ IH]; intros w Hbase.
  - simpl. unfold ret, grow. rewrite app_nil_r. by destruct w.
  - cbn [list_comp].
    rewrite (bind_run _ _ _ _ _ (Image_resize_run base im _ _ _ w Hbase Hs)).
    assert (Hbase' : heap (grow [ORGBA (lanczos_square im s)] w) !! base = Some (ORGBA im))
      by (rewrite heap_grow; by apply lookup_heap_app).
    rewrite (bind_run _ _ _ _ _ (IH _ Hbase')).
    unfold ret, grow. simpl. rewrite length_app. simpl.
    rewrite <- app_assoc. simpl.
    by replace (length (heap w) + 1)%nat with (S (length (heap w))) by lia.
Qed.

(** It stops at the first resize that raises, with the images made so far
    in the store. *)
Lemma list_comp_resize_raises (P : exn -> Prop) (base : ref) (im : Img rgba)
    (sizes : list Z) (w : World) :
  heap w !! base = Some (ORGBA im) ->
  Forall (λ s, resized im (s, s) LANCZOS = Ret (lanczos_square im s)
               ∨ ∃ e, resized im (s, s) LANCZOS = Raise e ∧ P e) sizes ->
  Exists (λ s, ∃ e, resized im (s, s) LANCZOS = Raise e) sizes ->
  ∃ e new, P e ∧
    list_comp sizes (λ s, Image_resize base (s, s) LANCZOS) w = (Raise e, grow new w).
Proof.
  intros Hbase Hs Hex. revert w Hbase.
  induction Hs as [|s sizes Hs Hrest IH]; intros w Hbase.
  - by apply Exists_nil in Hex.
  - cbn [list_comp]. destruct Hs as [Hok|(e & Hraise & He)].
    + apply Exists_cons in Hex as [(e & Hraise)|Hex]; [by rewrite Hok in Hraise|].
      rewrite (bind_run _ _ _ _ _ (Image_resize_run base im _ _ _ w Hbase Hok)).
      assert (Hbase' : heap (grow [ORGBA (lanczos_square im s)] w) !! base = Some (ORGBA im))
        by (rewrite heap_grow; by apply lookup_heap_app).
      destruct (IH Hex _ Hbase') as (e & new & He & Hrun).
      exists e, (ORGBA (lanczos_square im s) :: new). split; [done|].
      erewrite bind_raise; [|exact Hrun].
      unfold grow. simpl. by rewrite <- app_assoc.
    + exists e, []. split; [done|]. erewrite bind_raise; last first.
      { eapply Image_resize_raise; [done|exact Hraise]. }
      unfold grow. rewrite app_nil_r. by destruct w.
Qed.

Lemma save_ico_raises (P : exn -> Prop) (base : ref) (im : Img rgba) (dest : string)
    (sizes : list Z) (w : World) :
  heap w !! base = Some (ORGBA im) ->
  Forall (λ s, resized im (s, s) LANCZOS = Ret (lanczos_square im s)
               ∨ ∃ e, resized im (s, s) LANCZOS = Raise e ∧ P e) sizes ->
  Exists (λ s, ∃ e, resized im (s, s) LANCZOS = Raise e) sizes ->
  ∃ e new, P e ∧
    save_ico base dest sizes w = (Raise e, mkWorld (heap w ++ new) (disk w) (stdout w)).
Proof.
  intros Hbase Hs Hex.
  destruct (list_comp_resize_raises P base im sizes w Hbase Hs Hex) as (e & new & He & Hrun).
  exists e, new. split; [done|]. unfold save_ico, ensure_parent.
  rewrite (bind_run _ _ w w tt) by done.
  by erewrite bind_raise; [|exact Hrun].
Qed.

(** The bundle has a frame exactly when some requested size is at most the
    last one and at most 256. *)
Lemma ico_bundle_nil (largest : Img rgba) (L : Z) (sizes : list Z) :
  ico_bundle largest L sizes = [] <-> ¬ Exists (λ s, s <= L ∧ s <= 256) sizes.
Proof.
  unfold ico_bundle. split.
  - intros Hnil Hex. apply Exists_exists in Hex as (s & Hin & Hq).
    assert (Hel : (s, s) ∈ filter (λ sz : Z * Z, sz.1 <= L ∧ sz.1 <= 256)
                              (sorted_set ((λ s, (s, s)) <$> sizes))).
    { apply list_elem_of_filter. split; [done|].
      apply elem_of_sorted_set. apply list_elem_of_fmap. by exists s. }
    apply fmap_nil_inv in Hnil. rewrite Hnil in Hel. by apply elem_of_nil in Hel.
  - intros Hno.
    destruct (filter _ (sorted_set ((λ s, (s, s)) <$> sizes))) as [|sz rest] eqn:E; [done|].
    exfalso. apply Hno.
    assert (Hel : sz ∈ filter (λ sz : Z * Z, sz.1 <= L ∧ sz.1 <= 256)
                           (sorted_set ((λ s, (s, s)) <$> sizes))).
    { rewrite E. apply elem_of_cons. by left. }
    apply list_elem_of_filter in Hel as [Hq Hel].
    apply (proj1 (elem_of_sorted_set _ _)) in Hel.
    apply list_elem_of_fmap in Hel as (s & -> & Hin).
    apply Exists_exists. by exists s.
Qed.

(** [save_ico] once every size has been resized into the store: the bundle
    is made from the last image, and refused when it would hold no frame. *)
Lemma save_ico_any_sizes (base : ref) (im : Img rgba) (dest : string)
    (sizes : list Z) (L : Z) (w : World) :
  heap w !! base = Some (ORGBA im) ->
  Forall (λ s, 1 <= s) sizes ->
  Forall (λ s, resized im (s, s) LANCZOS = Ret (lanczos_square im s)) sizes ->
  last sizes = Some L ->
  (Exists (λ s, s <= L ∧ s <= 256) sizes ->
   save_ico base dest sizes w =
     (Ret tt,
      emit "ico" dest (ico_container (ico_bundle (lanczos_square im L) L sizes))
        (grow ((λ s, ORGBA (lanczos_square im s)) <$> sizes) w))) ∧
  (¬ Exists (λ s, s <= L ∧ s <= 256) sizes ->
   ∃ w', save_ico base dest sizes w =
           (Raise (ValueError "All sizes too large for image"), w')).
Proof.
  intros Hbase Hpos Hs HL.
  assert (Hne : (0 < length sizes)%nat).
  { destruct sizes; [done|simpl; lia]. }
  assert (Hlast : @last ref (seq (length (heap w)) (length sizes))
                  = Some (length (heap w) + (length sizes - 1))%nat).
  { rewrite last_lookup, length_seq.
    replace (Nat.pred (length sizes)) with (length sizes - 1)%nat by lia.
    apply lookup_seq. lia. }
  assert (HL1 : 1 <= L).
  { rewrite Forall_forall in Hpos. apply Hpos.
    rewrite last_lookup in HL. by eapply list_elem_of_lookup_2. }
  assert (Hframes : ico_frames_of (lanczos_square im L) (sorted_set ((λ s, (s, s)) <$> sizes))
                    = Ret (ico_bundle (lanczos_square im L) L sizes)).
  { rewrite (ico_frames_of_square _ L).
    - reflexivity.
    - apply size_lanczos_square. lia.
    - apply Forall_forall. intros sz Hsz. apply (proj1 (elem_of_sorted_set _ _)) in Hsz.
      apply list_elem_of_fmap in Hsz as (s & -> & Hin). simpl.
      split; [done|]. rewrite Forall_forall in Hpos. by apply Hpos. }
  assert (Hload : load_rgba (length (heap w) + (length sizes - 1))%nat
                    (grow ((λ s, ORGBA (lanczos_square im s)) <$> sizes) w)
                  = (Ret (lanczos_square im L),
                     grow ((λ s, ORGBA (lanczos_square im s)) <$> sizes) w)).
  { apply load_rgba_run. rewrite heap_grow, lookup_heap_new.
    rewrite list_lookup_fmap.
    rewrite last_lookup in HL.
    replace (length sizes - 1)%nat with (Nat.pred (length sizes)) by lia.
    rewrite HL. done. }
  assert (Hrun : save_ico base dest sizes w =
                 bind (Image_save_ico (length (heap w) + (length sizes - 1))%nat dest
                         ((λ s, (s, s)) <$> sizes))
                      (λ _, print ("ico -> " +:+ dest))
                      (grow ((λ s, ORGBA (lanczos_square im s)) <$> sizes) w)).
  { unfold save_ico, ensure_parent.
    rewrite (bind_run _ _ w w tt) by done.
    rewrite (bind_run _ _ _ _ _ (list_comp_resize base im sizes w Hbase Hs)).
    cbv beta. unfold py_last. rewrite Hlast.
    by rewrite (bind_run (ret _) _ _ _ _ eq_refl). }
  rewrite Hrun. unfold Image_save_ico.
  rewrite (bind_assoc (load_rgba _)), (bind_run _ _ _ _ _ Hload).
  unfold ico_frames. rewrite Hframes.
  split.
  - intros Hex.
    destruct (ico_bundle (lanczos_square im L) L sizes) as [|frame frames] eqn:E.
    { by apply (proj1 (ico_bundle_nil _ _ _)) in E. }
    done.
  - intros Hno. apply (proj2 (ico_bundle_nil (lanczos_square im L) _ _)) in Hno. rewrite Hno.
    unfold bind, failed_save, raise, write_file.
    destruct (disk _ !! dest); by eexists.
Qed.

(** X2.  For any list of sizes of at least 1 that the machine has room for,
    one of them at most the last size [L] and at most 256, [save_ico]
    returns and writes a bundle made from the last size alone: every frame
    is [s] x [s] for a requested [s] with [s <= L] and [s <= 256], and is
    the [L] x [L] resize of the base itself or a resampling of it; every
    such size has its frame.  Requested sizes above the last one, or above
    256, get no frame. *)
Theorem save_ico_frames_bounded (base : ref) (im : Img rgba) (dest : string)
    (sizes : list Z) (L : Z) (w : World) :
  heap w !! base = Some (ORGBA im) ->
  Forall (λ s, 1 <= s ∧ fits s s = true) sizes ->
  last sizes = Some L ->
  Exists (λ s, s <= L ∧ s <= 256) sizes ->
  ∃ largest frames w',
    save_ico base dest sizes w = (Ret tt, w') ∧
    resized im (L, L) LANCZOS = Ret largest ∧
    disk w' !! dest = Some (ico_container frames) ∧
    frames ≠ [] ∧
    (∀ frame, frame ∈ frames ->
       ∃ s, s ∈ sizes ∧ s <= L ∧ s <= 256 ∧ size frame = (s, s) ∧
            frame = if s =? L then largest else resample LANCZOS largest s s) ∧
    (∀ s, s ∈ sizes -> s <= L -> s <= 256 -> ∃ frame, frame ∈ frames ∧ size frame = (s, s)).
Proof.
  intros Hbase Hs HL Hex.
  assert (Hpos : Forall (λ s, 1 <= s) sizes) by (eapply Forall_impl; [exact Hs|]; by intros s [? _]).
  assert (Hres : Forall (λ s, resized im (s, s) LANCZOS = Ret (lanczos_square im s)) sizes).
  { eapply Forall_impl; [exact Hs|]. intros s [H1 Hf]. by apply resized_square_fits. }
  assert (HinL : L ∈ sizes) by (rewrite last_lookup in HL; by eapply list_elem_of_lookup_2).
  rewrite Forall_forall in Hpos, Hres.
  destruct (save_ico_any_sizes base im dest sizes L w Hbase) as [Hrun _];
    [by apply Forall_forall|by apply Forall_forall|done|].
  exists (lanczos_square im L), (ico_bundle (lanczos_square im L) L sizes). eexists.
  split; [by apply Hrun|].
  split; [by apply Hres|].
  split; [simpl disk; apply lookup_insert_eq|].
  split; [intros Hnil; by apply (proj1 (ico_bundle_nil _ _ _)) in Hnil|].
  assert (Hsize : ∀ s, 1 <= s ->
    size (if s =? L then lanczos_square im L
          else resample LANCZOS (lanczos_square im L) s s) = (s, s)).
  { intros s H1. destruct (Z.eqb_spec s L) as [->|];
      [apply size_lanczos_square; lia|by apply resample_size]. }
  split.
  - intros frame Hin. unfold ico_bundle in Hin.
    apply list_elem_of_fmap in Hin as (sz & -> & Hsz).
    apply list_elem_of_filter in Hsz as [[HsL Hs256] Hsz].
    apply (proj1 (elem_of_sorted_set _ _)) in Hsz.
    apply list_elem_of_fmap in Hsz as (s & -> & Hin). simpl in *.
    exists s. repeat split; try done. apply Hsize. by apply Hpos.
  - intros s Hin HsL Hs256.
    exists (if s =? L then lanczos_square im L
            else resample LANCZOS (lanczos_square im L) s s).
    split; [|apply Hsize; by apply Hpos].
    unfold ico_bundle. apply list_elem_of_fmap. exists (s, s). split; [done|].
    apply list_elem_of_filter. split; [done|].
    apply elem_of_sorted_set. apply list_elem_of_fmap. by exists s.
Qed.

(** X3.  On a base image at least one pixel wide, the machine having room
    for every requested size of 1 or more, [save_ico] returns exactly when
    the list of sizes is not empty, holds no size below 1, and holds a size
    that is at most the last one and at most 256.  An empty list fails on
    [imgs[-1]], a size below 1 in the resize, and sizes all above the last
    one or above 256 in the ICO writer, which has no frame to write. *)
Theorem save_ico_returns_iff (base : ref) (im : Img rgba) (dest : string)
    (sizes : list Z) (w : World) :
  heap w !! base = Some (ORGBA im) ->
  1 <= width im ->
  Forall (λ s, 1 <= s -> fits s s = true) sizes ->
  (∃ w', save_ico base dest sizes w = (Ret tt, w'))
  <-> sizes ≠ [] ∧ Forall (λ s, 1 <= s) sizes ∧
      ∃ L, last sizes = Some L ∧ Exists (λ s, s <= L ∧ s <= 256) sizes.
Proof.
  intros Hbase Hw Hfits.
  assert (Hcases : Forall (λ s, resized im (s, s) LANCZOS = Ret (lanczos_square im s)
                     ∨ ∃ e, resized im (s, s) LANCZOS = Raise e ∧ True) sizes).
  { apply Forall_forall. intros s _.
    destruct (resized_cases im s) as [?|(e & ?)]; [by left|right; by exists e]. }
  split.
  - intros (w' & Hrun).
    assert (Hok : Forall (λ s, resized im (s, s) LANCZOS = Ret (lanczos_square im s)) sizes).
    { apply Forall_forall. intros s Hin.
      destruct (resized_cases im s) as [?|(e & He)]; [done|]. exfalso.
      destruct (save_ico_raises (λ _, True) base im dest sizes w Hbase Hcases)
        as (e' & new & _ & E).
      { apply Exists_exists. exists s. split; [done|]. by exists e. }
      by rewrite E in Hrun. }
    assert (Hpos : Forall (λ s, 1 <= s) sizes).
    { rewrite Forall_forall in *. intros s Hin.
      destruct (Z_lt_le_dec s 1) as [Hlt|]; [|done]. exfalso.
      destruct (resized_below_one_raises im s LANCZOS Hw Hlt) as (e & He).
      by rewrite (Hok s Hin) in He. }
    split; [by intros ->|]. split; [done|].
    destruct (last sizes) as [L|] eqn:HL.
    + exists L. split; [done|].
      destruct (save_ico_any_sizes base im dest sizes L w Hbase Hpos Hok HL) as [_ Hfail].
      destruct (decide (Exists (λ s, s <= L ∧ s <= 256) sizes)) as [Hex|Hno]; [done|].
      destruct (Hfail Hno) as (w'' & E). by rewrite E in Hrun.
    + apply last_None in HL. subst sizes. done.
  - intros (Hne & Hpos & L & HL & Hex).
    assert (Hok : Forall (λ s, resized im (s, s) LANCZOS = Ret (lanczos_square im s)) sizes).
    { rewrite Forall_forall in *. intros s Hin.
      apply resized_square_fits; [by apply Hpos|]. apply Hfits; [done|]. by apply Hpos. }
    destruct (save_ico_any_sizes base im dest sizes L w Hbase Hpos Hok HL) as [Hrun _].
    eexists. by apply Hrun.
Qed.

(** X4.  On a base image at least one pixel wide and in a list of sizes
    that are no less than C's smallest [int], the machine having room for
    every one of them that is 1 or more, a size below 1 makes [save_ico]
    raise the resize's [ValueError]; the sizes before it have been resized
    into the store, but no file is written and nothing is printed. *)
Theorem save_ico_raises_on_size_below_one (base : ref) (im : Img rgba) (dest : string)
    (sizes : list Z) (w : World) :
  heap w !! base = Some (ORGBA im) ->
  1 <= width im ->
  Forall (λ s, INT_MIN <= s ∧ (1 <= s -> fits s s = true)) sizes ->
  Exists (λ s, s < 1) sizes ->
  ∃ new w',
    save_ico base dest sizes w = (Raise (ValueError "height and width must be > 0"), w') ∧
    heap w' = heap w ++ new ∧ disk w' = disk w ∧ stdout w' = stdout w.
Proof.
  intros Hbase Hw Hs Hex.
  destruct (save_ico_raises (λ e, e = ValueError "height and width must be > 0")
              base im dest sizes w Hbase) as (e & new & -> & Hrun).
  - eapply Forall_impl; [exact Hs|]. intros s [Hmin Hf].
    destruct (Z_lt_le_dec s 1) as [Hlt|Hge].
    + right. eexists. split; [|done]. apply resized_below_one; [done|lia].
    + left. apply resized_square_fits; [done|by apply Hf].
  - eapply Exists_impl; [exact Hex|]. intros s Hlt. simpl in Hlt.
    by apply resized_below_one_raises.
  - exists new. eexists. split; [exact Hrun|]. done.
Qed.

(** ** [rounded] outside the unit interval, and applied twice *)

Lemma rounded_non_finite_run (img : ref) (im : Img rgba) (radius_frac : float) (w : World) :
  heap w !! img = Some (ORGBA im) ->
  0 <= width im <= INT_MAX -> 0 <= height im <= INT_MAX ->
  PyFloat.is_finite radius_frac = false ->
  rounded img radius_frac w
    = (Raise (rounded_failure (Z.min (width im) (height im)) radius_frac), w).
Proof.
  intros Himg Hw Hh Hf. unfold rounded.
  rewrite (bind_run _ _ _ _ _ (load_rgba_run _ _ _ Himg)).
  unfold size at 1.
  assert (Hn : 0 <= Z.min (width im) (height im) < 2 ^ 53) by (unfold INT_MAX in *; lia).
  rewrite (bind_run _ _ _ _ _ (int_times_float_run _ radius_frac _ (of_int_finite _ Hn))).
  destruct (Z.min (width im) (height im)) as [|n|n] eqn:En; [| |lia].
  - destruct radius_frac as [s|s| |s m e]; try done.
  - destruct (of_int_exact n) as (mn & en & -> & _); [lia|].
    destruct radius_frac as [s|s| |s m e]; try done.
Qed.

(** X8.  A radius fraction that is NaN or infinite makes [rounded] raise
    in [int(...)], before any image is allocated: [ValueError] for NaN
    (and for an infinite fraction on an image with an empty side, where
    the product is NaN), [OverflowError] otherwise.  The store is left as
    it was. *)
Theorem rounded_rejects_non_finite (img : ref) (im : Img rgba) (radius_frac : float) (w : World) :
  heap w !! img = Some (ORGBA im) ->
  0 <= width im <= INT_MAX -> 0 <= height im <= INT_MAX ->
  PyFloat.is_finite radius_frac = false ->
  rounded img radius_frac w
    = (Raise (rounded_failure (Z.min (width im) (height im)) radius_frac), w).
Proof. apply rounded_non_finite_run. Qed.

(** Rounding a rounded image changes nothing: the same mask selects pixels
    that are already the source's, and leaves the others transparent. *)
Lemma rounded_image_idem (im : Img rgba) (r : Z) :
  rounded_image (rounded_image im r) r = rounded_image im r.
Proof.
  assert (Hsz : size (rounded_image im r) = size im)
    by (unfold rounded_image; by rewrite size_pasted).
  injection Hsz as Hw Hh.
  unfold rounded_image at 1. rewrite Hw, Hh.
  unfold rounded_image at 2.
  unfold pasted. rewrite !clip_spec. simpl fst. simpl snd. simpl width. simpl height.
  rewrite Hw, Hh.
  destruct (_ || _) eqn:E; [done|].
  apply orb_false_elim in E as [E1 E2].
  apply Z.leb_gt in E1, E2.
  apply tabulate_ext. intros x y Hx Hy.
  destruct (_ && _) eqn:Ein; [|done].
  replace (x - Z.max 0 0 + (Z.max 0 0 - 0)) with x by lia.
  replace (y - Z.max 0 0 + (Z.max 0 0 - 0)) with y by lia.
  rewrite px_rounded_image by done.
  unfold mask_value, rounded_mask. rewrite !px_tabulate by done.
  destruct (rr_inked _ r x y); [by rewrite !blend_255|by rewrite !blend_0].
Qed.

(** X9.  [rounded] is idempotent: applied to its own result with the same
    radius fraction, it returns a second image, a different object of the
    store, equal to the first pixel for pixel. *)
Theorem rounded_idempotent (img : ref) (im : Img rgba) (radius_frac : float) (w : World) :
  heap w !! img = Some (ORGBA im) ->
  0 <= width im <= INT_MAX -> 0 <= height im <= INT_MAX ->
  PyFloat.radius_fraction radius_frac = true ->
  ∃ once twice out w1 w2,
    rounded img radius_frac w = (Ret once, w1) ∧
    rounded once radius_frac w1 = (Ret twice, w2) ∧
    once ≠ twice ∧
    heap w2 !! once = Some (ORGBA out) ∧
    heap w2 !! twice = Some (ORGBA out).
Proof.
  intros Himg Hw Hh Hf.
  destruct (rounded_result img im radius_frac w Himg Hw Hh Hf) as (r & Hr & Hb & Hrun).
  assert (Hsz : size (rounded_image im r) = size im)
    by (unfold rounded_image; by rewrite size_pasted).
  injection Hsz as Hw1 Hh1.
  set (w1 := mkWorld (heap w ++ [OL (rounded_mask (width im) (height im) r);
                                 ORGBA (rounded_image im r)]) (disk w) (stdout w)) in *.
  assert (Hout : heap w1 !! S (length (heap w)) = Some (ORGBA (rounded_image im r))).
  { unfold w1. simpl heap.
    replace (S (length (heap w))) with (length (heap w) + 1)%nat by lia.
    by rewrite lookup_heap_new. }
  assert (Hlen : length (heap w1) = (length (heap w) + 2)%nat)
    by (unfold w1; simpl heap; by rewrite length_app).
  clearbody w1.
  destruct (rounded_result (S (length (heap w))) (rounded_image im r) radius_frac w1 Hout)
    as (r' & Hr' & _ & Hrun'); [by rewrite Hw1|by rewrite Hh1|done|].
  rewrite Hw1, Hh1, Hr in Hr'. injection Hr' as <-.
  rewrite rounded_image_idem in Hrun'.
  exists (S (length (heap w))), (S (length (heap w1))), (rounded_image im r), w1.
  eexists. split; [exact Hrun|]. split; [exact Hrun'|].
  split; [lia|].
  simpl heap. split.
  - by apply lookup_heap_app.
  - replace (S (length (heap w1))) with (length (heap w1) + 1)%nat by lia.
    by rewrite lookup_heap_new.
Qed.

(** X10.  For a radius fraction in (0, 0.5], the corner radius [rounded]
    draws, [r = int(min(w, h) * fraction)] in binary64, is at most half
    the shorter side: [0 <= 2 * r <= min(w, h)], so opposite corners never
    overlap. *)
Theorem rounded_radius_at_most_half (img : ref) (im : Img rgba) (radius_frac : float)
    (w : World) :
  heap w !! img = Some (ORGBA im) ->
  0 <= width im <= INT_MAX -> 0 <= height im <= INT_MAX ->
  PyFloat.radius_fraction radius_frac = true ->
  ∃ r mask out w',
    int_product (Z.min (width im) (height im)) radius_frac = Some r ∧
    0 <= 2 * r <= Z.min (width im) (height im) ∧
    rounded img radius_frac w = (Ret (S (length (heap w))), w') ∧
    heap w' = heap w ++ [OL mask; ORGBA out] ∧
    ∀ x y, 0 <= x < width im -> 0 <= y < height im ->
      px mask x y = if rr_inked (0, 0, width im, height im) r x y then 255 else 0.
Proof.
  intros Himg Hw Hh Hf.
  destruct (radius_fraction_half_shape _ Hf) as (m & e & -> & He & Hm).
  assert (Hn : 0 <= Z.min (width im) (height im) < 2 ^ 53) by (unfold INT_MAX in *; lia).
  destruct (trunc_mul_half _ m e Hn He Hm) as (r & Hr & Hb).
  exists r, (rounded_mask (width im) (height im) r), (rounded_image im r). eexists.
  split; [done|]. split; [done|].
  split; [apply rounded_run; [done|done|done|by apply of_int_finite|done|lia]|].
  split; [done|].
  intros x y Hx Hy. unfold rounded_mask. rewrite !px_tabulate by done. done.
Qed.

(** ** [padded] for any scale *)

(** X11.  For a canvas size [S > 0] and any scale whose product with it
    truncates to [inner >= 1], fractions above 1 included, the machine
    having room for an [S] x [S] and for an [inner] x [inner] image,
    [padded] returns: the canvas
    pixel at [(x, y)] is the resized pixel at [(x - off, y - off)]
    composited over transparent when that lies in the resized image, with
    [off = (S - inner) // 2], and transparent otherwise.  When [inner >= S]
    the offset is not positive and the paste is clipped: the canvas shows
    the central [S] x [S] crop of the resized image, no pixel is left
    from the background. *)
Theorem padded_layout_any_scale (img : ref) (im : Img rgba) (canvas_size inner : Z)
    (scale : float) (w : World) :
  heap w !! img = Some (ORGBA im) ->
  0 < canvas_size -> fits canvas_size canvas_size = true ->
  int_product canvas_size scale = Some inner ->
  1 <= inner -> fits inner inner = true ->
  ∃ glyph canvas,
    padded img canvas_size scale w =
      (Ret (length (heap w)),
       mkWorld (heap w ++ [ORGBA canvas; ORGBA glyph]) (disk w) (stdout w)) ∧
    resized im (inner, inner) LANCZOS = Ret glyph ∧
    size canvas = (canvas_size, canvas_size) ∧
    let off := (canvas_size - inner) / 2 in
    (∀ x y, 0 <= x < canvas_size -> 0 <= y < canvas_size ->
       px canvas x y =
         if bool_decide (off <= x < off + inner ∧ off <= y < off + inner)
         then blend (alpha (px glyph (x - off) (y - off))) transparent
                    (px glyph (x - off) (y - off))
         else transparent) ∧
    (canvas_size <= inner ->
     off <= 0 ∧ canvas_size <= off + inner ∧
     ∀ x y, 0 <= x < canvas_size -> 0 <= y < canvas_size ->
       px canvas x y = blend (alpha (px glyph (x - off) (y - off))) transparent
                             (px glyph (x - off) (y - off))).
Proof.
  intros Himg HS Hfits Hinner Hi Hfi.
  pose proof (fits_int _ Hfits) as Hmax. pose proof (fits_int _ Hfi) as Himax.
  destruct (resized_ok im (inner, inner) LANCZOS) as (glyph & Hres & Hsz);
    [simpl; lia|simpl; lia|done|].
  injection Hsz as Hgw Hgh.
  exists glyph, (padded_image glyph canvas_size inner).
  split.
  { apply (padded_run img im glyph canvas_size inner); [done|lia|done| |done|done].
    apply of_int_finite. unfold INT_MAX in Hmax. lia. }
  split; [done|].
  split; [unfold padded_image; by rewrite size_pasted|].
  cbv zeta.
  assert (Hpx : ∀ x y, 0 <= x < canvas_size -> 0 <= y < canvas_size ->
    px (padded_image glyph canvas_size inner) x y =
      if bool_decide ((canvas_size - inner) / 2 <= x < (canvas_size - inner) / 2 + inner
                      ∧ (canvas_size - inner) / 2 <= y < (canvas_size - inner) / 2 + inner)
      then blend (alpha (px glyph (x - (canvas_size - inner) / 2) (y - (canvas_size - inner) / 2)))
                 transparent
                 (px glyph (x - (canvas_size - inner) / 2) (y - (canvas_size - inner) / 2))
      else transparent).
  { intros x y Hx Hy. unfold padded_image. case_bool_decide as Hin.
    - rewrite px_pasted_inside by (simpl; lia).
      simpl fst. simpl snd. by rewrite px_tabulate by lia.
    - rewrite px_pasted_outside; [by rewrite px_tabulate|done|done|].
      simpl fst. simpl snd. by rewrite Hgw, Hgh. }
  split; [exact Hpx|].
  intros Hle.
  assert (Ho : (canvas_size - inner) / 2 <= 0
               ∧ canvas_size <= (canvas_size - inner) / 2 + inner) by lia.
  split; [apply Ho|]. split; [apply Ho|].
  intros x y Hx Hy. rewrite Hpx by done. rewrite bool_decide_true; [done|lia].
Qed.

(** X12.  On a source at least one pixel wide and for a canvas size
    [S > 0] the machine has room for, whenever the product truncates to
    [inner < 1] (a small, zero or negative scale) that is no less than C's
    smallest [int], [padded] raises the resize's [ValueError] and returns
    no canvas: the blank canvas it had already allocated stays in the
    store, no file is written and nothing is printed. *)
Theorem padded_raises_below_one (img : ref) (im : Img rgba) (canvas_size inner : Z)
    (scale : float) (w : World) :
  heap w !! img = Some (ORGBA im) ->
  1 <= width im ->
  0 < canvas_size -> fits canvas_size canvas_size = true ->
  int_product canvas_size scale = Some inner ->
  INT_MIN <= inner < 1 ->
  padded img canvas_size scale w =
    (Raise (ValueError "height and width must be > 0"),
     mkWorld (heap w ++ [ORGBA (tabulate canvas_size canvas_size (λ _ _, transparent))])
             (disk w) (stdout w)).
Proof.
  intros Himg Hw HS Hfits Hinner Hi. unfold padded.
  pose proof (fits_int _ Hfits) as Hmax.
  rewrite (bind_run _ _ _ _ _ (Image_new_RGBA_run (canvas_size, canvas_size) _ w
             ltac:(simpl; lia) ltac:(simpl; lia)
             (allocates_fits w (canvas_size, canvas_size) Hfits))).
  rewrite (bind_run _ _ _ _ _ (int_times_float_run _ scale _
             (of_int_finite canvas_size ltac:(unfold INT_MAX in Hmax; lia)))).
  rewrite (bind_run _ _ _ _ _ (py_int_run _ _ _ Hinner)).
  erewrite bind_raise; [done|].
  eapply Image_resize_raise; [simpl heap; by apply lookup_heap_app|].
  by apply resized_below_one.
Qed.

End HelperFacts.

(** * Further properties of the run *)

Ltac listed :=
  unfold artifacts, tasktrove_icon_copies, icon0_targets, icon_rounded_targets,
    png_sizes, favicon_targets, classic, foreground;
  cbn [fmap list_fmap app mbind list_bind];
  repeat (apply elem_of_cons; first [ left; reflexivity | right ]).

Section RunFacts.
Context `{Pillow}.
Variable ROOT : string.

(** The artifacts go to the destinations, in order. *)
Lemma artifact_paths (im : Img rgba) (r : Z) :
  artifact_path <$> artifacts ROOT im r = destinations ROOT.
Proof. reflexivity. Qed.

Lemma destinations_rooted : destinations ROOT = (λ q, ROOT +:+ q) <$> destinations "".
Proof.
  unfold destinations, tasktrove_icon_copies, icon0_targets, icon_rounded_targets,
    png_sizes, favicon_targets, classic, foreground.
  cbn [fmap list_fmap app mbind list_bind fst].
  rewrite !(res_path_rooted ROOT). reflexivity.
Qed.

(** No two steps of [main] write the same file. *)
Lemma destinations_NoDup : NoDup (destinations ROOT).
Proof.
  rewrite destinations_rooted. apply NoDup_fmap_2.
  - intros a b. apply append_inj_l.
  - apply (bool_decide_unpack (NoDup (destinations ""))). by vm_compute.
Qed.

(** After a run, every artifact is on disk as it was written. *)
Lemma main_lookup (args : Namespace) (im : Img rgba) (w : World) :
  usable_source args im w ->
  PyFloat.radius_fraction (radius args) = true ->
  ∃ r w',
    int_product (Z.min (width im) (height im)) (radius args) = Some r ∧
    main ROOT args w = (Ret tt, w') ∧
    ∀ kind path content,
      (kind, path, content) ∈ artifacts ROOT im r -> disk w' !! path = Some content.
Proof.
  intros Hs Hrad.
  destruct (main_writes ROOT args im w Hs Hrad) as (r & w' & Hr & Hm & _ & Hd & Ho).
  exists r, w'. split; [done|]. split; [done|].
  intros kind path content Hin.
  rewrite Hd, write_all_lookup, (final_write_NoDup _ kind path content); [done| |done].
  rewrite artifact_paths. apply destinations_NoDup.
Qed.

(** ** How a run fails *)

(** X13.  A source that exists but that Pillow cannot decode makes [main]
    abort with the decoder's error when it opens the file: no image is
    allocated, no file is written and nothing is printed. *)
Theorem main_rejects_undecodable_source (args : Namespace) (content : string) (w : World) :
  disk w !! source args = Some content ->
  image_open content = None ->
  main ROOT args w = (Raise (UnidentifiedImageError (source args)), w).
Proof.
  intros Hsrc Hopen. unfold main.
  rewrite (bind_run _ _ _ _ _ (path_exists_run _ _ _ Hsrc)). cbn [negb].
  erewrite bind_raise; [done|].
  unfold Image_open_RGBA, read_file. erewrite (bind_run _ _ w w); [|reflexivity].
  rewrite Hsrc. cbn [mbind option_bind]. by rewrite Hopen.
Qed.

(** X14.  With a radius that is NaN or infinite ([--radius nan] parses),
    [main] decodes the source and then aborts inside [rounded]: the
    decoded image is the only new object, no file is written and nothing
    is printed. *)
Theorem main_rejects_non_finite_radius (args : Namespace) (im : Img rgba) (w : World) :
  usable_source args im w ->
  PyFloat.is_finite (radius args) = false ->
  main ROOT args w =
    (Raise (rounded_failure (Z.min (width im) (height im)) (radius args)),
     mkWorld (heap w ++ [ORGBA im]) (disk w) (stdout w)).
Proof.
  intros ((content & Hsrc & Hopen) & Hw & Hh) Hrad. unfold main.
  rewrite (bind_run _ _ _ _ _ (path_exists_run _ _ _ Hsrc)). cbn [negb].
  erewrite bind_run; last first.
  { unfold Image_open_RGBA, read_file. erewrite (bind_run _ _ w w); [|reflexivity].
    rewrite Hsrc. cbn [mbind option_bind]. rewrite Hopen. reflexivity. }
  erewrite bind_raise; [done|].
  apply rounded_non_finite_run; [|done..].
  simpl heap. by rewrite lookup_heap_new0.
Qed.

(** ** What a run writes, and what it leaves alone *)

(** X15.  A run changes no file other than its 39 destinations: every
    other path of the disk, the source included when it is not one of
    them, holds after the run what it held before. *)
Theorem main_touches_only_destinations (args : Namespace) (im : Img rgba) (w : World) :
  usable_source args im w ->
  PyFloat.radius_fraction (radius args) = true ->
  ∃ w',
    main ROOT args w = (Ret tt, w') ∧
    length (destinations ROOT) = 39%nat ∧
    ∀ path, path ∉ destinations ROOT -> disk w' !! path = disk w !! path.
Proof.
  intros Hs Hrad.
  destruct (main_writes ROOT args im w Hs Hrad) as (r & w' & Hr & Hm & _ & Hd & Ho).
  exists w'. split; [done|]. split; [done|]. intros path Hnot.
  rewrite Hd, write_all_lookup, final_write_None; [done|].
  by rewrite artifact_paths.
Qed.

(** X16.  The destinations are pairwise distinct, so no step of [main]
    overwrites the output of an earlier one: after the run every artifact
    is on disk with exactly the content its step wrote. *)
Theorem main_keeps_every_artifact (args : Namespace) (im : Img rgba) (w : World) :
  usable_source args im w ->
  PyFloat.radius_fraction (radius args) = true ->
  ∃ r w',
    int_product (Z.min (width im) (height im)) (radius args) = Some r ∧
    main ROOT args w = (Ret tt, w') ∧
    NoDup (artifact_path <$> artifacts ROOT im r) ∧
    ∀ kind path content,
      (kind, path, content) ∈ artifacts ROOT im r -> disk w' !! path = Some content.
Proof.
  intros Hs Hrad.
  destruct (main_writes ROOT args im w Hs Hrad) as (r & w' & Hr & Hm & _ & Hd & Ho).
  exists r, w'. split; [done|]. split; [done|].
  assert (Hnd : NoDup (artifact_path <$> artifacts ROOT im r))
    by (rewrite artifact_paths; apply destinations_NoDup).
  split; [done|].
  intros kind path content Hin.
  by rewrite Hd, write_all_lookup, (final_write_NoDup _ kind path content).
Qed.

(** X17.  Running [main] again on the disk a first run left, with a
    source that is not itself a destination, succeeds, prints the same
    lines again, and leaves every file as the first run wrote it. *)
Theorem main_rerun_idempotent (args : Namespace) (im : Img rgba) (w : World) :
  usable_source args im w ->
  PyFloat.radius_fraction (radius args) = true ->
  source args ∉ destinations ROOT ->
  ∃ w1 w2 lines,
    main ROOT args w = (Ret tt, w1) ∧
    main ROOT args w1 = (Ret tt, w2) ∧
    disk w2 = disk w1 ∧
    stdout w1 = stdout w ++ lines ∧
    stdout w2 = stdout w1 ++ lines.
Proof.
  intros Hs Hrad Hsrc.
  destruct (main_writes ROOT args im w Hs Hrad) as (r & w1 & Hr & Hm & _ & Hd & Ho).
  assert (Hs1 : usable_source args im w1).
  { destruct Hs as ((content & Hc & Hopen) & Hdim). split; [|done].
    exists content. split; [|done].
    rewrite Hd, write_all_lookup, final_write_None; [done|].
    by rewrite artifact_paths. }
  destruct (main_writes ROOT args im w1 Hs1 Hrad) as (r' & w2 & Hr' & Hm2 & _ & Hd2 & Ho2).
  rewrite Hr in Hr'. injection Hr' as <-.
  exists w1, w2, (progress (artifacts ROOT im r) ++ ["done"]).
  split; [done|]. split; [done|].
  split; [by rewrite Hd2, Hd, write_all_idem|]. done.
Qed.

(** ** Copies of one artifact *)

(** X19.  The six SVG files made from the unrounded source (the branding
    SVG, its two public copies and the three [icon0.svg]) hold one and the
    same document, and its payload decodes to the very bytes of the
    branding PNG [tasktrove-icon.png]. *)
Theorem svg_copies_embed_source_png (args : Namespace) (im : Img rgba) (w : World) :
  usable_source args im w ->
  PyFloat.radius_fraction (radius args) = true ->
  ∃ w' svg bytes,
    main ROOT args w = (Ret tt, w') ∧
    disk w' !! under_root ROOT "packages/branding/icons/tasktrove-icon.png" = Some bytes ∧
    (attribute "href" svg ≫= strip_prefix "data:image/png;base64,") ≫= Base64.decode
      = Some bytes ∧
    ∀ dest,
      dest ∈ under_root ROOT "packages/branding/icons/tasktrove-icon.svg"
               :: tasktrove_icon_copies ROOT ++ icon0_targets ROOT ->
      disk w' !! dest = Some svg.
Proof.
  intros Hs Hrad.
  destruct (main_lookup args im w Hs Hrad) as (r & w' & Hr & Hm & Hlook).
  exists w', (svg_of im), (png_encode im). split; [done|].
  split; [apply (Hlook "png"); listed|].
  split.
  { unfold svg_of. rewrite attribute_href by apply encode_alphabet.
    cbn [mbind option_bind]. read_literal. cbn [mbind option_bind]. apply decode_encode. }
  intros dest Hin. apply (Hlook "svg").
  unfold tasktrove_icon_copies, icon0_targets in Hin. cbn [app] in Hin.
  repeat (apply elem_of_cons in Hin as [->|Hin]; [listed|]).
  by apply elem_of_nil in Hin.
Qed.

(** X20.  The six [icon-rounded.svg] files hold one and the same document:
    the wrapper of the image [rounded] made of the source, whose payload
    decodes to that image's PNG encoding. *)
Theorem rounded_svg_copies_identical (args : Namespace) (im : Img rgba) (w : World) :
  usable_source args im w ->
  PyFloat.radius_fraction (radius args) = true ->
  ∃ r w' svg,
    int_product (Z.min (width im) (height im)) (radius args) = Some r ∧
    main ROOT args w = (Ret tt, w') ∧
    ((attribute "href" svg ≫= strip_prefix "data:image/png;base64,") ≫= Base64.decode)
      = Some (png_encode (rounded_image im r)) ∧
    ∀ dest, dest ∈ icon_rounded_targets ROOT -> disk w' !! dest = Some svg.
Proof.
  intros Hs Hrad.
  destruct (main_lookup args im w Hs Hrad) as (r & w' & Hr & Hm & Hlook).
  exists r, w', (svg_of (rounded_image im r)). split; [done|]. split; [done|].
  split.
  { unfold svg_of. rewrite attribute_href by apply encode_alphabet.
    cbn [mbind option_bind]. read_literal. cbn [mbind option_bind]. apply decode_encode. }
  intros dest Hin. apply (Hlook "svg").
  unfold icon_rounded_targets in Hin.
  repeat (apply elem_of_cons in Hin as [->|Hin]; [listed|]).
  by apply elem_of_nil in Hin.
Qed.

(** X21.  Each sized PNG ([icon1.png], [icon.png] at 96, [apple-icon.png]
    at 180) encodes the source resized to exactly its declared size,
    square, whatever the shape of the source. *)
Theorem sized_pngs_have_their_size (args : Namespace) (im : Img rgba) (w : World)
    (dest : string) (sz : Z) :
  usable_source args im w ->
  PyFloat.radius_fraction (radius args) = true ->
  (dest, sz) ∈ png_sizes ROOT ->
  ∃ w' img,
    main ROOT args w = (Ret tt, w') ∧
    resized im (sz, sz) LANCZOS = Ret img ∧
    size img = (sz, sz) ∧
    disk w' !! dest = Some (png_encode img).
Proof.
  intros Hs Hrad Hin.
  destruct (main_lookup args im w Hs Hrad) as (r & w' & Hr & Hm & Hlook).
  exists w', (lanczos_square im sz). split; [done|].
  assert (Hsz : 1 <= sz <= 512).
  { unfold png_sizes in Hin.
    repeat (apply elem_of_cons in Hin as [[= -> ->]|Hin]; [by vm_compute|]).
    by apply elem_of_nil in Hin. }
  split; [by apply resized_square|]. split; [apply size_lanczos_square; lia|].
  apply (Hlook "png").
  unfold png_sizes in Hin.
  repeat (apply elem_of_cons in Hin as [[= -> ->]|Hin]; [listed|]).
  by apply elem_of_nil in Hin.
Qed.

(** X22.  The three [favicon.ico] files hold one and the same bundle. *)
Theorem favicon_copies_identical (args : Namespace) (im : Img rgba) (w : World) :
  usable_source args im w ->
  PyFloat.radius_fraction (radius args) = true ->
  ∃ w' bundle,
    main ROOT args w = (Ret tt, w') ∧
    ∀ dest, dest ∈ favicon_targets ROOT -> disk w' !! dest = Some bundle.
Proof.
  intros Hs Hrad.
  destruct (main_lookup args im w Hs Hrad) as (r & w' & Hr & Hm & Hlook).
  exists w', (ico_container (favicon_frames im)). split; [done|].
  intros dest Hin. apply (Hlook "ico").
  unfold favicon_targets in Hin.
  repeat (apply elem_of_cons in Hin as [->|Hin]; [listed|]).
  by apply elem_of_nil in Hin.
Qed.

(** ** Launcher and notification bitmaps *)

Lemma px_launcher_icon_outside (im : Img rgba) (sz inner x y : Z) :
  1 <= inner ->
  0 <= x < sz -> 0 <= y < sz ->
  ¬ ((sz - inner) / 2 <= x < (sz - inner) / 2 + inner
     ∧ (sz - inner) / 2 <= y < (sz - inner) / 2 + inner) ->
  px (launcher_icon im sz inner) x y = transparent.
Proof.
  intros Hi Hx Hy Hout. unfold launcher_icon, padded_image.
  assert (Hsz : size (lanczos_square im inner) = (inner, inner))
    by (by apply size_lanczos_square).
  injection Hsz as Hgw Hgh.
  rewrite px_pasted_outside; [by rewrite px_tabulate|done|done|].
  simpl fst. simpl snd. by rewrite Hgw, Hgh.
Qed.

(** X23.  Every launcher bitmap, classic, round or adaptive foreground, is
    a square of its density's size whose content stays in the central two
    thirds: all ten sizes are multiples of 6, and every pixel within
    [size / 6] of an edge is fully transparent. *)
Theorem launcher_safe_zone (args : Namespace) (im : Img rgba) (w : World)
    (folder name : string) (sz : Z) :
  usable_source args im w ->
  PyFloat.radius_fraction (radius args) = true ->
  ((folder, sz) ∈ classic ∧ name ∈ ["ic_launcher.png"; "ic_launcher_round.png"])
  ∨ ((folder, sz) ∈ foreground ∧ name = "ic_launcher_foreground.png") ->
  ∃ w' canvas,
    main ROOT args w = (Ret tt, w') ∧
    disk w' !! (res_root ROOT +:+ "/" +:+ folder +:+ "/" +:+ name) = Some (png_encode canvas) ∧
    size canvas = (sz, sz) ∧
    sz mod 6 = 0 ∧
    ∀ x y, 0 <= x < sz -> 0 <= y < sz ->
      ¬ (sz / 6 <= x < sz - sz / 6 ∧ sz / 6 <= y < sz - sz / 6) ->
      px canvas x y = transparent.
Proof.
  intros Hs Hrad Hin.
  destruct (main_lookup args im w Hs Hrad) as (r & w' & Hr & Hm & Hlook).
  exists w', (launcher_icon im sz (sz * 2 / 3)). split; [done|].
  assert (Hsz : sz ∈ [48; 72; 96; 144; 192; 108; 162; 216; 324; 432]).
  { destruct Hin as [[Hin _]|[Hin _]]; unfold classic, foreground in Hin;
      repeat (apply elem_of_cons in Hin as [[= -> ->]|Hin];
              [repeat (apply elem_of_cons; first [ by left | right ])|]);
      by apply elem_of_nil in Hin. }
  split.
  { apply (Hlook "png"). destruct Hin as [[Hin Hname]|[Hin ->]].
    - unfold classic in Hin.
      repeat (apply elem_of_cons in Hin as [[= -> ->]|Hin];
              [repeat (apply elem_of_cons in Hname as [->|Hname]; [listed|]);
               by apply elem_of_nil in Hname|]).
      by apply elem_of_nil in Hin.
    - unfold foreground in Hin.
      repeat (apply elem_of_cons in Hin as [[= -> ->]|Hin]; [listed|]).
      by apply elem_of_nil in Hin. }
  split; [unfold launcher_icon, padded_image; by rewrite size_pasted|].
  assert (Hsix : sz mod 6 = 0 ∧ 1 <= sz * 2 / 3).
  { repeat (apply elem_of_cons in Hsz as [->|Hsz]; [by vm_compute|]).
    by apply elem_of_nil in Hsz. }
  destruct Hsix as [Hmod Hpos]. split; [done|].
  intros x y Hx Hy Hout. apply px_launcher_icon_outside; [done..|].
  intros Hin'. apply Hout. lia.
Qed.

(** X24.  The notification icon has no inset: it is a 96 x 96 canvas every
    pixel of which is the source resized to 96 x 96, composited over
    transparent through its own alpha. *)
Theorem notification_icon_unpadded (args : Namespace) (im : Img rgba) (w : World) :
  usable_source args im w ->
  PyFloat.radius_fraction (radius args) = true ->
  ∃ w' glyph canvas,
    main ROOT args w = (Ret tt, w') ∧
    disk w' !! (res_root ROOT +:+ "/" +:+ "drawable/ic_stat_tasktrove.png")
      = Some (png_encode canvas) ∧
    resized im (96, 96) LANCZOS = Ret glyph ∧
    size canvas = (96, 96) ∧
    ∀ x y, 0 <= x < 96 -> 0 <= y < 96 ->
      px canvas x y = blend (alpha (px glyph x y)) transparent (px glyph x y).
Proof.
  intros Hs Hrad.
  destruct (main_lookup args im w Hs Hrad) as (r & w' & Hr & Hm & Hlook).
  exists w', (lanczos_square im 96), (launcher_icon im 96 96).
  split; [done|]. split; [apply (Hlook "png"); listed|].
  split; [apply resized_square; by vm_compute|].
  split; [unfold launcher_icon, padded_image; by rewrite size_pasted|].
  intros x y Hx Hy. unfold launcher_icon, padded_image.
  assert (Hsz : size (lanczos_square im 96) = (96, 96)) by (apply size_lanczos_square; lia).
  injection Hsz as Hgw Hgh.
  change ((96 - 96) / 2) with 0.
  rewrite px_pasted_inside by (simpl; lia).
  simpl fst. simpl snd. rewrite !Z.sub_0_r. by rewrite px_tabulate by lia.
Qed.

End RunFacts.

Section RootFacts.
Context `{Pillow}.

(** X18.  The outputs do not depend on where the repository lives: runs
    under two roots, on any two disks whose source decodes to the same
    image, leave the same bytes at each destination relative to its
    root. *)
Theorem main_root_independent (ROOT1 ROOT2 : string) (args : Namespace) (im : Img rgba)
    (w1 w2 : World) :
  usable_source args im w1 ->
  usable_source args im w2 ->
  PyFloat.radius_fraction (radius args) = true ->
  ∃ w1' w2',
    main ROOT1 args w1 = (Ret tt, w1') ∧
    main ROOT2 args w2 = (Ret tt, w2') ∧
    ∀ rel, rel ∈ destinations "" ->
      is_Some (disk w1' !! (ROOT1 +:+ rel)) ∧
      disk w1' !! (ROOT1 +:+ rel) = disk w2' !! (ROOT2 +:+ rel).
Proof.
  intros Hs1 Hs2 Hrad.
  destruct (main_writes ROOT1 args im w1 Hs1 Hrad) as (r & w1' & Hr & Hm1 & _ & Hd1 & _).
  destruct (main_writes ROOT2 args im w2 Hs2 Hrad) as (r' & w2' & Hr' & Hm2 & _ & Hd2 & _).
  rewrite Hr in Hr'. injection Hr' as <-.
  exists w1', w2'. split; [done|]. split; [done|].
  intros rel Hrel.
  rewrite Hd1, Hd2, !write_all_lookup, (artifacts_rooted ROOT1), (artifacts_rooted ROOT2),
    !final_write_rooted.
  destruct (final_write_is_Some rel (artifacts "" im r)) as [c Hc].
  { by rewrite artifact_paths. }
  rewrite Hc. simpl. split; [by eexists|done].
Qed.

End RootFacts.

(** * Concrete runs

    The theorems above, applied to the small instance [Toy], and the inputs
    on which the unamended claims fail. *)

Lemma padded_layout_witness :
  ∃ glyph canvas w',
    @padded Toy.pillow 0%nat 6 two_thirds Toy.store = (Ret (length (heap Toy.store)), w') ∧
    heap w' !! length (heap Toy.store) = Some (ORGBA canvas) ∧
    @resized Toy.pillow Toy.red_square (4, 4) LANCZOS = Ret glyph ∧
    size glyph = (4, 4) ∧
    size canvas = (6, 6) ∧
    let off := (6 - 4) / 2 in
    (∀ x y, 0 <= x < 4 -> 0 <= y < 4 ->
       px canvas (off + x) (off + y)
         = @blend Toy.pillow (alpha (px glyph x y)) transparent (px glyph x y) ∧
       (alpha (px glyph x y) = 255 -> px canvas (off + x) (off + y) = px glyph x y)) ∧
    (∀ x y, 0 <= x < 6 -> 0 <= y < 6 ->
       ¬ (off <= x < off + 4 ∧ off <= y < off + 4) ->
       px canvas x y = transparent).
Proof.
  apply (@padded_layout Toy.pillow 0%nat Toy.red_square 6 4 two_thirds Toy.store).
  - reflexivity.
  - lia.
  - reflexivity.
  - vm_compute. reflexivity.
  - vm_compute. reflexivity.
  - lia.
  - reflexivity.
Defined.

(** C2, as stated, fails: canvas size 1 and scale 0.5 satisfy the
    precondition, [inner = int(0.5) = 0], and resizing to 0 x 0 raises
    [ValueError]; [padded] returns no canvas. *)
Lemma padded_raises_on_empty_inner :
  0 < 1 ∧ PyFloat.unit_fraction PyFloat.half = true ∧
  @int_product 1 PyFloat.half = Some 0 ∧
  (@padded Toy.pillow 0%nat 1 PyFloat.half Toy.store).1
    = Raise (ValueError "height and width must be > 0").
Proof. split; [lia|]. by vm_compute. Qed.

Lemma padded_stays_in_canvas_witness :
  ∃ inner,
    int_product 48 two_thirds = Some inner ∧
    0 <= inner <= 48 ∧
    0 <= (48 - inner) / 2 ∧
    (48 - inner) / 2 + inner <= 48 ∧
    (1 <= inner ->
     @fits Toy.pillow 48 48 = true -> @fits Toy.pillow inner inner = true ->
     ∃ canvas glyph,
       @padded Toy.pillow 0%nat 48 two_thirds Toy.store =
         (Ret (length (heap Toy.store)),
          mkWorld (heap Toy.store ++ [ORGBA canvas; ORGBA glyph])
                  (disk Toy.store) (stdout Toy.store)) ∧
       size canvas = (48, 48) ∧
       size glyph = (inner, inner)).
Proof.
  apply (@padded_stays_in_canvas Toy.pillow 0%nat Toy.red_square 48 two_thirds Toy.store).
  - reflexivity.
  - unfold INT_MAX. lia.
  - vm_compute. reflexivity.
Defined.

(** Why the amended C2 and C10 ask for room: the largest canvas size C's
    [int] holds is allocated on no machine. *)
Example padded_out_of_memory :
  @padded Toy.pillow 0%nat 2147483647 PyFloat.one Toy.store = (Raise MemoryError, Toy.store).
Proof.
  unfold padded. erewrite bind_raise; [reflexivity|].
  apply (@Image_new_out_of_memory Toy.pillow (2147483647, 2147483647)); by vm_compute.
Qed.

(** C10, as stated, fails: canvas size 2 and scale 0.25 satisfy the
    precondition and the bounds hold ([inner = 0]), but the operation is not
    total: the resize to 0 x 0 raises [ValueError]. *)
Lemma padded_not_total :
  0 < 2 ∧ PyFloat.unit_fraction Toy.quarter = true ∧
  int_product 2 Toy.quarter = Some 0 ∧
  (@padded Toy.pillow 0%nat 2 Toy.quarter Toy.store).1
    = Raise (ValueError "height and width must be > 0").
Proof. split; [lia|]. by vm_compute. Qed.



(** On that image the drawing leaves blank the pixel (0, 0) and no other. *)
Example rounded_tile_mask :
  filter (λ p : Z * Z, @rr_inked Toy.pillow (0, 0, 10, 10) 2 p.1 p.2 = false)
         (x ← seqZ 0 10; (λ y, (x, y)) <$> seqZ 0 10)
    = [(0, 0)].
Proof. by vm_compute. Qed.

Lemma rounded_is_binary_witness :
  ∃ out_ref mask out w',
    @rounded Toy.pillow 0%nat Toy.fifth Toy.tile_store = (Ret out_ref, w') ∧
    heap w' !! out_ref = Some (ORGBA out) ∧
    heap w' !! length (heap Toy.tile_store) = Some (OL mask) ∧
    ∀ x y, 0 <= x < width Toy.tile -> 0 <= y < height Toy.tile ->
      (px mask x y = 0 ∧ px out x y = transparent) ∨
      (px mask x y = 255 ∧ px out x y = px Toy.tile x y).
Proof.
  apply (@rounded_is_binary Toy.pillow 0%nat Toy.tile Toy.fifth Toy.tile_store).
  - reflexivity.
  - vm_compute. split; discriminate.
  - vm_compute. split; discriminate.
  - vm_compute. reflexivity.
Defined.

Lemma svg_wraps_png_witness :
  ∃ svg,
    @save_svg_from_png Toy.pillow 0%nat "/tmp/icon.svg" Toy.store
      = (Ret tt, emit "svg" "/tmp/icon.svg" svg Toy.store) ∧
    (attribute "width" svg ≫= int_of_str) = Some (width Toy.red_square) ∧
    (attribute "height" svg ≫= int_of_str) = Some (height Toy.red_square) ∧
    attribute "viewBox" svg
      = Some ("0 0 " +:+ str_int (width Toy.red_square) +:+ " "
                     +:+ str_int (height Toy.red_square)) ∧
    ((attribute "href" svg ≫= strip_prefix "data:image/png;base64,") ≫= Base64.decode)
      = Some (@png_encode Toy.pillow Toy.red_square).
Proof.
  apply (@svg_wraps_png Toy.pillow 0%nat Toy.red_square "/tmp/icon.svg" Toy.store).
  reflexivity.
Defined.

Lemma favicon_frames_from_largest_witness :
  ∃ r16 r32 r48 largest w',
    @resized Toy.pillow Toy.red_square (16, 16) LANCZOS = Ret r16 ∧
    @resized Toy.pillow Toy.red_square (32, 32) LANCZOS = Ret r32 ∧
    @resized Toy.pillow Toy.red_square (48, 48) LANCZOS = Ret r48 ∧
    @resized Toy.pillow Toy.red_square (64, 64) LANCZOS = Ret largest ∧
    @save_ico Toy.pillow 0%nat "/tmp/favicon.ico" default_ico_sizes Toy.store = (Ret tt, w') ∧
    heap w' = heap Toy.store ++ [ORGBA r16; ORGBA r32; ORGBA r48; ORGBA largest] ∧
    disk w' !! "/tmp/favicon.ico" =
      Some (@ico_container Toy.pillow
              [ @resample Toy.pillow LANCZOS largest 16 16;
                @resample Toy.pillow LANCZOS largest 32 32;
                @resample Toy.pillow LANCZOS largest 48 48;
                largest ]).
Proof.
  apply (@favicon_frames_from_largest Toy.pillow 0%nat Toy.red_square "/tmp/favicon.ico" Toy.store).
  reflexivity.
Defined.

(** With nearest-neighbour sampling standing in for the filter, the 16 x 16
    frame of the bundle (resampled from the 64 x 64 image) differs from the
    base resized to 16 x 16 directly, already in its first pixel. *)
Example favicon_small_frame_differs :
  px (@resample Toy.pillow LANCZOS (@lanczos_square Toy.pillow Toy.gradient 64) 16 16) 0 0
    = RGBA 5 5 0 255 ∧
  px (@lanczos_square Toy.pillow Toy.gradient 16) 0 0 = RGBA 4 4 0 255.
Proof. by vm_compute. Qed.

(** A bundle asked for sizes it cannot hold in order: with sizes (64, 16)
    only the last resize, 16 x 16, is saved, and the 64 x 64 frame is
    dropped by the ICO writer. *)
Example favicon_drops_larger_sizes :
  @ico_frames Toy.pillow (@lanczos_square Toy.pillow Toy.red_square 16) [(64, 64); (16, 16)]
    = Ret [@lanczos_square Toy.pillow Toy.red_square 16].
Proof. by vm_compute. Qed.

Lemma toy_source_usable : @usable_source Toy.pillow Toy.args Toy.red_square Toy.machine.
Proof.
  split; [|vm_compute; repeat split; discriminate].
  exists "png bytes". split; [apply lookup_singleton_eq | reflexivity].
Defined.

Lemma toy_source_usable_busy :
  @usable_source Toy.pillow Toy.args Toy.red_square Toy.busy_machine.
Proof.
  split; [|vm_compute; repeat split; discriminate].
  exists "png bytes". split; [apply lookup_singleton_eq | reflexivity].
Defined.

Lemma toy_radius : PyFloat.radius_fraction (radius Toy.args) = true.
Proof. vm_compute. reflexivity. Defined.

Lemma main_deterministic_witness :
  ∃ r w1' w2',
    int_product (Z.min (width Toy.red_square) (height Toy.red_square)) (radius Toy.args)
      = Some r ∧
    @main Toy.pillow "/repo" Toy.args Toy.machine = (Ret tt, w1') ∧
    @main Toy.pillow "/repo" Toy.args Toy.busy_machine = (Ret tt, w2') ∧
    disk w1' = write_all (@artifacts Toy.pillow "/repo" Toy.red_square r) (disk Toy.machine) ∧
    disk w2' = write_all (@artifacts Toy.pillow "/repo" Toy.red_square r) (disk Toy.busy_machine) ∧
    stdout w1' = stdout Toy.machine
                   ++ progress (@artifacts Toy.pillow "/repo" Toy.red_square r) ++ ["done"] ∧
    stdout w2' = stdout Toy.busy_machine
                   ++ progress (@artifacts Toy.pillow "/repo" Toy.red_square r) ++ ["done"] ∧
    ∀ path content,
      final_write path (@artifacts Toy.pillow "/repo" Toy.red_square r) = Some content ->
      disk w1' !! path = Some content ∧ disk w2' !! path = Some content.
Proof.
  apply (@main_deterministic Toy.pillow "/repo" Toy.args Toy.red_square
           Toy.machine Toy.busy_machine).
  - exact toy_source_usable.
  - exact toy_source_usable_busy.
  - exact toy_radius.
Defined.

Lemma main_exit_behaviour_witness :
  (@main Toy.pillow "/repo" Toy.args Toy.bare_machine
     = (Raise (SystemExit ("Source not found: " +:+ source Toy.args)), Toy.bare_machine) ∧
   exit_status (@main Toy.pillow "/repo" Toy.args Toy.bare_machine).1 = 1) ∧
  (∃ arts w',
     @main Toy.pillow "/repo" Toy.args Toy.machine = (Ret tt, w') ∧
     exit_status (@main Toy.pillow "/repo" Toy.args Toy.machine).1 = 0 ∧
     disk w' = write_all arts (disk Toy.machine) ∧
     stdout w' = stdout Toy.machine ++ progress arts ++ ["done"] ∧
     length (progress arts) = length arts ∧
     length arts = 39%nat).
Proof.
  split.
  - apply (proj1 (@main_exit_behaviour Toy.pillow "/repo" Toy.args Toy.bare_machine)).
    apply lookup_empty.
  - apply (proj2 (@main_exit_behaviour Toy.pillow "/repo" Toy.args Toy.machine)
             Toy.red_square toy_source_usable toy_radius).
Defined.

(** C6, as stated, fails: the source exists in both runs, yet neither
    proceeds.  An empty file is no image, and [Image.open] raises; a NaN
    radius makes [int] raise inside [rounded].  Either run ends with a
    non-zero status before any artifact is written or any line printed. *)
Lemma main_aborts_on_existing_source :
  (disk Toy.broken_machine !! source Toy.args = Some "" ∧
   (@main Toy.pillow "/repo" Toy.args Toy.broken_machine).1
     = Raise (UnidentifiedImageError "/tmp/icon.png") ∧
   stdout (@main Toy.pillow "/repo" Toy.args Toy.broken_machine).2 = [] ∧
   disk (@main Toy.pillow "/repo" Toy.args Toy.broken_machine).2 = disk Toy.broken_machine) ∧
  (disk Toy.machine !! "/tmp/icon.png" = Some "png bytes" ∧
   (@main Toy.pillow "/repo" {| source := "/tmp/icon.png"; radius := S754_nan |} Toy.machine).1
     = Raise (ValueError "cannot convert float NaN to integer") ∧
   stdout (@main Toy.pillow "/repo" {| source := "/tmp/icon.png"; radius := S754_nan |}
             Toy.machine).2 = [] ∧
   disk (@main Toy.pillow "/repo" {| source := "/tmp/icon.png"; radius := S754_nan |}
           Toy.machine).2 = disk Toy.machine).
Proof. by vm_compute. Qed.

Lemma launcher_round_identical_witness :
  ∃ w' inner,
    @main Toy.pillow "/repo" Toy.args Toy.machine = (Ret tt, w') ∧
    int_product 48 two_thirds = Some inner ∧
    disk w' !! (res_root "/repo" +:+ "/" +:+ "mipmap-mdpi" +:+ "/" +:+ "ic_launcher.png")
      = Some (@png_encode Toy.pillow
                (@padded_image Toy.pillow (@lanczos_square Toy.pillow Toy.red_square inner)
                   48 inner)) ∧
    disk w' !! (res_root "/repo" +:+ "/" +:+ "mipmap-mdpi" +:+ "/" +:+ "ic_launcher_round.png")
      = Some (@png_encode Toy.pillow
                (@padded_image Toy.pillow (@lanczos_square Toy.pillow Toy.red_square inner)
                   48 inner)).
Proof.
  apply (@launcher_round_identical Toy.pillow "/repo" Toy.args Toy.red_square Toy.machine
           "mipmap-mdpi" 48).
  - exact toy_source_usable.
  - exact toy_radius.
  - apply elem_of_cons. left. reflexivity.
Defined.

(** ** The further properties on the small instance *)

Lemma save_png_effect_witness :
  ∃ w',
    @save_png Toy.pillow 0%nat "/tmp/out.png" Toy.store = (Ret tt, w') ∧
    heap w' = heap Toy.store ∧
    disk w' !! "/tmp/out.png" = Some (@png_encode Toy.pillow Toy.red_square) ∧
    (∀ path, path ≠ "/tmp/out.png" -> disk w' !! path = disk Toy.store !! path) ∧
    stdout w' = stdout Toy.store ++ ["png -> " +:+ "/tmp/out.png"].
Proof.
  apply (@save_png_effect Toy.pillow 0%nat Toy.red_square "/tmp/out.png" Toy.store).
  - reflexivity.
  - vm_compute. reflexivity.
Defined.

(** A file named [.png] has no extension: nothing is written. *)
Example save_png_refuses_dot_png :
  extension "/tmp/.png" = "" ∧
  @save_png Toy.pillow 0%nat "/tmp/.png" Toy.store
    = (Raise (ValueError "unknown file extension: "), Toy.store).
Proof. by vm_compute. Qed.

Example extension_examples :
  extension "/repo/public/icon1.png" = ".png" ∧
  extension "/repo/public/ICON.PNG" = ".png" ∧
  extension "/repo/v1.2/icon" = "" ∧
  extension "/repo/archive.tar.gz" = ".gz" ∧
  extension "/repo/..png" = "".
Proof. by vm_compute. Qed.

Lemma save_svg_from_png_effect_witness :
  ∃ w',
    @save_svg_from_png Toy.pillow 0%nat "/tmp/out.txt" Toy.store = (Ret tt, w') ∧
    heap w' = heap Toy.store ∧
    disk w' !! "/tmp/out.txt"
      = Some (svg_text (width Toy.red_square) (height Toy.red_square)
                (Base64.encode (@png_encode Toy.pillow Toy.red_square))) ∧
    (∀ path, path ≠ "/tmp/out.txt" -> disk w' !! path = disk Toy.store !! path) ∧
    stdout w' = stdout Toy.store ++ ["svg -> " +:+ "/tmp/out.txt"].
Proof.
  apply (@save_svg_from_png_effect Toy.pillow 0%nat Toy.red_square "/tmp/out.txt" Toy.store).
  reflexivity.
Defined.

Lemma save_ico_frames_bounded_witness :
  ∃ largest frames w',
    @save_ico Toy.pillow 0%nat "/tmp/favicon.ico" [512; 16; 32] Toy.store = (Ret tt, w') ∧
    @resized Toy.pillow Toy.red_square (32, 32) LANCZOS = Ret largest ∧
    disk w' !! "/tmp/favicon.ico" = Some (@ico_container Toy.pillow frames) ∧
    frames ≠ [] ∧
    (∀ frame, frame ∈ frames ->
       ∃ s, s ∈ [512; 16; 32] ∧ s <= 32 ∧ s <= 256 ∧ size frame = (s, s) ∧
            frame = if s =? 32 then largest else @resample Toy.pillow LANCZOS largest s s) ∧
    (∀ s, s ∈ [512; 16; 32] -> s <= 32 -> s <= 256 ->
       ∃ frame, frame ∈ frames ∧ size frame = (s, s)).
Proof.
  apply (@save_ico_frames_bounded Toy.pillow 0%nat Toy.red_square "/tmp/favicon.ico"
           [512; 16; 32] 32 Toy.store).
  - reflexivity.
  - repeat (constructor; [split; [lia|reflexivity]|]). constructor.
  - reflexivity.
  - apply Exists_cons_tl, Exists_cons_hd. lia.
Defined.

Lemma save_ico_returns_iff_witness :
  (∃ w', @save_ico Toy.pillow 0%nat "/tmp/favicon.ico" [300] Toy.store = (Ret tt, w'))
  <-> [300] ≠ [] ∧ Forall (λ s, 1 <= s) [300] ∧
      ∃ L, last [300] = Some L ∧ Exists (λ s, s <= L ∧ s <= 256) [300].
Proof.
  apply (@save_ico_returns_iff Toy.pillow 0%nat Toy.red_square "/tmp/favicon.ico"
           [300] Toy.store).
  - reflexivity.
  - vm_compute. discriminate.
  - repeat (constructor; [intros _; reflexivity|]). constructor.
Defined.

(** A single size above 256: the resize is made, the ICO writer has no
    frame to write and raises, and no file is left. *)
Example save_ico_refuses_oversized :
  let run := @save_ico Toy.pillow 0%nat "/tmp/favicon.ico" [300] Toy.store in
  run.1 = Raise (ValueError "All sizes too large for image") ∧
  disk run.2 = ∅ ∧ stdout run.2 = [].
Proof. by vm_compute. Qed.

Lemma save_ico_raises_on_size_below_one_witness :
  ∃ new w',
    @save_ico Toy.pillow 0%nat "/tmp/favicon.ico" [16; 0; 32] Toy.store
      = (Raise (ValueError "height and width must be > 0"), w') ∧
    heap w' = heap Toy.store ++ new ∧ disk w' = disk Toy.store ∧ stdout w' = stdout Toy.store.
Proof.
  apply (@save_ico_raises_on_size_below_one Toy.pillow 0%nat Toy.red_square
           "/tmp/favicon.ico" [16; 0; 32] Toy.store).
  - reflexivity.
  - vm_compute. discriminate.
  - repeat (constructor; [split; [unfold INT_MIN; lia|intros _; reflexivity]|]). constructor.
  - apply Exists_cons_tl, Exists_cons_hd. lia.
Defined.

Lemma b64encode_alphabet_witness :
  (is_Some (Base64.index_of "c"%char) ∨ "c"%char = Base64.pad) ∧ "c"%char ≠ "'"%char.
Proof.
  apply (b64encode_alphabet "png" "c"%char).
  change ("c"%char ∈ ["c"; "G"; "5"; "n"]%char).
  apply elem_of_cons. left. reflexivity.
Defined.

Lemma rounded_rejects_non_finite_witness :
  @rounded Toy.pillow 0%nat S754_nan Toy.store
    = (Raise (rounded_failure (Z.min (width Toy.red_square) (height Toy.red_square)) S754_nan),
       Toy.store).
Proof.
  apply (@rounded_rejects_non_finite Toy.pillow 0%nat Toy.red_square S754_nan Toy.store).
  - reflexivity.
  - vm_compute. split; discriminate.
  - vm_compute. split; discriminate.
  - reflexivity.
Defined.

Lemma rounded_idempotent_witness :
  ∃ once twice out w1 w2,
    @rounded Toy.pillow 0%nat Toy.fifth Toy.tile_store = (Ret once, w1) ∧
    @rounded Toy.pillow once Toy.fifth w1 = (Ret twice, w2) ∧
    once ≠ twice ∧
    heap w2 !! once = Some (ORGBA out) ∧
    heap w2 !! twice = Some (ORGBA out).
Proof.
  apply (@rounded_idempotent Toy.pillow 0%nat Toy.tile Toy.fifth Toy.tile_store).
  - reflexivity.
  - vm_compute. split; discriminate.
  - vm_compute. split; discriminate.
  - vm_compute. reflexivity.
Defined.

Lemma rounded_radius_at_most_half_witness :
  ∃ r mask out w',
    int_product (Z.min (width Toy.gradient) (height Toy.gradient)) PyFloat.half = Some r ∧
    0 <= 2 * r <= Z.min (width Toy.gradient) (height Toy.gradient) ∧
    @rounded Toy.pillow 0%nat PyFloat.half (mkWorld [ORGBA Toy.gradient] ∅ [])
      = (Ret (S (length (heap (mkWorld [ORGBA Toy.gradient] ∅ [])))), w') ∧
    heap w' = heap (mkWorld [ORGBA Toy.gradient] ∅ []) ++ [OL mask; ORGBA out] ∧
    ∀ x y, 0 <= x < width Toy.gradient -> 0 <= y < height Toy.gradient ->
      px mask x y =
        if @rr_inked Toy.pillow (0, 0, width Toy.gradient, height Toy.gradient) r x y
        then 255 else 0.
Proof.
  apply (@rounded_radius_at_most_half Toy.pillow 0%nat Toy.gradient PyFloat.half
           (mkWorld [ORGBA Toy.gradient] ∅ [])).
  - reflexivity.
  - vm_compute. split; discriminate.
  - vm_compute. split; discriminate.
  - vm_compute. reflexivity.
Defined.

Lemma padded_layout_any_scale_witness :
  ∃ glyph canvas,
    @padded Toy.pillow 0%nat 2 Toy.double Toy.store =
      (Ret (length (heap Toy.store)),
       mkWorld (heap Toy.store ++ [ORGBA canvas; ORGBA glyph])
               (disk Toy.store) (stdout Toy.store)) ∧
    @resized Toy.pillow Toy.red_square (4, 4) LANCZOS = Ret glyph ∧
    size canvas = (2, 2) ∧
    let off := (2 - 4) / 2 in
    (∀ x y, 0 <= x < 2 -> 0 <= y < 2 ->
       px canvas x y =
         if bool_decide (off <= x < off + 4 ∧ off <= y < off + 4)
         then @blend Toy.pillow (alpha (px glyph (x - off) (y - off))) transparent
                (px glyph (x - off) (y - off))
         else transparent) ∧
    (2 <= 4 ->
     off <= 0 ∧ 2 <= off + 4 ∧
     ∀ x y, 0 <= x < 2 -> 0 <= y < 2 ->
       px canvas x y = @blend Toy.pillow (alpha (px glyph (x - off) (y - off))) transparent
                         (px glyph (x - off) (y - off))).
Proof.
  apply (@padded_layout_any_scale Toy.pillow 0%nat Toy.red_square 2 4 Toy.double Toy.store).
  - reflexivity.
  - lia.
  - reflexivity.
  - vm_compute. reflexivity.
  - lia.
  - reflexivity.
Defined.

Lemma padded_raises_below_one_witness :
  @padded Toy.pillow 0%nat 3 Toy.quarter Toy.store =
    (Raise (ValueError "height and width must be > 0"),
     mkWorld (heap Toy.store ++ [ORGBA (tabulate 3 3 (λ _ _, transparent))])
             (disk Toy.store) (stdout Toy.store)).
Proof.
  apply (@padded_raises_below_one Toy.pillow 0%nat Toy.red_square 3 0 Toy.quarter Toy.store).
  - reflexivity.
  - vm_compute. discriminate.
  - lia.
  - reflexivity.
  - vm_compute. reflexivity.
  - unfold INT_MIN. lia.
Defined.

Lemma main_rejects_undecodable_source_witness :
  @main Toy.pillow "/repo" Toy.args Toy.broken_machine
    = (Raise (UnidentifiedImageError (source Toy.args)), Toy.broken_machine).
Proof.
  apply (@main_rejects_undecodable_source Toy.pillow "/repo" Toy.args "" Toy.broken_machine).
  - apply lookup_singleton_eq.
  - reflexivity.
Defined.

Lemma toy_source_usable_nan : @usable_source Toy.pillow Toy.nan_args Toy.red_square Toy.machine.
Proof.
  split; [|vm_compute; repeat split; discriminate].
  exists "png bytes". split; [apply lookup_singleton_eq | reflexivity].
Defined.

Lemma main_rejects_non_finite_radius_witness :
  @main Toy.pillow "/repo" Toy.nan_args Toy.machine =
    (Raise (rounded_failure (Z.min (width Toy.red_square) (height Toy.red_square))
              (radius Toy.nan_args)),
     mkWorld (heap Toy.machine ++ [ORGBA Toy.red_square]) (disk Toy.machine)
             (stdout Toy.machine)).
Proof.
  apply (@main_rejects_non_finite_radius Toy.pillow "/repo" Toy.nan_args Toy.red_square
           Toy.machine).
  - exact toy_source_usable_nan.
  - reflexivity.
Defined.

Lemma main_touches_only_destinations_witness :
  ∃ w',
    @main Toy.pillow "/repo" Toy.args Toy.machine = (Ret tt, w') ∧
    length (destinations "/repo") = 39%nat ∧
    ∀ path, path ∉ destinations "/repo" -> disk w' !! path = disk Toy.machine !! path.
Proof.
  apply (@main_touches_only_destinations Toy.pillow "/repo" Toy.args Toy.red_square Toy.machine).
  - exact toy_source_usable.
  - exact toy_radius.
Defined.

Lemma main_keeps_every_artifact_witness :
  ∃ r w',
    int_product (Z.min (width Toy.red_square) (height Toy.red_square)) (radius Toy.args)
      = Some r ∧
    @main Toy.pillow "/repo" Toy.args Toy.machine = (Ret tt, w') ∧
    NoDup (artifact_path <$> @artifacts Toy.pillow "/repo" Toy.red_square r) ∧
    ∀ kind path content,
      (kind, path, content) ∈ @artifacts Toy.pillow "/repo" Toy.red_square r ->
      disk w' !! path = Some content.
Proof.
  apply (@main_keeps_every_artifact Toy.pillow "/repo" Toy.args Toy.red_square Toy.machine).
  - exact toy_source_usable.
  - exact toy_radius.
Defined.

Lemma toy_source_outside : source Toy.args ∉ destinations "/repo".
Proof.
  apply (bool_decide_unpack (source Toy.args ∉ destinations "/repo")).
  vm_compute. reflexivity.
Defined.

Lemma main_rerun_idempotent_witness :
  ∃ w1 w2 lines,
    @main Toy.pillow "/repo" Toy.args Toy.machine = (Ret tt, w1) ∧
    @main Toy.pillow "/repo" Toy.args w1 = (Ret tt, w2) ∧
    disk w2 = disk w1 ∧
    stdout w1 = stdout Toy.machine ++ lines ∧
    stdout w2 = stdout w1 ++ lines.
Proof.
  apply (@main_rerun_idempotent Toy.pillow "/repo" Toy.args Toy.red_square Toy.machine).
  - exact toy_source_usable.
  - exact toy_radius.
  - exact toy_source_outside.
Defined.

Lemma main_root_independent_witness :
  ∃ w1' w2',
    @main Toy.pillow "/repo" Toy.args Toy.machine = (Ret tt, w1') ∧
    @main Toy.pillow "/srv/checkout" Toy.args Toy.busy_machine = (Ret tt, w2') ∧
    ∀ rel, rel ∈ destinations "" ->
      is_Some (disk w1' !! ("/repo" +:+ rel)) ∧
      disk w1' !! ("/repo" +:+ rel) = disk w2' !! ("/srv/checkout" +:+ rel).
Proof.
  apply (@main_root_independent Toy.pillow "/repo" "/srv/checkout" Toy.args Toy.red_square
           Toy.machine Toy.busy_machine).
  - exact toy_source_usable.
  - exact toy_source_usable_busy.
  - exact toy_radius.
Defined.

Lemma svg_copies_embed_source_png_witness :
  ∃ w' svg bytes,
    @main Toy.pillow "/repo" Toy.args Toy.machine = (Ret tt, w') ∧
    disk w' !! under_root "/repo" "packages/branding/icons/tasktrove-icon.png" = Some bytes ∧
    (attribute "href" svg ≫= strip_prefix "data:image/png;base64,") ≫= Base64.decode
      = Some bytes ∧
    ∀ dest,
      dest ∈ under_root "/repo" "packages/branding/icons/tasktrove-icon.svg"
               :: tasktrove_icon_copies "/repo" ++ icon0_targets "/repo" ->
      disk w' !! dest = Some svg.
Proof.
  apply (@svg_copies_embed_source_png Toy.pillow "/repo" Toy.args Toy.red_square Toy.machine).
  - exact toy_source_usable.
  - exact toy_radius.
Defined.

Lemma rounded_svg_copies_identical_witness :
  ∃ r w' svg,
    int_product (Z.min (width Toy.red_square) (height Toy.red_square)) (radius Toy.args)
      = Some r ∧
    @main Toy.pillow "/repo" Toy.args Toy.machine = (Ret tt, w') ∧
    ((attribute "href" svg ≫= strip_prefix "data:image/png;base64,") ≫= Base64.decode)
      = Some (@png_encode Toy.pillow (@rounded_image Toy.pillow Toy.red_square r)) ∧
    ∀ dest, dest ∈ icon_rounded_targets "/repo" -> disk w' !! dest = Some svg.
Proof.
  apply (@rounded_svg_copies_identical Toy.pillow "/repo" Toy.args Toy.red_square Toy.machine).
  - exact toy_source_usable.
  - exact toy_radius.
Defined.

Lemma sized_pngs_have_their_size_witness :
  ∃ w' img,
    @main Toy.pillow "/repo" Toy.args Toy.machine = (Ret tt, w') ∧
    @resized Toy.pillow Toy.red_square (180, 180) LANCZOS = Ret img ∧
    size img = (180, 180) ∧
    disk w' !! under_root "/repo" "apps/web/app/apple-icon.png"
      = Some (@png_encode Toy.pillow img).
Proof.
  apply (@sized_pngs_have_their_size Toy.pillow "/repo" Toy.args Toy.red_square Toy.machine
           (under_root "/repo" "apps/web/app/apple-icon.png") 180).
  - exact toy_source_usable.
  - exact toy_radius.
  - unfold png_sizes. do 3 (apply elem_of_cons; right). apply elem_of_cons. left. reflexivity.
Defined.

Lemma favicon_copies_identical_witness :
  ∃ w' bundle,
    @main Toy.pillow "/repo" Toy.args Toy.machine = (Ret tt, w') ∧
    ∀ dest, dest ∈ favicon_targets "/repo" -> disk w' !! dest = Some bundle.
Proof.
  apply (@favicon_copies_identical Toy.pillow "/repo" Toy.args Toy.red_square Toy.machine).
  - exact toy_source_usable.
  - exact toy_radius.
Defined.

Lemma launcher_safe_zone_witness :
  ∃ w' canvas,
    @main Toy.pillow "/repo" Toy.args Toy.machine = (Ret tt, w') ∧
    disk w' !! (res_root "/repo" +:+ "/" +:+ "mipmap-hdpi" +:+ "/"
                  +:+ "ic_launcher_foreground.png")
      = Some (@png_encode Toy.pillow canvas) ∧
    size canvas = (162, 162) ∧
    162 mod 6 = 0 ∧
    ∀ x y, 0 <= x < 162 -> 0 <= y < 162 ->
      ¬ (162 / 6 <= x < 162 - 162 / 6 ∧ 162 / 6 <= y < 162 - 162 / 6) ->
      px canvas x y = transparent.
Proof.
  apply (@launcher_safe_zone Toy.pillow "/repo" Toy.args Toy.red_square Toy.machine
           "mipmap-hdpi" "ic_launcher_foreground.png" 162).
  - exact toy_source_usable.
  - exact toy_radius.
  - right. split; [|reflexivity].
    unfold foreground. apply elem_of_cons. right. apply elem_of_cons. left. reflexivity.
Defined.

Lemma notification_icon_unpadded_witness :
  ∃ w' glyph canvas,
    @main Toy.pillow "/repo" Toy.args Toy.machine = (Ret tt, w') ∧
    disk w' !! (res_root "/repo" +:+ "/" +:+ "drawable/ic_stat_tasktrove.png")
      = Some (@png_encode Toy.pillow canvas) ∧
    @resized Toy.pillow Toy.red_square (96, 96) LANCZOS = Ret glyph ∧
    size canvas = (96, 96) ∧
    ∀ x y, 0 <= x < 96 -> 0 <= y < 96 ->
      px canvas x y = @blend Toy.pillow (alpha (px glyph x y)) transparent (px glyph x y).
Proof.
  apply (@notification_icon_unpadded Toy.pillow "/repo" Toy.args Toy.red_square Toy.machine).
  - exact toy_source_usable.
  - exact toy_radius.
Defined.
